(** * Mandelbrot zoom renderer (main.cu): shallow embedding and properties

    The per-pixel pipeline of [main.cu] ([map_pixel], [iterate],
    [hsv_to_rgb], [plot_pixel]), the kernel launch of [plot_mandelbrot]
    and the zoom loop of [main] are transcribed below.

    - [double] is IEEE-754 binary64, i.e. Rocq's primitive [float]; every
      arithmetic operation is rounded to nearest-even exactly as written
      in the source (no fused multiply-add contraction).
    - [int] is a 32-bit signed integer carried by [Z]; the places where
      the source could leave the [int] range are made explicit.
    - conversions [double -> int] truncate toward zero and are undefined
      outside the [int] range: they return [option].
    - [uint8_t] stores reduce modulo 256.
    - [sqrt] and [fabs] are the binary64 operations; [fmod] is the exact
      remainder of the C standard; [log], used only by [main], is a
      parameter.
    - the threads of a kernel launch are run one after the other;
      [launch_order_irrelevant] shows that their order does not matter.
    - [sprintf] is modelled for the one format used, by the conversion
      [%06d] of the C standard. *)

From Stdlib Require Import ZArith Zpower Lia Bool Floats.
From Stdlib Require Ascii.
From stdpp Require Import base option list.

Local Open Scope Z_scope.
Set Warnings "-inexact-float".

(** ** C scalar types and conversions *)

Module C.

Definition INT_MIN : Z := - 2 ^ 31.
Definition INT_MAX : Z := 2 ^ 31 - 1.

Definition in_int_range (n : Z) : bool := (INT_MIN <=? n) && (n <=? INT_MAX).

(** [(double) n] for an [int] [n]; exact, since |n| < 2^53. *)
Definition double_of_int (n : Z) : float :=
  if n <? 0 then (- of_uint63 (Uint63.of_Z (- n)))%float
  else of_uint63 (Uint63.of_Z n).

(** Integral part of a binary64 value, rounding toward zero. *)
Definition SFtrunc (x : spec_float) : option Z :=
  match x with
  | S754_zero _ => Some 0
  | S754_finite s m e => Some (cond_Zopp s (Z.shiftl (Zpos m) e))
  | S754_infinity _ | S754_nan => None
  end.

(** [(int) f]: truncation; undefined (here [None]) for NaN, infinities
    and values whose integral part is not an [int]. *)
Definition int_of_double (f : float) : option Z :=
  n ← SFtrunc (Prim2SF f);
  if in_int_range n then Some n else None.

(** [(uint8_t) n]: reduction modulo 256. *)
Definition uint8_of_int (n : Z) : Z := n mod 256.

(** [fmod] of the C library on binary64: the exact remainder
    [x - n*y] with [n] the quotient [x/y] truncated toward zero; the
    result has the sign of [x]. *)
Definition SFfmod (x y : spec_float) : spec_float :=
  match x, y with
  | S754_nan, _ | _, S754_nan => S754_nan
  | S754_infinity _, _ => S754_nan
  | _, S754_zero _ => S754_nan
  | S754_zero _, _ => x
  | S754_finite _ _ _, S754_infinity _ => x
  | S754_finite sx mx ex, S754_finite _ my ey =>
      let e := Z.min ex ey in
      let r := Z.rem (Z.shiftl (Zpos mx) (ex - e)) (Z.shiftl (Zpos my) (ey - e)) in
      binary_normalize prec emax (cond_Zopp sx r) e sx
  end.

Definition fmod (x y : float) : float :=
  SF2Prim (SFfmod (Prim2SF x) (Prim2SF y)).

Definition fabs (x : float) : float := PrimFloat.abs x.

End C.

(** ** Complex numbers: [struct comp] *)

Record comp : Type := mkComp { real : float; imag : float }.

(** ** The constants at the top of main.cu *)

Module Reference.
Definition max_iter : Z := 2048.
Definition img_width : Z := 1920.
Definition img_height : Z := 1080.
Definition center : comp := {| real := (-0.77568377)%float; imag := 0.13646737%float |}.
Definition zoom_start : float := 1%float.
Definition zoom_end : float := 1.0e227%float.
Definition zoom_fact : float := 1.1%float.
End Reference.

(** ** [iterate] *)

(** The two locals of [iterate]: the running point [z] and the counter [i]. *)
Record iter_state : Type := mkIter { it_z : comp; it_i : Z }.

(** [sqrt(z.real * z.real + z.imag * z.imag)] *)
Definition magnitude (z : comp) : float :=
  PrimFloat.sqrt (real z * real z + imag z * imag z)%float.

(** The guard of the [while]:
    [i < max_iter && sqrt(...) < 2.0]. *)
Definition loop_cond (max_iter : Z) (st : iter_state) : bool :=
  (it_i st <? max_iter) && (magnitude (it_z st) <? 2)%float.

(** The body of the [while]. *)
Definition loop_body (c : comp) (st : iter_state) : iter_state :=
  let z := it_z st in
  let re := (real z * real z - imag z * imag z + real c)%float in
  let im := (real z * imag z * 2 + imag c)%float in
  {| it_z := {| real := re; imag := im |}; it_i := it_i st + 1 |}.

(** Big-step semantics of the [while] loop of [iterate]. *)
Inductive loop_exec (max_iter : Z) (c : comp) : iter_state -> iter_state -> Prop :=
| loop_exit st :
    loop_cond max_iter st = false -> loop_exec max_iter c st st
| loop_pass st st' :
    loop_cond max_iter st = true ->
    loop_exec max_iter c (loop_body c st) st' ->
    loop_exec max_iter c st st'.

(** The loop run for at most [fuel] passes. *)
Fixpoint run_loop (max_iter : Z) (c : comp) (fuel : nat) (st : iter_state) : iter_state :=
  match fuel with
  | O => st
  | S fuel' =>
      if loop_cond max_iter st
      then run_loop max_iter c fuel' (loop_body c st)
      else st
  end.

Definition iter_init (c : comp) : iter_state := {| it_z := c; it_i := 0 |}.

(** [iterate(c, &iterations)]: the value stored in [*iterations].  The
    counter starts at 0 and the guard needs [i < max_iter], so
    [max_iter] passes are always enough fuel (see [iterate_exec]). *)
Definition iterate (max_iter : Z) (c : comp) : Z :=
  it_i (run_loop max_iter c (Z.to_nat max_iter) (iter_init c)).

(** ** [map_pixel] *)

Definition map_pixel (img_width img_height : Z) (px py : Z) (zoom : float)
    (center : comp) : comp :=
  let span_real := (4 / zoom)%float in
  let span_imag := (2 / zoom)%float in
  let real_nozoom :=
    (span_real / C.double_of_int img_width * C.double_of_int px
     - span_real / 2 + real center)%float in
  let imag_nozoom :=
    (span_imag / C.double_of_int img_height * C.double_of_int py
     - span_imag / 2 + imag center)%float in
  {| real := real_nozoom; imag := imag_nozoom |}.

(** ** [hsv_to_rgb] *)

(** The [if]/[else if] chain assigning [R], [G], [B]. *)
Definition hsv_sector (h : Z) (c x : float) : float * float * float :=
  if (0 <=? h) && (h <? 60) then (c, x, 0%float)
  else if (60 <=? h) && (h <? 180) then (x, c, x)
  else if (180 <=? h) && (h <? 240) then (0%float, x, c)
  else if (240 <=? h) && (h <? 300) then (x, 0%float, c)
  else (c, 0%float, x).

Definition hsv_V (v : Z) : float := (C.double_of_int v / 100)%float.
Definition hsv_c (s v : Z) : float := (C.double_of_int s / 100 * hsv_V v)%float.
(** [1.0 - fabs(fmod(h / 60.0, 2.0) - 1.0)] *)
Definition hue_factor (h : Z) : float :=
  (1 - C.fabs (C.fmod (C.double_of_int h / 60) 2 - 1))%float.
Definition hsv_x (h s v : Z) : float := (hsv_c s v * hue_factor h)%float.
Definition hsv_m (s v : Z) : float := (hsv_V v - hsv_c s v)%float.

(** [*r = (R + m) * 255.0] and likewise for [g], [b]. *)
Definition hsv_to_rgb (h s v : Z) : option (Z * Z * Z) :=
  let m := hsv_m s v in
  let '(R, G, B) := hsv_sector h (hsv_c s v) (hsv_x h s v) in
  r ← C.int_of_double ((R + m) * 255)%float;
  g ← C.int_of_double ((G + m) * 255)%float;
  b ← C.int_of_double ((B + m) * 255)%float;
  Some (r, g, b).

(** ** [plot_pixel] *)

(** The third argument of the call to [hsv_to_rgb]:
    [(max_iter - iterations) / (double)max_iter * 100], converted to the
    [int] parameter [v]. *)
Definition brightness (max_iter iterations : Z) : option Z :=
  C.int_of_double
    (C.double_of_int (max_iter - iterations) / C.double_of_int max_iter
     * C.double_of_int 100)%float.

(** The colour computed for an iteration count. *)
Definition colorize (max_iter iterations : Z) : option (Z * Z * Z) :=
  v ← brightness max_iter iterations;
  hsv_to_rgb (Z.rem iterations 360) 100 v.

(** [size_t byte = 3 * (py * img_width + px)] with
    [px = i % img_width], [py = i / img_width].  The source computes the
    product in [int]; the value here is the same as long as it does not
    exceed [INT_MAX], which the theorems on images of any size assume
    through [width * height * 3 <= INT_MAX]. *)
Definition pixel_byte (img_width i : Z) : Z :=
  let px := Z.rem i img_width in
  let py := Z.quot i img_width in
  3 * (py * img_width + px).

(** The offsets written by thread [i]: [byte + 0], [byte + 1], [byte + 2]. *)
Definition write_offsets (img_width i : Z) : list Z :=
  let byte := pixel_byte img_width i in
  [byte + 0; byte + 1; byte + 2].

(** [buf[off] = n] on a buffer of [length buf] bytes; a store outside the
    buffer is undefined. *)
Definition store (buf : list Z) (off n : Z) : option (list Z) :=
  if (0 <=? off) && (off <? Z.of_nat (length buf))
  then Some (<[Z.to_nat off := C.uint8_of_int n]> buf)
  else None.

(** One thread of the kernel [plot_pixel], for the global index [i]. *)
Definition plot_pixel (max_iter img_width img_height : Z)
    (center : comp) (zoom : float) (i : Z) (buf : list Z) : option (list Z) :=
  let px := Z.rem i img_width in
  let py := Z.quot i img_width in
  let c := map_pixel img_width img_height px py zoom center in
  let iterations := iterate max_iter c in
  '(r, g, b) ← colorize max_iter iterations;
  let byte := pixel_byte img_width i in
  buf ← store buf (byte + 0) r;
  buf ← store buf (byte + 1) g;
  store buf (byte + 2) b.

(** ** [plot_mandelbrot] *)

Definition threads_per_block : Z := 256.

(** [int block_count = img_width * img_height / threads_per_block;] the
    product is an [int] in the source, hence the same value as long as
    [width * height <= INT_MAX]. *)
Definition block_count (img_width img_height : Z) : Z :=
  Z.quot (img_width * img_height) threads_per_block.

(** [threadIdx.x + blockIdx.x * blockDim.x] *)
Definition thread_index (threadIdx blockIdx blockDim : Z) : Z :=
  threadIdx + blockIdx * blockDim.

(** The global indices of a launch [<<<blocks, threads>>>], block by block. *)
Definition launch_indices (blocks threads : Z) : list Z :=
  b ← seqZ 0 blocks;
  t ← seqZ 0 threads;
  [thread_index t b threads].

(** Running the threads of a launch one after the other, in the order
    given by [idx]. *)
Definition run_threads (kernel : Z -> list Z -> option (list Z))
    (idx : list Z) (buf : list Z) : option (list Z) :=
  foldl (fun acc i => acc ≫= kernel i) (Some buf) idx.

Definition plot_mandelbrot (max_iter img_width img_height : Z)
    (center : comp) (zoom : float) (buf : list Z) : option (list Z) :=
  run_threads (plot_pixel max_iter img_width img_height center zoom)
    (launch_indices (block_count img_width img_height) threads_per_block) buf.

(** Every offset written during one launch, in launch order. *)
Definition launch_offsets (img_width img_height : Z) : list Z :=
  i ← launch_indices (block_count img_width img_height) threads_per_block;
  write_offsets img_width i.

(** The three stores of [plot_pixel] address exactly [write_offsets]. *)
Definition store_rgb (img_width i : Z) (rgb : Z * Z * Z) (buf : list Z) : option (list Z) :=
  foldl (fun acc (w : Z * Z) => acc ≫= fun b => store b w.1 w.2) (Some buf)
    (zip (write_offsets img_width i) [rgb.1.1; rgb.1.2; rgb.2]).

(** ** [main] *)

(** Outcome of a run of the host loop: it ends normally, it executes an
    operation whose behaviour C leaves undefined, or the bound on the
    number of passes of this model is reached first. *)
Inductive outcome (A : Type) : Type :=
| Done (a : A)
| Undefined
| OutOfFuel.
Arguments Done {A} a.
Arguments Undefined {A}.
Arguments OutOfFuel {A}.

(** One pass of the [for] loop: the image written, its zoom level and the
    percentage printed with it. *)
Record frame : Type := mkFrame { frame_id : Z; frame_zoom : float; frame_percent : Z }.

(** [img_id * 100 / img_count] in [int] arithmetic. *)
Definition progress (img_id img_count : Z) : option Z :=
  if (img_count =? 0) || negb (C.in_int_range (img_id * 100)) then None
  else Some (Z.quot (img_id * 100) img_count).

(** [for (zoom = ...; zoom <= zoom_end; zoom *= zoom_fact) { ...; img_id++; }] *)
Fixpoint zoom_loop (img_count : Z) (zoom_end zoom_fact : float)
    (fuel : nat) (zoom : float) (img_id : Z) : outcome (list frame) :=
  if (zoom <=? zoom_end)%float then
    match fuel with
    | O => OutOfFuel
    | S fuel' =>
        match progress img_id img_count with
        | None => Undefined
        | Some pct =>
            match zoom_loop img_count zoom_end zoom_fact fuel'
                    (zoom * zoom_fact)%float (img_id + 1) with
            | Done fs => Done (mkFrame img_id zoom pct :: fs)
            | Undefined => Undefined
            | OutOfFuel => OutOfFuel
            end
        end
    end
  else Done [].

(** The control of the [for] loop alone: the zoom levels it visits. *)
Fixpoint zoom_sequence (zoom_end zoom_fact : float) (fuel : nat) (zoom : float)
  : option (list float) :=
  if (zoom <=? zoom_end)%float then
    match fuel with
    | O => None
    | S fuel' => cons zoom <$> zoom_sequence zoom_end zoom_fact fuel' (zoom * zoom_fact)%float
    end
  else Some [].

Section Main.
(** [log] of the C mathematical library. *)
Variable log : float -> float.

(** [int img_count = log(zoom_end / zoom_start) / log(zoom_fact);] *)
Definition img_count (zoom_start zoom_end zoom_fact : float) : option Z :=
  C.int_of_double (log (zoom_end / zoom_start) / log zoom_fact)%float.

(** The frames written by [main], with the printed estimate. *)
Definition main (zoom_start zoom_end zoom_fact : float) (fuel : nat)
  : outcome (Z * list frame) :=
  match img_count zoom_start zoom_end zoom_fact with
  | None => Undefined
  | Some n =>
      match zoom_loop n zoom_end zoom_fact fuel zoom_start 0 with
      | Done fs => Done (n, fs)
      | Undefined => Undefined
      | OutOfFuel => OutOfFuel
      end
  end.
End Main.

(** ** The specification's formulas *)

(** The affine map of the specification, one coordinate:
    [span/extent * p - span/2 + centre]. *)
Definition affine_coord (span : float) (extent p : Z) (centre : float) : float :=
  (span / C.double_of_int extent * C.double_of_int p - span / 2 + centre)%float.

Definition affine_image (width height px py : Z) (zoom : float) (center : comp) : comp :=
  {| real := affine_coord (4 / zoom) width px (real center);
     imag := affine_coord (2 / zoom) height py (imag center) |}.

(** The textbook six-sector assignment, which splits [60,180) in two. *)
Definition textbook_sector (h : Z) (c x : float) : float * float * float :=
  if (0 <=? h) && (h <? 60) then (c, x, 0%float)
  else if (60 <=? h) && (h <? 120) then (x, c, 0%float)
  else if (120 <=? h) && (h <? 180) then (0%float, c, x)
  else if (180 <=? h) && (h <? 240) then (0%float, x, c)
  else if (240 <=? h) && (h <? 300) then (x, 0%float, c)
  else (c, 0%float, x).

(** A channel value that fits a byte. *)
Definition is_byte (n : Z) : bool := (0 <=? n) && (n <=? 255).

Definition rgb_bytes (rgb : option (Z * Z * Z)) : bool :=
  match rgb with
  | Some (r, g, b) => is_byte r && is_byte g && is_byte b
  | None => false
  end.

(** A [double] strictly between -1 and 256: its conversion to [int] is a
    byte (see [int_of_double_byte]). *)
Definition byte_float (f : float) : bool := (-1 <? f)%float && (f <? 256)%float.

(** The check of [hsv_to_rgb] over its whole domain of use: hue in
    [0,360), saturation 100, value in [0,100]; one row per hue. *)
Definition hsv_row_ok (h : Z) : bool :=
  let f := hue_factor h in
  forallb (fun v =>
             let c := hsv_c 100 v in
             let m := hsv_m 100 v in
             let '(R, G, B) := hsv_sector h c (c * f)%float in
             byte_float ((R + m) * 255)%float &&
             byte_float ((G + m) * 255)%float &&
             byte_float ((B + m) * 255)%float)
    (seqZ 0 101).

Definition hsv_table_ok : bool := forallb hsv_row_ok (seqZ 0 360).

(** ** A stand-in for the C library's [log]

    [main] calls [log] of the mathematical library, whose code is not
    part of the program.  The properties below take it as a parameter; to
    run them on concrete inputs this series evaluation of the natural
    logarithm is used: [x = m * 2^k] with [m] in [1,2), and
    [ln m = 2 * atanh ((m-1)/(m+1))]. *)
Definition log_series (x : float) : float :=
  if (x <=? 0)%float then nan
  else
    let '(f, k) := Z.frexp x in
    let m := (f * 2)%float in
    let t := ((m - 1) / (m + 1))%float in
    let t2 := (t * t)%float in
    let atanh :=
      (t * (1 + t2 * (1 / 3 + t2 * (1 / 5 + t2 * (1 / 7 + t2 * (1 / 9
           + t2 * (1 / 11 + t2 * (1 / 13 + t2 * (1 / 15)))))))))%float in
    (2 * atanh + C.double_of_int (k - 1) * 0.6931471805599453)%float.

(** ** The orbit of a point *)

(** The state of [iterate] after [k] passes of the loop body, started
    from [z = c], [i = 0], and the point [z] it holds: the [k]-th iterate
    of [z -> z*z + c]. *)
Definition orbit_state (c : comp) (k : nat) : iter_state :=
  Nat.iter k (loop_body c) (iter_init c).

Definition orbit (c : comp) (k : nat) : comp := it_z (orbit_state c k).

(** The test [sqrt(...) < 2.0] of the loop guard. *)
Definition bounded_point (z : comp) : bool := (magnitude z <? 2)%float.

(** The colour black, as a result of [hsv_to_rgb]. *)
Definition is_black (rgb : option (Z * Z * Z)) : bool :=
  match rgb with
  | Some (0, 0, 0) => true
  | _ => false
  end.

(** [(int)(v / 100.0 * 255.0)]: the byte of a channel at full intensity. *)
Definition value_byte (v : Z) : option Z :=
  C.int_of_double (hsv_V v * 255)%float.

(** The check of [hsv_to_rgb] at saturation 100: the largest channel is
    the byte of the value, and outside the hues [60,180) the smallest is 0. *)
Definition hsv_extremes_ok (h v : Z) : bool :=
  match hsv_to_rgb h 100 v, value_byte v with
  | Some (r, g, b), Some top =>
      (Z.max r (Z.max g b) =? top) &&
      ((60 <=? h) && (h <? 180) || (Z.min r (Z.min g b) =? 0))
  | _, _ => false
  end.

(** The value of [zoom] at the [k]-th test of the loop condition of
    [main]: [zoom_start] multiplied [k] times by [zoom_fact], each product
    rounded. *)
Definition zoom_at (zoom_start zoom_fact : float) (k : nat) : float :=
  Nat.iter k (fun z => (z * zoom_fact)%float) zoom_start.

(** ** The file name of a frame

    [char file_name[32]; sprintf(file_name, "images/%06d.jpeg", img_id);]
    A C string is the list of its characters before the terminating
    null. *)

Module FileName.
Import Ascii.

(** The character of the decimal digit [d]. *)
Definition digit (d : Z) : ascii := ascii_of_nat (48 + Z.to_nat d).

(** The decimal digits of [n >= 0], most significant first, put before
    [acc]; [fuel] bounds their number. *)
Fixpoint decimal_from (fuel : nat) (n : Z) (acc : list ascii) : list ascii :=
  match fuel with
  | O => acc
  | S fuel' =>
      let acc' := digit (n mod 10) :: acc in
      if n <? 10 then acc' else decimal_from fuel' (n / 10) acc'
  end.

(** The magnitude of an [int] has at most 10 decimal digits. *)
Definition decimal (n : Z) : list ascii := decimal_from 10 n [].

Definition zero_pad (width : nat) (s : list ascii) : list ascii :=
  replicate (width - length s) "0"%char ++ s.

(** The conversion [%06d] of [printf]: the decimal digits, with a
    leading [-] for a negative number, padded with zeros after the sign
    to a field of at least 6 characters. *)
Definition format_06d (n : Z) : list ascii :=
  if n <? 0 then "-"%char :: zero_pad 5 (decimal (- n)) else zero_pad 6 (decimal n).

(** The characters produced for the format ["images/%06d.jpeg"]. *)
Definition file_name (img_id : Z) : list ascii :=
  ["i"; "m"; "a"; "g"; "e"; "s"; "/"]%char ++ format_06d img_id
  ++ ["."; "j"; "p"; "e"; "g"]%char.

(** [char file_name[32]] *)
Definition file_name_size : Z := 32.

(** [sprintf] into [file_name]: the characters and a terminating null
    must fit the array; writing past it is undefined. *)
Definition sprintf_file_name (img_id : Z) : option (list ascii) :=
  let s := file_name img_id in
  if Z.of_nat (length s) + 1 <=? file_name_size then Some s else None.

(** Reading a decimal number. *)
Definition digit_value (c : ascii) : Z := Z.of_nat (nat_of_ascii c) - 48.

Definition decimal_value (s : list ascii) : Z :=
  foldl (fun a c => 10 * a + digit_value c) 0 s.

End FileName.

(** ** Bounds on binary64 numbers *)

(** [x] is a non-negative number and [x <= mb * 2^eb]. *)
Definition nonneg_le (x : spec_float) (mb eb : Z) : Prop :=
  match x with
  | S754_zero s => s = false
  | S754_finite s m e => s = false /\ e <= eb /\ Zpos m <= mb * 2 ^ (eb - e)
  | S754_infinity _ | S754_nan => False
  end.

(** [|x| <= mb * 2^eb]. *)
Definition mag_le (x : spec_float) (mb eb : Z) : Prop :=
  match x with
  | S754_zero _ => True
  | S754_finite _ m e => e <= eb /\ Zpos m <= mb * 2 ^ (eb - e)
  | S754_infinity _ | S754_nan => False
  end.

(** Bounds that are powers of two: [0 <= x <= 2^j] and [|x| <= 2^j]. *)
Definition le_pow2 (x : spec_float) (j : Z) : Prop := nonneg_le x (2 ^ 52) (j - 52).
Definition mag_pow2 (x : spec_float) (j : Z) : Prop := mag_le x (2 ^ 52) (j - 52).

(** The zoom [2^60], about [1.15e18]. *)
Definition deep_zoom : float := 1152921504606846976%float.

(** The colour of every pixel that maps to the centre of the reference
    image. *)
Definition centre_colour : option (Z * Z * Z) :=
  colorize Reference.max_iter (iterate Reference.max_iter Reference.center).

(** The check of the reference run: the loop control of [main] stops
    after 5485 passes, and from pass 437 on the zoom is at least [2^60]. *)
Definition reference_zooms_ok : bool :=
  match zoom_sequence Reference.zoom_end Reference.zoom_fact (Z.to_nat 5485)
          Reference.zoom_start with
  | Some zs =>
      (Z.of_nat (length zs) =? 5485) && forallb (fun z => (deep_zoom <=? z)%float) (drop 437 zs)
  | None => false
  end.

(** The frames of [count] passes of the loop of [main] entered with
    [zoom] and [img_id = id]: pass [k] draws image [id + k] at the zoom
    multiplied [k] times, with the percentage
    [(id + k) * 100 / img_count]. *)
Definition frames_from (img_count : Z) (zoom zoom_fact : float) (id : Z) (count : nat)
  : list frame :=
  (fun k : nat =>
     mkFrame (id + Z.of_nat k) (zoom_at zoom zoom_fact k)
       (Z.quot ((id + Z.of_nat k) * 100) img_count)) <$> seq 0 count.

(** * Binary64 arithmetic: bounds preserved by rounding

    The operations of [double] are specified by the Standard Library
    ([SFdiv], [SFmul], ... on [spec_float], to which the primitive
    operations are related by [div_spec], [mul_spec], ...).  This module
    shows that rounding to nearest never crosses a representable bound,
    for quotients and products of positive numbers. *)

Module Binary64.

Lemma fexp_eq (e : Z) : fexp prec emax e = Z.max (e - 53) (-1074).
Proof. reflexivity. Qed.

Lemma fexp_mono (a b : Z) : a <= b -> fexp prec emax a <= fexp prec emax b.
Proof. rewrite !fexp_eq. lia. Qed.

(** [digits2_pos] counts the binary digits. *)
Lemma digits2_pos_bounds (p : positive) :
  2 ^ (Zpos (digits2_pos p) - 1) <= Zpos p < 2 ^ Zpos (digits2_pos p).
Proof.
  induction p as [p IH|p IH|]; simpl digits2_pos.
  - rewrite Pos2Z.inj_succ.
    replace (Z.succ (Zpos (digits2_pos p)) - 1) with (Z.succ (Zpos (digits2_pos p) - 1)) by lia.
    rewrite !Z.pow_succ_r by lia. lia.
  - rewrite Pos2Z.inj_succ.
    replace (Z.succ (Zpos (digits2_pos p)) - 1) with (Z.succ (Zpos (digits2_pos p) - 1)) by lia.
    rewrite !Z.pow_succ_r by lia. lia.
  - simpl. lia.
Qed.

Lemma Zdigits2_bounds (m : Z) :
  0 < m -> 2 ^ (Zdigits2 m - 1) <= m < 2 ^ Zdigits2 m.
Proof. destruct m as [|p|p]; try lia. intros _. apply digits2_pos_bounds. Qed.

Lemma Zdigits2_nonneg (m : Z) : 0 <= Zdigits2 m.
Proof. destruct m; simpl; lia. Qed.

Lemma Zdigits2_pos (m : Z) : 0 < m -> 0 < Zdigits2 m.
Proof. destruct m; simpl; lia. Qed.

(** The number of digits is determined by the binade. *)
Lemma Zdigits2_unique (m d : Z) :
  0 < m -> 2 ^ (d - 1) <= m < 2 ^ d -> 0 < d -> Zdigits2 m = d.
Proof.
  intros Hm [Hlo Hhi] Hd.
  destruct (Zdigits2_bounds m Hm) as [Hlo' Hhi'].
  pose proof (Zdigits2_pos m Hm) as Hd'.
  destruct (Z.lt_trichotomy (Zdigits2 m) d) as [Hlt|[Heq|Hgt]]; [|exact Heq|].
  - assert (2 ^ Zdigits2 m <= 2 ^ (d - 1)) by (apply Z.pow_le_mono_r; lia). lia.
  - assert (2 ^ d <= 2 ^ (Zdigits2 m - 1)) by (apply Z.pow_le_mono_r; lia). lia.
Qed.

Lemma Zdigits2_le (m1 m2 : Z) : 0 < m1 -> m1 <= m2 -> Zdigits2 m1 <= Zdigits2 m2.
Proof.
  intros H1 H12.
  destruct (Zdigits2_bounds m1 H1) as [Hlo _].
  destruct (Zdigits2_bounds m2 ltac:(lia)) as [_ Hhi].
  destruct (Z_lt_le_dec (Zdigits2 m2) (Zdigits2 m1)) as [Hlt|]; [|assumption].
  assert (2 ^ Zdigits2 m2 <= 2 ^ (Zdigits2 m1 - 1)).
  { apply Z.pow_le_mono_r; [lia|]. lia. }
  lia.
Qed.

Lemma Zdigits2_mul_pow (m k : Z) :
  0 < m -> 0 <= k -> Zdigits2 (m * 2 ^ k) = Zdigits2 m + k.
Proof.
  intros Hm Hk. destruct (Zdigits2_bounds m Hm) as [Hlo Hhi].
  pose proof (Zdigits2_pos m Hm).
  assert (0 < 2 ^ k) by (apply Z.pow_pos_nonneg; lia).
  apply Zdigits2_unique; try nia.
  replace (Zdigits2 m + k - 1) with ((Zdigits2 m - 1) + k) by lia.
  rewrite !Z.pow_add_r by lia. nia.
Qed.

Lemma Zdigits2_div_pow (m k : Z) :
  0 < m -> 0 <= k -> k < Zdigits2 m -> Zdigits2 (m / 2 ^ k) = Zdigits2 m - k.
Proof.
  intros Hm Hk Hkd. destruct (Zdigits2_bounds m Hm) as [Hlo Hhi].
  assert (Hp : 0 < 2 ^ k) by (apply Z.pow_pos_nonneg; lia).
  assert (Hlo' : 2 ^ (Zdigits2 m - k - 1) <= m / 2 ^ k).
  { apply Z.div_le_lower_bound; [lia|].
    rewrite <- Z.pow_add_r by lia.
    replace (k + (Zdigits2 m - k - 1)) with (Zdigits2 m - 1) by lia. lia. }
  assert (Hhi' : m / 2 ^ k < 2 ^ (Zdigits2 m - k)).
  { apply Z.div_lt_upper_bound; [lia|].
    rewrite <- Z.pow_add_r by lia.
    replace (k + (Zdigits2 m - k)) with (Zdigits2 m) by lia. lia. }
  assert (0 < 2 ^ (Zdigits2 m - k - 1)) by (apply Z.pow_pos_nonneg; lia).
  apply Zdigits2_unique; try lia.
Qed.

(** ** Right shifts with sticky bits *)

Lemma loc_of_shr_record_of_loc (m : Z) (l : location) :
  loc_of_shr_record (shr_record_of_loc m l) = l /\
  shr_m (shr_record_of_loc m l) = m.
Proof. destruct l as [|[]]; split; reflexivity. Qed.

Lemma shr_1_spec (mrs : shr_record) :
  0 <= shr_m mrs ->
  shr_m (shr_1 mrs) = shr_m mrs / 2 /\
  (loc_of_shr_record (shr_1 mrs) = loc_Exact <->
   loc_of_shr_record mrs = loc_Exact /\ shr_m mrs mod 2 = 0).
Proof.
  destruct mrs as [m r s]. cbn [shr_m]. intros Hm.
  destruct m as [|[p|p|]|p]; try lia; destruct r, s;
    cbn [shr_1 shr_m loc_of_shr_record orb];
    (split; [Z.div_mod_to_equations; lia|]);
    (split;
     [intros H; first [discriminate H|split; [reflexivity|Z.div_mod_to_equations; lia]]
     |intros [H1 H2];
      first [discriminate H1|reflexivity
            |exfalso; revert H2; Z.div_mod_to_equations; lia]]).
Qed.

Lemma mod_mul_zero (m a b : Z) :
  0 <= m -> 0 < a -> 0 < b ->
  (m mod (a * b) = 0 <-> m mod a = 0 /\ (m / a) mod b = 0).
Proof.
  intros Hm Ha Hb. rewrite Z.rem_mul_r by lia.
  pose proof (Z.mod_pos_bound m a Ha).
  pose proof (Z.mod_pos_bound (m / a) b Hb). nia.
Qed.

Lemma iter_shr_1_spec (p : positive) (mrs : shr_record) :
  0 <= shr_m mrs ->
  shr_m (SpecFloat.iter_pos shr_1 p mrs) = shr_m mrs / 2 ^ Zpos p /\
  (loc_of_shr_record (SpecFloat.iter_pos shr_1 p mrs) = loc_Exact <->
   loc_of_shr_record mrs = loc_Exact /\ shr_m mrs mod 2 ^ Zpos p = 0).
Proof.
  revert mrs. induction p as [p IH|p IH|]; intros mrs Hm; cbn [SpecFloat.iter_pos].
  - destruct (shr_1_spec mrs Hm) as [H1m H1l].
    assert (H1 : 0 <= shr_m (shr_1 mrs)) by (rewrite H1m; apply Z.div_pos; lia).
    destruct (IH _ H1) as [H2m H2l].
    assert (Hp : 0 < 2 ^ Zpos p) by (apply Z.pow_pos_nonneg; lia).
    assert (H2 : 0 <= shr_m (SpecFloat.iter_pos shr_1 p (shr_1 mrs)))
      by (rewrite H2m; apply Z.div_pos; lia).
    destruct (IH _ H2) as [H3m H3l].
    replace (2 ^ Zpos p~1) with (2 * (2 ^ Zpos p * 2 ^ Zpos p))
      by (rewrite (Pos2Z.inj_xI p), Z.pow_add_r, Z.pow_twice_r by lia; change (2 ^ 1) with 2; ring).
    split.
    + rewrite H3m, H2m, H1m, !Z.div_div by lia. reflexivity.
    + rewrite H3l, H2l, H1l, H2m, H1m.
      rewrite (mod_mul_zero (shr_m mrs) 2 _) by lia.
      rewrite (mod_mul_zero (shr_m mrs / 2) _ _) by (try apply Z.div_pos; lia).
      tauto.
  - destruct (IH _ Hm) as [H2m H2l].
    assert (Hp : 0 < 2 ^ Zpos p) by (apply Z.pow_pos_nonneg; lia).
    assert (H2 : 0 <= shr_m (SpecFloat.iter_pos shr_1 p mrs))
      by (rewrite H2m; apply Z.div_pos; lia).
    destruct (IH _ H2) as [H3m H3l].
    replace (2 ^ Zpos p~0) with (2 ^ Zpos p * 2 ^ Zpos p)
      by (rewrite (Pos2Z.inj_xO p), Z.pow_twice_r by lia; reflexivity).
    split.
    + rewrite H3m, H2m, !Z.div_div by lia. reflexivity.
    + rewrite H3l, H2l, H2m.
      rewrite (mod_mul_zero (shr_m mrs) _ _) by lia. tauto.
  - apply shr_1_spec. exact Hm.
Qed.

(** [shr_fexp] divides by the power of two that brings the mantissa to
    its canonical exponent and records whether anything was lost. *)
Lemma shr_fexp_spec (mx ex : Z) (lx : location) :
  0 <= mx ->
  let n := Z.max 0 (fexp prec emax (Zdigits2 mx + ex) - ex) in
  snd (shr_fexp prec emax mx ex lx) = ex + n /\
  shr_m (fst (shr_fexp prec emax mx ex lx)) = mx / 2 ^ n /\
  (loc_of_shr_record (fst (shr_fexp prec emax mx ex lx)) = loc_Exact <->
   lx = loc_Exact /\ mx mod 2 ^ n = 0).
Proof.
  intros Hmx n. unfold shr_fexp, shr.
  destruct (loc_of_shr_record_of_loc mx lx) as [Hl Hm].
  destruct (fexp prec emax (Zdigits2 mx + ex) - ex) as [|p|p] eqn:Hn; subst n;
    simpl fst; simpl snd.
  - rewrite Hl, Hm. simpl. rewrite Z.div_1_r, Z.mod_1_r. split; [lia|]. split; [reflexivity|tauto].
  - rewrite Z.max_r by lia.
    destruct (iter_shr_1_spec p (shr_record_of_loc mx lx)) as [H1 H2];
      [rewrite Hm; exact Hmx|].
    rewrite Hl, Hm in *. split; [reflexivity|]. split; assumption.
  - rewrite Hl, Hm. rewrite Z.max_l by lia. simpl.
    rewrite Z.div_1_r, Z.mod_1_r. split; [lia|]. split; [reflexivity|tauto].
Qed.

Lemma round_nearest_even_bounds (m : Z) (l : location) :
  m <= round_nearest_even m l <= m + 1 /\
  (l = loc_Exact -> round_nearest_even m l = m).
Proof.
  destruct l as [|[]]; simpl; try (split; [lia|]; intros; reflexivity || discriminate).
  destruct (Z.even m); split; try lia; discriminate.
Qed.

Lemma pow2_pos (k : Z) : 0 <= k -> 0 < 2 ^ k.
Proof. intros. apply Z.pow_pos_nonneg; lia. Qed.

Lemma pow2_split (a b c : Z) :
  a <= b -> b <= c -> 2 ^ (c - a) = 2 ^ (c - b) * 2 ^ (b - a).
Proof. intros. rewrite <- Z.pow_add_r by lia. f_equal. lia. Qed.

Lemma binary_round_aux_unfold (s : bool) (mx ex : Z) (lx : location) :
  binary_round_aux prec emax s mx ex lx =
  let st1 := shr_fexp prec emax mx ex lx in
  let m1 := round_nearest_even (shr_m (fst st1)) (loc_of_shr_record (fst st1)) in
  let st2 := shr_fexp prec emax m1 (snd st1) loc_Exact in
  match shr_m (fst st2) with
  | Z0 => S754_zero s
  | Zpos m =>
      if snd st2 <=? emax - prec then S754_finite s m (snd st2)
      else S754_infinity s
  | Zneg _ => S754_nan
  end.
Proof.
  unfold binary_round_aux.
  destruct (shr_fexp prec emax mx ex lx) as [mrs1 e1]. cbn [fst snd].
  destruct (shr_fexp prec emax _ e1 loc_Exact) as [mrs2 e2]. reflexivity.
Qed.

(** Canonical exponents are ordered like the values. *)
Lemma canonical_exponent_le (m1 e1 m2 e2 : Z) :
  0 < m1 -> e1 <= e2 -> m1 <= m2 * 2 ^ (e2 - e1) -> 0 < m2 ->
  Zdigits2 m1 + e1 <= Zdigits2 m2 + e2.
Proof.
  intros H1 He H12 H2.
  pose proof (Zdigits2_le m1 (m2 * 2 ^ (e2 - e1)) H1 H12) as H.
  rewrite Zdigits2_mul_pow in H by lia. lia.
Qed.

(** Rounding a value that does not exceed a representable bound cannot
    exceed the bound. *)
Lemma binary_round_aux_upper (mx ex : Z) (lx : location) (mb eb : Z) :
  0 <= mx ->
  ex <= fexp prec emax (Zdigits2 mx + ex) ->
  0 < mb -> fexp prec emax (Zdigits2 mb + eb) = eb -> eb <= 971 ->
  ex <= eb ->
  mx + (match lx with loc_Exact => 0 | loc_Inexact _ => 1 end) <= mb * 2 ^ (eb - ex) ->
  match binary_round_aux prec emax false mx ex lx with
  | S754_zero s => s = false
  | S754_finite s m e => s = false /\ e <= eb /\ Zpos m <= mb * 2 ^ (eb - e)
  | S754_infinity _ | S754_nan => False
  end.
Proof.
  intros Hmx Hprec Hmb Hcan Hebmax Hexeb Hle.
  rewrite binary_round_aux_unfold. cbv zeta.
  destruct (shr_fexp_spec mx ex lx Hmx) as (He1 & Hq1 & Hl1).
  rewrite Z.max_r in He1, Hq1, Hl1 by lia.
  set (st1 := shr_fexp prec emax mx ex lx) in *.
  set (e1 := snd st1) in *. set (q1 := shr_m (fst st1)) in *.
  set (l1 := loc_of_shr_record (fst st1)) in *.
  set (n1 := fexp prec emax (Zdigits2 mx + ex) - ex) in *.
  assert (Hn1 : 0 <= n1) by (unfold n1; lia).
  (* the canonical exponent of the input does not exceed that of the bound *)
  assert (HA : e1 <= eb).
  { destruct (Z.eq_dec mx 0) as [->|Hnz].
    - unfold n1 in *. simpl Zdigits2 in *. rewrite fexp_eq in *. lia.
    - pose proof (canonical_exponent_le mx ex mb eb ltac:(lia) Hexeb ltac:(destruct lx; lia) Hmb).
      pose proof (fexp_mono _ _ H). unfold n1 in He1. lia. }
  pose proof (pow2_pos n1 Hn1) as HP.
  pose proof (pow2_pos (eb - e1) ltac:(lia)) as HT.
  assert (Hsplit : 2 ^ (eb - ex) = 2 ^ (eb - e1) * 2 ^ n1).
  { rewrite (pow2_split ex e1 eb) by lia. do 2 f_equal. lia. }
  rewrite Hsplit in Hle.
  destruct (round_nearest_even_bounds q1 l1) as [Hm1 Hm1e].
  set (m1 := round_nearest_even q1 l1) in *.
  assert (Hq1nn : 0 <= q1) by (rewrite Hq1; apply Z.div_pos; lia).
  assert (HB : m1 <= mb * 2 ^ (eb - e1)).
  { pose proof (Z.div_mod mx (2 ^ n1) ltac:(lia)) as Hdm.
    pose proof (Z.mod_pos_bound mx (2 ^ n1) HP) as Hmod.
    rewrite <- Hq1 in Hdm.
    destruct l1 eqn:El1.
    - rewrite (Hm1e eq_refl). destruct lx; nia.
    - assert (Hne : ~ (lx = loc_Exact /\ mx mod 2 ^ n1 = 0)).
      { intros Hc. apply Hl1 in Hc. discriminate Hc. }
      assert (q1 < mb * 2 ^ (eb - e1)).
      { destruct lx; [|nia].
        assert (mx mod 2 ^ n1 <> 0) by tauto. nia. }
      lia. }
  assert (Hm1nn : 0 <= m1) by lia.
  destruct (shr_fexp_spec m1 e1 loc_Exact Hm1nn) as (He2 & Hq2 & _).
  set (st2 := shr_fexp prec emax m1 e1 loc_Exact) in *.
  set (n2 := Z.max 0 (fexp prec emax (Zdigits2 m1 + e1) - e1)) in *.
  assert (Hn2 : 0 <= n2) by (unfold n2; lia).
  pose proof (pow2_pos n2 Hn2) as HP2.
  assert (Hm2nn : 0 <= shr_m (fst st2)) by (rewrite Hq2; apply Z.div_pos; lia).
  destruct (shr_m (fst st2)) as [|m2|m2] eqn:Em2; [reflexivity| |lia].
  assert (Hm1pos : 0 < m1).
  { destruct (Z.eq_dec m1 0) as [Hz|]; [|lia].
    rewrite Hz, Z.div_0_l in Hq2 by lia. discriminate Hq2. }
  assert (HC : snd st2 <= eb).
  { rewrite He2. unfold n2.
    pose proof (canonical_exponent_le m1 e1 mb eb Hm1pos HA HB Hmb) as H.
    pose proof (fexp_mono _ _ H). lia. }
  assert (HD : Zpos m2 <= mb * 2 ^ (eb - snd st2)).
  { rewrite Hq2. apply Z.div_le_upper_bound; [lia|].
    rewrite (pow2_split e1 (snd st2) eb) in HB by lia.
    replace (snd st2 - e1) with n2 in HB by lia. lia. }
  replace (snd st2 <=? emax - prec) with true
    by (symmetry; apply Z.leb_le; change (emax - prec) with 971; lia).
  repeat split; assumption.
Qed.

(** Rounding a value that is not below a representable bound cannot
    fall below the bound. *)
Lemma binary_round_aux_lower (mx ex : Z) (lx : location) (mb eb : Z) :
  0 < mx ->
  ex <= fexp prec emax (Zdigits2 mx + ex) ->
  0 < mb -> fexp prec emax (Zdigits2 mb + eb) = eb ->
  ex <= eb ->
  mb * 2 ^ (eb - ex) <= mx ->
  match binary_round_aux prec emax false mx ex lx with
  | S754_infinity s => s = false
  | S754_finite s m e => s = false /\ eb <= e /\ mb <= Zpos m * 2 ^ (e - eb)
  | S754_zero _ | S754_nan => False
  end.
Proof.
  intros Hmx Hprec Hmb Hcan Hexeb Hle.
  rewrite binary_round_aux_unfold. cbv zeta.
  destruct (shr_fexp_spec mx ex lx ltac:(lia)) as (He1 & Hq1 & _).
  rewrite Z.max_r in He1, Hq1 by lia.
  set (st1 := shr_fexp prec emax mx ex lx) in *.
  set (e1 := snd st1) in *. set (q1 := shr_m (fst st1)) in *.
  set (l1 := loc_of_shr_record (fst st1)) in *.
  set (d := Zdigits2 mx) in *. set (db := Zdigits2 mb) in *.
  set (n1 := fexp prec emax (d + ex) - ex) in *.
  assert (Hn1 : 0 <= n1) by (unfold n1; lia).
  destruct (Zdigits2_bounds mx Hmx) as [Hdlo Hdhi]. fold d in Hdlo, Hdhi.
  destruct (Zdigits2_bounds mb Hmb) as [Hblo Hbhi]. fold db in Hblo, Hbhi.
  pose proof (Zdigits2_pos mx Hmx) as Hdpos. fold d in Hdpos.
  pose proof (Zdigits2_pos mb Hmb) as Hdbpos. fold db in Hdbpos.
  pose proof (pow2_pos (eb - ex) ltac:(lia)) as HPb.
  assert (Hdig : db + eb <= d + ex).
  { pose proof (Zdigits2_le (mb * 2 ^ (eb - ex)) mx ltac:(nia) Hle) as H.
    rewrite Zdigits2_mul_pow in H by lia. fold d db in H. lia. }
  assert (HA : eb <= e1).
  { pose proof (fexp_mono _ _ Hdig). unfold n1 in He1. lia. }
  pose proof (pow2_pos n1 Hn1) as HP.
  assert (Hq1lt : q1 < 2 ^ 53).
  { rewrite Hq1. apply Z.div_lt_upper_bound; [lia|].
    rewrite <- Z.pow_add_r by lia.
    assert (2 ^ d <= 2 ^ (n1 + 53)).
    { apply Z.pow_le_mono_r; [lia|]. unfold n1. rewrite fexp_eq. lia. }
    lia. }
  assert (HB : mb <= q1 * 2 ^ (e1 - eb)).
  { destruct (Z.eq_dec e1 eb) as [Heq|Hne].
    - rewrite Heq, Z.sub_diag, Z.mul_1_r. rewrite Hq1.
      apply Z.div_le_lower_bound; [lia|].
      replace n1 with (eb - ex) by lia. lia.
    - assert (Hlt : eb < e1) by lia.
      assert (Hdig' : db + eb < d + ex).
      { destruct (Z_lt_le_dec (db + eb) (d + ex)) as [|Hge]; [assumption|].
        pose proof (fexp_mono _ _ Hge). unfold n1 in He1. lia. }
      assert (Hn1d : n1 = d - 53).
      { unfold n1 in *. rewrite fexp_eq in *. lia. }
      assert (Hq1lo : 2 ^ 52 <= q1).
      { rewrite Hq1. apply Z.div_le_lower_bound; [lia|].
        rewrite <- Z.pow_add_r by lia.
        replace (n1 + 52) with (d - 1) by lia. exact Hdlo. }
      pose proof (pow2_pos (e1 - eb) ltac:(lia)) as HPe.
      assert (2 ^ db <= 2 ^ 52 * 2 ^ (e1 - eb)).
      { rewrite <- Z.pow_add_r by lia. apply Z.pow_le_mono_r; lia. }
      nia. }
  destruct (round_nearest_even_bounds q1 l1) as [Hm1 _].
  set (m1 := round_nearest_even q1 l1) in *.
  pose proof (pow2_pos (e1 - eb) ltac:(lia)) as HPe.
  assert (Hq1pos : 0 < q1) by nia.
  assert (Hm1pos : 0 < m1) by lia.
  assert (HB1 : mb <= m1 * 2 ^ (e1 - eb)) by nia.
  destruct (shr_fexp_spec m1 e1 loc_Exact ltac:(lia)) as (He2 & Hq2 & _).
  set (st2 := shr_fexp prec emax m1 e1 loc_Exact) in *.
  set (n2 := Z.max 0 (fexp prec emax (Zdigits2 m1 + e1) - e1)) in *.
  assert (He1min : -1074 <= e1).
  { unfold n1 in He1. rewrite fexp_eq in He1. lia. }
  assert (Hcase : n2 = 0 \/ (n2 = 1 /\ m1 = 2 ^ 53)).
  { destruct (Z_lt_le_dec m1 (2 ^ 53)) as [Hlt|Hge].
    - left. unfold n2. rewrite fexp_eq.
      assert (Zdigits2 m1 <= 53).
      { destruct (Z_lt_le_dec 53 (Zdigits2 m1)) as [Hc|]; [|lia].
        destruct (Zdigits2_bounds m1 Hm1pos) as [Hlo _].
        assert (2 ^ 53 <= 2 ^ (Zdigits2 m1 - 1)) by (apply Z.pow_le_mono_r; lia).
        lia. }
      lia.
    - right. assert (Hm1eq : m1 = 2 ^ 53) by lia. split; [|exact Hm1eq].
      unfold n2. rewrite Hm1eq.
      replace (Zdigits2 (2 ^ 53)) with 54 by reflexivity.
      rewrite fexp_eq. lia. }
  assert (HD : shr_m (fst st2) * 2 ^ n2 = m1).
  { rewrite Hq2. destruct Hcase as [->|[-> ->]].
    - rewrite Z.div_1_r. simpl. lia.
    - reflexivity. }
  assert (Hn2 : 0 <= n2) by (unfold n2; lia).
  pose proof (pow2_pos n2 Hn2) as HP2.
  destruct (shr_m (fst st2)) as [|m2|m2] eqn:Em2; [lia| |lia].
  assert (HE : mb <= Zpos m2 * 2 ^ (snd st2 - eb)).
  { rewrite (pow2_split eb e1 (snd st2)) by lia.
    replace (snd st2 - e1) with n2 by lia. nia. }
  destruct (snd st2 <=? emax - prec); [|reflexivity].
  repeat split; [lia|exact HE].
Qed.

(** ** Division *)

Lemma new_location_exact (n r : Z) : new_location n r = loc_Exact <-> r = 0.
Proof.
  unfold new_location, new_location_even, new_location_odd.
  destruct (Z.even n); destruct (Z.eqb_spec r 0) as [->|Hr];
    split; intros H; try reflexivity; try discriminate H; try contradiction;
    reflexivity.
Qed.

Lemma SFdiv_core_binary_spec (m1 : positive) (e1 : Z) (m2 : positive) (e2 : Z) :
  let e' := Z.min (fexp prec emax (Zpos (digits2_pos m1) + e1
                                   - (Zpos (digits2_pos m2) + e2))) (e1 - e2) in
  let m' := Zpos m1 * 2 ^ (e1 - e2 - e') in
  SFdiv_core_binary prec emax (Zpos m1) e1 (Zpos m2) e2
  = (m' / Zpos m2, e', new_location (Zpos m2) (m' mod Zpos m2)).
Proof.
  intros e' m'. unfold SFdiv_core_binary. cbn [Zdigits2]. fold e'.
  assert (Hs : 0 <= e1 - e2 - e') by (unfold e'; lia).
  assert (Hm' : match e1 - e2 - e' with
                | Zpos _ => Z.shiftl (Zpos m1) (e1 - e2 - e')
                | Z0 => Zpos m1
                | Zneg _ => 0
                end = m').
  { unfold m'. destruct (e1 - e2 - e') as [|s|s] eqn:Es; [|..].
    - rewrite Z.pow_0_r. lia.
    - apply Z.shiftl_mul_pow2. lia.
    - lia. }
  rewrite Hm'. unfold Z.div, Z.modulo.
  destruct (Z.div_eucl m' (Zpos m2)) as [q r]. reflexivity.
Qed.

Section Div.
Variables m1 m2 : positive.
Variables e1 e2 : Z.

Let e' := Z.min (fexp prec emax (Zpos (digits2_pos m1) + e1
                                 - (Zpos (digits2_pos m2) + e2))) (e1 - e2).
Let m' := Zpos m1 * 2 ^ (e1 - e2 - e').

(** The quotient mantissa carries enough digits to be rounded. *)
Lemma SFdiv_precision :
  0 <= m' / Zpos m2 /\
  e' <= fexp prec emax (Zdigits2 (m' / Zpos m2) + e').
Proof.
  assert (Hs : 0 <= e1 - e2 - e') by (unfold e'; lia).
  pose proof (pow2_pos _ Hs) as HP.
  assert (Hm'pos : 0 < m') by (unfold m'; nia).
  assert (Hq : 0 <= m' / Zpos m2) by (apply Z.div_pos; lia).
  split; [exact Hq|].
  destruct (Z_le_gt_dec e' (-1074)) as [Hsub|Hnorm].
  - rewrite fexp_eq. lia.
  - destruct (digits2_pos_bounds m1) as [Hlo1 Hhi1].
    destruct (digits2_pos_bounds m2) as [Hlo2 Hhi2].
    set (d1 := Zpos (digits2_pos m1)) in *.
    set (d2 := Zpos (digits2_pos m2)) in *.
    assert (He' : e' <= d1 + e1 - (d2 + e2) - 53).
    { subst e'. rewrite fexp_eq in *. lia. }
    assert (Hq52 : 2 ^ 52 <= m' / Zpos m2).
    { apply Z.div_le_lower_bound; [lia|].
      assert (H1 : 2 ^ (d2 + 52) <= 2 ^ (d1 - 1) * 2 ^ (e1 - e2 - e')).
      { rewrite <- Z.pow_add_r by lia. apply Z.pow_le_mono_r; lia. }
      assert (H2 : 2 ^ (d2 + 52) = 2 ^ d2 * 2 ^ 52)
        by (rewrite Z.pow_add_r by lia; reflexivity).
      unfold m'. nia. }
    assert (Hd : 53 <= Zdigits2 (m' / Zpos m2)).
    { destruct (Z_lt_le_dec (Zdigits2 (m' / Zpos m2)) 53) as [Hc|]; [|assumption].
      destruct (Zdigits2_bounds (m' / Zpos m2) ltac:(lia)) as [_ Hhi].
      assert (2 ^ Zdigits2 (m' / Zpos m2) <= 2 ^ 52).
      { apply Z.pow_le_mono_r; lia. }
      lia. }
    rewrite fexp_eq. lia.
Qed.

(** If [x <= b * y] exactly, then the rounded quotient [x / y] does
    not exceed the binary64 number [b]. *)
Lemma SFdiv_upper (mb eb : Z) :
  0 < mb -> fexp prec emax (Zdigits2 mb + eb) = eb -> eb <= 971 ->
  e' <= eb ->
  m' <= mb * 2 ^ (eb - e') * Zpos m2 ->
  match SFdiv prec emax (S754_finite false m1 e1) (S754_finite false m2 e2) with
  | S754_zero s => s = false
  | S754_finite s m e => s = false /\ e <= eb /\ Zpos m <= mb * 2 ^ (eb - e)
  | S754_infinity _ | S754_nan => False
  end.
Proof.
  intros Hmb Hcan Hmax Hgrid Hle.
  unfold SFdiv. rewrite SFdiv_core_binary_spec. fold e'. fold m'.
  cbn [xorb].
  destruct SFdiv_precision as [Hq Hprec].
  apply binary_round_aux_upper; try assumption.
  pose proof (Z.div_mod m' (Zpos m2) ltac:(lia)) as Hdm.
  pose proof (Z.mod_pos_bound m' (Zpos m2) ltac:(lia)) as Hmod.
  pose proof (pow2_pos (eb - e') ltac:(lia)) as HT.
  destruct (new_location (Zpos m2) (m' mod Zpos m2)) eqn:El.
  - nia.
  - assert (m' mod Zpos m2 <> 0).
    { intros Hc. pose proof (proj2 (new_location_exact (Zpos m2) _) Hc). congruence. }
    nia.
Qed.

(** If [b * y <= x] exactly, then the rounded quotient [x / y] is not
    below the binary64 number [b]. *)
Lemma SFdiv_lower (mb eb : Z) :
  0 < mb -> fexp prec emax (Zdigits2 mb + eb) = eb ->
  e' <= eb ->
  mb * 2 ^ (eb - e') * Zpos m2 <= m' ->
  match SFdiv prec emax (S754_finite false m1 e1) (S754_finite false m2 e2) with
  | S754_infinity s => s = false
  | S754_finite s m e => s = false /\ eb <= e /\ mb <= Zpos m * 2 ^ (e - eb)
  | S754_zero _ | S754_nan => False
  end.
Proof.
  intros Hmb Hcan Hgrid Hle.
  unfold SFdiv. rewrite SFdiv_core_binary_spec. fold e'. fold m'.
  cbn [xorb].
  destruct SFdiv_precision as [Hq Hprec].
  pose proof (pow2_pos (eb - e') ltac:(lia)) as HT.
  assert (Hge : mb * 2 ^ (eb - e') <= m' / Zpos m2).
  { apply Z.div_le_lower_bound; lia. }
  apply binary_round_aux_lower; try assumption. nia.
Qed.
End Div.

(** ** Multiplication *)

(** If [x * y <= b] exactly, with [y] a normal number, then the rounded
    product does not exceed the binary64 number [b]. *)
Lemma SFmul_upper (m1 : positive) (e1 : Z) (m2 : positive) (e2 : Z) (mb eb : Z) :
  2 ^ 52 <= Zpos m2 ->
  0 < mb -> fexp prec emax (Zdigits2 mb + eb) = eb -> eb <= 971 ->
  e1 + e2 <= eb ->
  Zpos m1 * Zpos m2 <= mb * 2 ^ (eb - (e1 + e2)) ->
  match SFmul prec emax (S754_finite false m1 e1) (S754_finite false m2 e2) with
  | S754_zero s => s = false
  | S754_finite s m e => s = false /\ e <= eb /\ Zpos m <= mb * 2 ^ (eb - e)
  | S754_infinity _ | S754_nan => False
  end.
Proof.
  intros Hnorm Hmb Hcan Hmax Hgrid Hle.
  unfold SFmul. cbn [xorb]. rewrite Pos2Z.inj_mul.
  apply binary_round_aux_upper; try assumption; try lia.
  assert (Hd : 53 <= Zdigits2 (Zpos m1 * Zpos m2)).
  { destruct (Z_lt_le_dec (Zdigits2 (Zpos m1 * Zpos m2)) 53) as [Hc|]; [|assumption].
    destruct (Zdigits2_bounds (Zpos m1 * Zpos m2) ltac:(lia)) as [_ Hhi].
    assert (2 ^ Zdigits2 (Zpos m1 * Zpos m2) <= 2 ^ 52).
    { apply Z.pow_le_mono_r; lia. }
    nia. }
  rewrite fexp_eq. lia.
Qed.

(** ** Exact conversions *)

Lemma binary_round_aux_canonical (s : bool) (m : positive) (e : Z) :
  fexp prec emax (Zpos (digits2_pos m) + e) = e -> e <= 971 ->
  binary_round_aux prec emax s (Zpos m) e loc_Exact = S754_finite s m e.
Proof.
  intros Hcan Hmax. rewrite binary_round_aux_unfold. cbv zeta.
  destruct (shr_fexp_spec (Zpos m) e loc_Exact ltac:(lia)) as (He1 & Hq1 & Hl1).
  cbn [Zdigits2] in He1, Hq1, Hl1. rewrite Hcan, Z.sub_diag in He1, Hq1, Hl1.
  cbn [Z.max Z.compare] in He1, Hq1, Hl1.
  rewrite Z.pow_0_r, Z.div_1_r in Hq1. rewrite Z.add_0_r in He1.
  rewrite Z.pow_0_r, Z.mod_1_r in Hl1.
  rewrite (proj2 Hl1 (conj eq_refl eq_refl)), Hq1, He1.
  cbn [round_nearest_even]. rewrite Hq1, He1.
  replace (e <=? emax - prec) with true; [reflexivity|].
  symmetry. apply Z.leb_le. change (emax - prec) with 971. lia.
Qed.

Lemma shl_align_spec (m : positive) (e e' : Z) :
  e' <= e ->
  snd (shl_align m e e') = e' /\
  Zpos (fst (shl_align m e e')) = Zpos m * 2 ^ (e - e').
Proof.
  intros Hle. unfold shl_align.
  destruct (e' - e) as [|d|d] eqn:Ed; cbn [fst snd].
  - replace (e - e') with 0 by lia. split; lia.
  - lia.
  - change (Pos.iter xO m d) with (shift_pos d m).
    rewrite shift_pos_correct. change (Z.pow_pos 2 d) with (2 ^ Zpos d).
    replace (e - e') with (Zpos d) by lia. split; lia.
Qed.

Lemma binary_normalize_int (p : positive) :
  Zpos p < 2 ^ 53 ->
  exists m : positive,
    binary_normalize prec emax (Zpos p) 0 false
    = S754_finite false m (Zpos (digits2_pos p) - 53) /\
    Zpos m = Zpos p * 2 ^ (53 - Zpos (digits2_pos p)).
Proof.
  intros Hp. cbn [binary_normalize]. unfold binary_round.
  set (d := Zpos (digits2_pos p)).
  assert (Hd : 0 < d <= 53).
  { split; [unfold d; lia|].
    destruct (Z_lt_le_dec 53 d) as [Hc|]; [|lia].
    destruct (digits2_pos_bounds p) as [Hlo _]. fold d in Hlo.
    assert (2 ^ 53 <= 2 ^ (d - 1)) by (apply Z.pow_le_mono_r; lia). lia. }
  assert (Hf : fexp prec emax (d + 0) = d - 53) by (rewrite fexp_eq; lia).
  rewrite Hf.
  destruct (shl_align_spec p 0 (d - 53) ltac:(lia)) as [He Hm].
  destruct (shl_align p 0 (d - 53)) as [mz ez]. cbn [fst snd] in He, Hm. subst ez.
  replace (0 - (d - 53)) with (53 - d) in Hm by lia.
  exists mz. split; [|exact Hm].
  apply binary_round_aux_canonical; [|lia].
  change (Zpos (digits2_pos mz)) with (Zdigits2 (Zpos mz)).
  rewrite Hm, Zdigits2_mul_pow by lia. cbn [Zdigits2]. fold d.
  rewrite fexp_eq. lia.
Qed.

(** [(double) n] is exact on [0 .. 2^53 - 1]. *)
Lemma Prim2SF_double_of_int (n : Z) :
  0 < n < 2 ^ 53 ->
  exists m : positive,
    Prim2SF (C.double_of_int n) = S754_finite false m (Zdigits2 n - 53) /\
    Zpos m = n * 2 ^ (53 - Zdigits2 n).
Proof.
  intros Hn. unfold C.double_of_int.
  replace (n <? 0) with false by (symmetry; apply Z.ltb_ge; lia).
  rewrite of_uint63_spec, Uint63.of_Z_spec.
  rewrite Z.mod_small by (change Uint63.wB with (2 ^ 63); lia).
  destruct n as [|p|p]; try lia. apply binary_normalize_int. lia.
Qed.

Lemma Prim2SF_double_of_int_0 : Prim2SF (C.double_of_int 0) = S754_zero false.
Proof. reflexivity. Qed.

(** ** Truncation *)

Lemma SFtrunc_finite_upper (m : positive) (e : Z) (b : Z) :
  e <= 0 -> Zpos m <= b * 2 ^ (- e) ->
  exists n, C.SFtrunc (S754_finite false m e) = Some n /\ 0 <= n <= b.
Proof.
  intros He Hle. cbn [C.SFtrunc cond_Zopp].
  exists (Z.shiftl (Zpos m) e). split; [reflexivity|].
  rewrite <- (Z.opp_involutive e) at 1 2.
  rewrite Z.shiftl_opp_r, Z.shiftr_div_pow2 by lia.
  pose proof (pow2_pos (- e) ltac:(lia)) as HP.
  split; [apply Z.div_pos; lia|].
  apply Z.div_le_upper_bound; lia.
Qed.

End Binary64.

Import Binary64.

(** * The brightness argument of [plot_pixel] *)

Lemma Prim2SF_100 :
  Prim2SF (C.double_of_int 100) = S754_finite false 7036874417766400 (-46).
Proof. reflexivity. Qed.

(** The quotient [(max_iter - iterations) / (double)max_iter] lies in [0, 1]. *)
Lemma ratio_le_one (a M : Z) :
  0 <= a <= M -> 0 < M < 2 ^ 53 ->
  match Prim2SF (C.double_of_int a / C.double_of_int M)%float with
  | S754_zero s => s = false
  | S754_finite s m e => s = false /\ e <= -52 /\ Zpos m <= 2 ^ 52 * 2 ^ (-52 - e)
  | S754_infinity _ | S754_nan => False
  end.
Proof.
  intros Ha HM. rewrite div_spec. unfold SF64div.
  destruct (Prim2SF_double_of_int M HM) as (m2 & -> & Hm2).
  destruct (Z.eq_dec a 0) as [->|Hnz].
  - rewrite Prim2SF_double_of_int_0. reflexivity.
  - destruct (Prim2SF_double_of_int a ltac:(lia)) as (m1 & -> & Hm1).
    pose proof (Zdigits2_le a M ltac:(lia) ltac:(lia)) as Hd.
    pose proof (Zdigits2_pos a ltac:(lia)) as Hda.
    assert (HdM : Zdigits2 M <= 53).
    { destruct (Z_lt_le_dec 53 (Zdigits2 M)) as [Hc|]; [|lia].
      destruct (Zdigits2_bounds M ltac:(lia)) as [Hlo _].
      assert (2 ^ 53 <= 2 ^ (Zdigits2 M - 1)) by (apply Z.pow_le_mono_r; lia). lia. }
    set (da := Zdigits2 a) in *. set (dM := Zdigits2 M) in *.
    assert (Hd1 : Zpos (digits2_pos m1) = 53).
    { change (Zpos (digits2_pos m1)) with (Zdigits2 (Zpos m1)).
      rewrite Hm1, Zdigits2_mul_pow by lia. fold da. lia. }
    assert (Hd2 : Zpos (digits2_pos m2) = 53).
    { change (Zpos (digits2_pos m2)) with (Zdigits2 (Zpos m2)).
      rewrite Hm2, Zdigits2_mul_pow by lia. fold dM. lia. }
    assert (He' : Z.min (fexp prec emax (Zpos (digits2_pos m1) + (da - 53)
                                         - (Zpos (digits2_pos m2) + (dM - 53))))
                    (da - 53 - (dM - 53)) = da - dM - 53).
    { rewrite Hd1, Hd2, fexp_eq. lia. }
    apply SFdiv_upper; rewrite ?He'; try reflexivity; try lia.
    replace (da - 53 - (dM - 53) - (da - dM - 53)) with 53 by lia.
    replace (-52 - (da - dM - 53)) with (1 + (dM - da)) by lia.
    rewrite Hm1, Hm2.
    replace (53 - da) with ((53 - dM) + (dM - da)) by lia.
    rewrite !Z.pow_add_r by lia.
    pose proof (pow2_pos (53 - dM) ltac:(lia)).
    pose proof (pow2_pos (dM - da) ltac:(lia)).
    change (2 ^ 1) with 2. change (2 ^ 52 * 2) with (2 ^ 53) || idtac.
    assert (H53 : 0 < 2 ^ 53) by lia.
    nia.
Qed.

(** Multiplying a number of [0, 1] by 100 gives a number of [0, 100]. *)
Lemma percent_le_100 (x : float) :
  match Prim2SF x with
  | S754_zero s => s = false
  | S754_finite s m e => s = false /\ e <= -52 /\ Zpos m <= 2 ^ 52 * 2 ^ (-52 - e)
  | S754_infinity _ | S754_nan => False
  end ->
  exists v, C.int_of_double (x * C.double_of_int 100)%float = Some v /\ 0 <= v <= 100.
Proof.
  intros Hx. unfold C.int_of_double. rewrite mul_spec, Prim2SF_100. unfold SF64mul.
  assert (Hrange : forall n, 0 <= n <= 100 -> C.in_int_range n = true).
  { intros n Hn. unfold C.in_int_range, C.INT_MIN, C.INT_MAX.
    apply andb_true_intro. split; apply Z.leb_le; lia. }
  destruct (Prim2SF x) as [s|s| |s m e]; try contradiction.
  - subst s. cbn [SFmul xorb]. exists 0. split; [reflexivity|lia].
  - destruct Hx as (-> & He & Hm).
    pose proof (SFmul_upper m e 7036874417766400 (-46) 7036874417766400 (-46)
                  ltac:(lia) ltac:(lia) ltac:(reflexivity) ltac:(lia) ltac:(lia)) as H.
    assert (Hle : Zpos m * 7036874417766400
                  <= 7036874417766400 * 2 ^ (-46 - (e + -46))).
    { replace (-46 - (e + -46)) with (- e) by lia.
      replace (- e) with (52 + (-52 - e)) by lia.
      rewrite Z.pow_add_r by lia.
      pose proof (pow2_pos (-52 - e) ltac:(lia)). nia. }
    specialize (H Hle).
    destruct (SFmul prec emax (S754_finite false m e)
                (S754_finite false 7036874417766400 (-46))) as [s'|s'| |s' m' e'];
      try contradiction.
    + exists 0. split; [reflexivity|lia].
    + destruct H as (-> & He' & Hm').
      destruct (SFtrunc_finite_upper m' e' 100 ltac:(lia)) as (n & Hn & Hb).
      { replace (- e') with (46 + (-46 - e')) by lia.
        rewrite Z.pow_add_r by lia.
        pose proof (pow2_pos (-46 - e') ltac:(lia)).
        change 7036874417766400 with (100 * 2 ^ 46) in Hm'. lia. }
      exists n. rewrite Hn. cbn. rewrite (Hrange n Hb). split; [reflexivity|exact Hb].
Qed.

(** The brightness passed to [hsv_to_rgb] is an integer of [0, 100]. *)
Lemma brightness_range (max_iter iterations : Z) :
  0 < max_iter <= C.INT_MAX -> 0 <= iterations <= max_iter ->
  exists v, brightness max_iter iterations = Some v /\ 0 <= v <= 100.
Proof.
  intros HM Hn. unfold brightness. apply percent_le_100.
  apply ratio_le_one; [lia|]. unfold C.INT_MAX in HM. lia.
Qed.

(** * Conversions that fit a byte *)

Lemma shiftl_nonpos (m e : Z) : e <= 0 -> Z.shiftl m e = m / 2 ^ (- e).
Proof.
  intros He. rewrite <- (Z.opp_involutive e) at 1.
  rewrite Z.shiftl_opp_r. apply Z.shiftr_div_pow2. lia.
Qed.

Lemma compare_cont_Z (a b : positive) :
  Pos.compare_cont Eq a b = Z.compare (Zpos a) (Zpos b).
Proof. reflexivity. Qed.

Lemma valid_binary_digits (s : bool) (m : positive) (e : Z) :
  valid_binary (S754_finite s m e) = true -> Zpos m < 2 ^ 53.
Proof.
  cbn [SpecFloat.valid_binary]. unfold bounded, canonical_mantissa.
  intros H. apply andb_prop in H as [H _]. apply Z.eqb_eq in H.
  rewrite fexp_eq in H.
  destruct (digits2_pos_bounds m) as [_ Hhi].
  assert (2 ^ Zpos (digits2_pos m) <= 2 ^ 53) by (apply Z.pow_le_mono_r; lia).
  lia.
Qed.

(** A [double] strictly between -1 and 256 converts to an [int] of
    [0, 255]. *)
Lemma int_of_double_byte (f : float) :
  byte_float f = true ->
  exists n, C.int_of_double f = Some n /\ 0 <= n <= 255.
Proof.
  unfold byte_float. intros H. apply andb_prop in H as [Hlo Hhi].
  rewrite FloatAxioms.ltb_spec in Hlo, Hhi.
  change (Prim2SF (-1)) with (S754_finite true 4503599627370496 (-52)) in Hlo.
  change (Prim2SF 256) with (S754_finite false 4503599627370496 (-44)) in Hhi.
  pose proof (Prim2SF_valid f) as Hv.
  unfold C.int_of_double.
  assert (Hrange : forall n, 0 <= n <= 255 -> C.in_int_range n = true).
  { intros n Hn. unfold C.in_int_range, C.INT_MIN, C.INT_MAX.
    apply andb_true_intro. split; apply Z.leb_le; lia. }
  destruct (Prim2SF f) as [s|s| |s m e].
  - exists 0. split; [reflexivity|lia].
  - destruct s; discriminate.
  - discriminate.
  - pose proof (valid_binary_digits s m e Hv) as Hm.
    assert (Hq : e <= 0 /\ 0 <= Zpos m / 2 ^ (- e) <= 255 /\
                 (s = true -> Zpos m / 2 ^ (- e) = 0)).
    { clear Hv Hrange. unfold SFltb, SFcompare in Hlo, Hhi. destruct s.
      - clear Hhi.
        destruct (Z.compare_spec (-52) e) as [Heq|Hlt|Hgt]; try discriminate;
          [subst e|].
        + rewrite compare_cont_Z in Hlo.
          destruct (Z.compare_spec 4503599627370496 (Zpos m)); try discriminate.
          assert (Zpos m / 2 ^ (- -52) = 0) by (apply Z.div_small; lia).
          split; [lia|]. split; [lia|]. intros _. assumption.
        + assert (Hp : 2 ^ 53 <= 2 ^ (- e)) by (apply Z.pow_le_mono_r; lia).
          assert (Zpos m / 2 ^ (- e) = 0) by (apply Z.div_small; lia).
          split; [lia|]. split; [lia|]. intros _. assumption.
      - clear Hlo.
        destruct (Z.compare_spec e (-44)) as [Heq|Hlt|Hgt]; try discriminate;
          [subst e|].
        + rewrite compare_cont_Z in Hhi.
          destruct (Z.compare_spec (Zpos m) 4503599627370496); try discriminate.
          split; [lia|]. split; [|discriminate].
          split; [apply Z.div_pos; lia|].
          assert (Zpos m / 2 ^ (- -44) < 256)
            by (apply Z.div_lt_upper_bound; lia).
          lia.
        + split; [lia|]. split; [|discriminate].
          pose proof (pow2_pos (- e) ltac:(lia)) as HP.
          split; [apply Z.div_pos; lia|].
          assert (Hp : 2 ^ 45 <= 2 ^ (- e)) by (apply Z.pow_le_mono_r; lia).
          assert (Zpos m / 2 ^ (- e) < 256).
          { apply Z.div_lt_upper_bound; [lia|]. nia. }
          lia. }
    destruct Hq as (He & Hq & Hneg).
    cbn [C.SFtrunc mbind option_bind].
    rewrite (shiftl_nonpos (Zpos m) e He).
    exists (cond_Zopp s (Zpos m / 2 ^ (- e))).
    assert (Hc : 0 <= cond_Zopp s (Zpos m / 2 ^ (- e)) <= 255).
    { destruct s; cbn [cond_Zopp]; [rewrite (Hneg eq_refl); lia|lia]. }
    rewrite (Hrange _ Hc). split; [reflexivity|exact Hc].
Qed.
(** * Properties of [iterate] *)

Section Iterate.
Variable max_iter : Z.
Variable c : comp.

(** The guard can only hold below the cap. *)
Lemma loop_cond_lt st : loop_cond max_iter st = true -> it_i st < max_iter.
Proof.
  unfold loop_cond. intros H%andb_prop. destruct H as [H _].
  now apply Z.ltb_lt.
Qed.

Lemma loop_body_counter st : it_i (loop_body c st) = it_i st + 1.
Proof. reflexivity. Qed.

(** Each pass strictly decreases the distance to the cap, which stays
    non-negative: the variant of the loop. *)
Lemma loop_variant st :
  loop_cond max_iter st = true ->
  0 <= max_iter - it_i (loop_body c st) < max_iter - it_i st.
Proof. intros H%loop_cond_lt. rewrite loop_body_counter. lia. Qed.

(** The counter never decreases and never passes the cap. *)
Lemma run_loop_counter fuel st :
  it_i st <= it_i (run_loop max_iter c fuel st) <= Z.max (it_i st) max_iter.
Proof.
  revert st. induction fuel as [|fuel IH]; intros st; simpl.
  - lia.
  - destruct (loop_cond max_iter st) eqn:Hc; [|lia].
    apply loop_cond_lt in Hc.
    specialize (IH (loop_body c st)). rewrite loop_body_counter in IH. lia.
Qed.

(** With at least [max_iter - i] passes of fuel the bounded run is a
    complete execution of the loop. *)
Lemma run_loop_exec fuel st :
  max_iter - it_i st <= Z.of_nat fuel ->
  loop_exec max_iter c st (run_loop max_iter c fuel st).
Proof.
  revert st. induction fuel as [|fuel IH]; intros st Hfuel; simpl.
  - apply loop_exit. unfold loop_cond.
    replace (it_i st <? max_iter) with false; [reflexivity|].
    symmetry. apply Z.ltb_ge. lia.
  - destruct (loop_cond max_iter st) eqn:Hc.
    + apply loop_pass; [assumption|]. apply IH.
      rewrite loop_body_counter. lia.
    + now apply loop_exit.
Qed.

Lemma loop_exec_deterministic st st1 st2 :
  loop_exec max_iter c st st1 -> loop_exec max_iter c st st2 -> st1 = st2.
Proof.
  intros H1. revert st2.
  induction H1 as [st Hc|st st' Hc _ IH]; intros st2 H2.
  - inversion H2; subst; [reflexivity|congruence].
  - inversion H2; subst; [congruence|]. now apply IH.
Qed.

(** The loop guard is false in the final state. *)
Lemma loop_exec_final st st' :
  loop_exec max_iter c st st' -> loop_cond max_iter st' = false.
Proof. induction 1; assumption. Qed.

(** [iterate] is the counter of the unique final state of the loop
    started from [z = c], [i = 0]. *)
Lemma iterate_exec :
  loop_exec max_iter c (iter_init c)
    (run_loop max_iter c (Z.to_nat max_iter) (iter_init c)).
Proof. apply run_loop_exec. simpl. lia. Qed.

Lemma iterate_unique st' :
  loop_exec max_iter c (iter_init c) st' -> it_i st' = iterate max_iter c.
Proof.
  intros H. unfold iterate.
  now rewrite (loop_exec_deterministic _ _ _ H iterate_exec).
Qed.
End Iterate.

(** C1: for every point [c] and every positive [max_iter], the loop of
    [iterate] terminates in a final state whose counter is the value
    stored by [iterate], and that count lies in [0, max_iter]. *)
Theorem iterate_range (max_iter : Z) (c : comp) :
  0 < max_iter ->
  (exists st', loop_exec max_iter c (iter_init c) st' /\
               it_i st' = iterate max_iter c) /\
  0 <= iterate max_iter c <= max_iter.
Proof.
  intros Hpos. split.
  - eexists. split; [apply iterate_exec|reflexivity].
  - unfold iterate.
    pose proof (run_loop_counter max_iter c (Z.to_nat max_iter) (iter_init c)) as H.
    simpl in H. lia.
Qed.

Lemma iterate_range_witness :
  0 < 50 /\
  0 <= iterate 50 {| real := 0.25%float; imag := 0.5%float |} <= 50.
Proof.
  split; [lia|].
  apply (iterate_range 50 {| real := 0.25%float; imag := 0.5%float |}). lia.
Defined.

(** A point whose magnitude test [sqrt(...) < 2.0] fails on entry is
    never iterated. *)
Lemma iterate_escaped (max_iter : Z) (c : comp) :
  (magnitude c <? 2)%float = false -> iterate max_iter c = 0.
Proof.
  intros Hm. unfold iterate.
  destruct (Z.to_nat max_iter) as [|n]; simpl; [reflexivity|].
  unfold loop_cond. simpl it_z. rewrite Hm, andb_false_r. reflexivity.
Qed.

(** C2: a magnitude of exactly 2.0 counts as diverged.  Any [c] whose
    computed magnitude is 2.0 yields 0, in particular [c = (2,0)]; for
    [c = (1,0)] the first pass is taken (magnitude 1), it produces
    [z = (2,0)], whose magnitude test [2.0 < 2.0] fails: the count is 1. *)
Theorem iterate_boundary (max_iter : Z) :
  0 < max_iter ->
  (forall c, magnitude c = 2%float -> iterate max_iter c = 0) /\
  loop_cond max_iter (iter_init {| real := 2; imag := 0 |}) = false /\
  iterate max_iter {| real := 2; imag := 0 |} = 0 /\
  (let c1 := {| real := 1; imag := 0 |} in
   loop_cond max_iter (iter_init c1) = true /\
   loop_body c1 (iter_init c1) = {| it_z := {| real := 2; imag := 0 |}; it_i := 1 |} /\
   loop_cond max_iter (loop_body c1 (iter_init c1)) = false /\
   iterate max_iter c1 = 1).
Proof.
  intros Hpos.
  assert (H2 : forall c, magnitude c = 2%float -> iterate max_iter c = 0).
  { intros c Hc. apply iterate_escaped. rewrite Hc. reflexivity. }
  split; [exact H2|].
  split; [unfold loop_cond; simpl it_z;
          replace (magnitude {| real := 2; imag := 0 |} <? 2)%float with false by reflexivity;
          apply andb_false_r|].
  split; [apply H2; reflexivity|].
  cbv zeta.
  assert (Hc0 : loop_cond max_iter (iter_init {| real := 1; imag := 0 |}) = true).
  { unfold loop_cond. simpl it_i. simpl it_z.
    apply andb_true_intro. split; [apply Z.ltb_lt; lia|reflexivity]. }
  assert (Hb : loop_body {| real := 1; imag := 0 |} (iter_init {| real := 1; imag := 0 |})
               = {| it_z := {| real := 2; imag := 0 |}; it_i := 1 |}) by reflexivity.
  assert (Hc1 : loop_cond max_iter
                  (loop_body {| real := 1; imag := 0 |} (iter_init {| real := 1; imag := 0 |}))
                = false).
  { rewrite Hb. unfold loop_cond. simpl it_z.
    replace (magnitude {| real := 2; imag := 0 |} <? 2)%float with false by reflexivity.
    apply andb_false_r. }
  repeat split; try assumption.
  rewrite <- (iterate_unique max_iter _
                (loop_body {| real := 1; imag := 0 |} (iter_init {| real := 1; imag := 0 |}))).
  - now rewrite Hb.
  - apply loop_pass; [exact Hc0|]. apply loop_exit. exact Hc1.
Qed.

Lemma iterate_boundary_witness :
  0 < 2048 /\
  iterate 2048 {| real := 2; imag := 0 |} = 0 /\
  iterate 2048 {| real := 1; imag := 0 |} = 1.
Proof.
  split; [lia|].
  destruct (iterate_boundary 2048) as (_ & _ & H2 & H1); [lia|].
  split; [exact H2|]. apply H1.
Defined.





(** * Properties of [map_pixel] *)

(** C4: for a pixel of the image and a positive zoom, [map_pixel] returns
    exactly the affine image of the specification, with
    [span_real = 4.0/zoom] and [span_imag = 2.0/zoom], every operation
    being the binary64 one in the order written. *)
Theorem map_pixel_affine (width height px py : Z) (zoom : float) (center : comp) :
  0 <= px < width -> 0 <= py < height -> (0 <? zoom)%float = true ->
  let span_real := (4 / zoom)%float in
  let span_imag := (2 / zoom)%float in
  map_pixel width height px py zoom center
  = {| real := (span_real / C.double_of_int width * C.double_of_int px
                - span_real / 2 + real center)%float;
       imag := (span_imag / C.double_of_int height * C.double_of_int py
                - span_imag / 2 + imag center)%float |} /\
  map_pixel width height px py zoom center
  = affine_image width height px py zoom center.
Proof. intros _ _ _. split; reflexivity. Qed.

Lemma map_pixel_affine_witness :
  (0 <= 960 < 1920 /\ 0 <= 540 < 1080 /\ (0 <? 8)%float = true) /\
  map_pixel 1920 1080 960 540 8 Reference.center
  = affine_image 1920 1080 960 540 8 Reference.center.
Proof.
  split; [repeat split; (lia || reflexivity)|].
  apply (map_pixel_affine 1920 1080 960 540 8 Reference.center);
    (lia || reflexivity).
Defined.

(** The window of the 4x4 test image at zoom 1 around the origin: pixel
    (2,2) is the origin, pixel (0,0) is the corner (-2,-1). *)
Example map_pixel_4x4 :
  map_pixel 4 4 2 2 1 {| real := 0; imag := 0 |} = {| real := 0; imag := 0 |} /\
  map_pixel 4 4 0 0 1 {| real := 0; imag := 0 |} = {| real := -2; imag := -1 |}.
Proof. split; reflexivity. Qed.

(** * Properties of [hsv_to_rgb] *)

Lemma hsv_sector_merged (h : Z) (c x : float) :
  60 <= h < 180 -> hsv_sector h c x = (x, c, x).
Proof.
  intros Hh. unfold hsv_sector.
  replace (h <? 60) with false by (symmetry; apply Z.ltb_ge; lia).
  rewrite andb_false_r.
  replace (60 <=? h) with true by (symmetry; apply Z.leb_le; lia).
  replace (h <? 180) with true by (symmetry; apply Z.ltb_lt; lia).
  reflexivity.
Qed.

Lemma textbook_sector_split (h : Z) (c x : float) :
  (60 <= h < 120 -> textbook_sector h c x = (x, c, 0%float)) /\
  (120 <= h < 180 -> textbook_sector h c x = (0%float, c, x)).
Proof.
  unfold textbook_sector. split; intros Hh.
  - replace (h <? 60) with false by (symmetry; apply Z.ltb_ge; lia).
    rewrite andb_false_r.
    replace (60 <=? h) with true by (symmetry; apply Z.leb_le; lia).
    replace (h <? 120) with true by (symmetry; apply Z.ltb_lt; lia).
    reflexivity.
  - replace (h <? 60) with false by (symmetry; apply Z.ltb_ge; lia).
    replace (h <? 120) with false by (symmetry; apply Z.ltb_ge; lia).
    rewrite !andb_false_r.
    replace (120 <=? h) with true by (symmetry; apply Z.leb_le; lia).
    replace (h <? 180) with true by (symmetry; apply Z.ltb_lt; lia).
    reflexivity.
Qed.

(** In the merged sector the red and blue bytes are the same conversion. *)
Lemma hsv_to_rgb_merged (h s v : Z) :
  60 <= h < 180 ->
  hsv_to_rgb h s v =
    (r ← C.int_of_double ((hsv_x h s v + hsv_m s v) * 255)%float;
     g ← C.int_of_double ((hsv_c s v + hsv_m s v) * 255)%float;
     Some (r, g, r)).
Proof.
  intros Hh. unfold hsv_to_rgb. rewrite (hsv_sector_merged h _ _ Hh).
  destruct (C.int_of_double ((hsv_x h s v + hsv_m s v) * 255)%float) as [r|];
    reflexivity.
Qed.

Lemma forallb_seqZ (f : Z -> bool) (lo n x : Z) :
  forallb f (seqZ lo n) = true -> lo <= x < lo + n -> f x = true.
Proof.
  intros H Hx. rewrite forallb_forall in H. apply H.
  apply list_elem_of_In, elem_of_seqZ. exact Hx.
Qed.

Lemma hsv_table_checked : forallb hsv_row_ok (seqZ 0 360) = true.
Proof. vm_cast_no_check (eq_refl true). Qed.

(** Over hue [0,360), saturation 100 and value [0,100], [hsv_to_rgb]
    is defined and its three results are bytes. *)
Lemma hsv_to_rgb_bytes (h v : Z) :
  0 <= h < 360 -> 0 <= v <= 100 -> rgb_bytes (hsv_to_rgb h 100 v) = true.
Proof.
  intros Hh Hv.
  pose proof (forallb_seqZ hsv_row_ok 0 360 h hsv_table_checked ltac:(lia)) as Hrow.
  unfold hsv_row_ok in Hrow.
  pose proof (forallb_seqZ _ 0 101 v Hrow ltac:(lia)) as Hcell.
  cbv beta zeta in Hcell.
  unfold hsv_to_rgb, hsv_x.
  destruct (hsv_sector h (hsv_c 100 v) (hsv_c 100 v * hue_factor h)) as [[R G] B].
  apply andb_prop in Hcell as [Hcell HB]. apply andb_prop in Hcell as [HR HG].
  destruct (int_of_double_byte _ HR) as (r & -> & Hr).
  destruct (int_of_double_byte _ HG) as (g & -> & Hg).
  destruct (int_of_double_byte _ HB) as (b & -> & Hb).
  cbn [mbind option_bind rgb_bytes]. unfold is_byte.
  repeat (apply andb_true_intro; split); apply Z.leb_le; lia.
Qed.

Lemma rgb_bytes_inv (rgb : option (Z * Z * Z)) :
  rgb_bytes rgb = true ->
  exists r g b, rgb = Some (r, g, b) /\
                0 <= r <= 255 /\ 0 <= g <= 255 /\ 0 <= b <= 255.
Proof.
  destruct rgb as [[[r g] b]|]; simpl; [|discriminate].
  unfold is_byte. intros H.
  apply andb_prop in H as [H Hb]. apply andb_prop in H as [Hr Hg].
  apply andb_prop in Hr as [Hr1 Hr2]. apply andb_prop in Hg as [Hg1 Hg2].
  apply andb_prop in Hb as [Hb1 Hb2].
  exists r, g, b. split; [reflexivity|]. lia.
Qed.

(** C5: for every hue in [60,180) at saturation 100 the conversion takes
    the single branch assigning the pre-offset channels (X, C, X), where
    the textbook conversion assigns (X, C, 0) on [60,120) and (0, C, X) on
    [120,180).  The bytes returned are those of that branch: red and blue
    are both the conversion of [(X + m) * 255.0] and green that of
    [(C + m) * 255.0]; hence the red and blue bytes are equal on the whole
    range, and for every value of [0,100] the three bytes are defined. *)
Theorem merged_sector_red_eq_blue (h v : Z) :
  60 <= h < 180 ->
  hsv_sector h (hsv_c 100 v) (hsv_x h 100 v)
    = (hsv_x h 100 v, hsv_c 100 v, hsv_x h 100 v) /\
  ((60 <= h < 120 ->
    textbook_sector h (hsv_c 100 v) (hsv_x h 100 v)
      = (hsv_x h 100 v, hsv_c 100 v, 0%float)) /\
   (120 <= h < 180 ->
    textbook_sector h (hsv_c 100 v) (hsv_x h 100 v)
      = (0%float, hsv_c 100 v, hsv_x h 100 v))) /\
  hsv_to_rgb h 100 v
    = (r ← C.int_of_double ((hsv_x h 100 v + hsv_m 100 v) * 255)%float;
       g ← C.int_of_double ((hsv_c 100 v + hsv_m 100 v) * 255)%float;
       Some (r, g, r)) /\
  (forall r g b, hsv_to_rgb h 100 v = Some (r, g, b) ->
     r = b /\
     C.int_of_double ((hsv_x h 100 v + hsv_m 100 v) * 255)%float = Some r /\
     C.int_of_double ((hsv_c 100 v + hsv_m 100 v) * 255)%float = Some g) /\
  (0 <= v <= 100 ->
     exists r g,
       C.int_of_double ((hsv_x h 100 v + hsv_m 100 v) * 255)%float = Some r /\
       C.int_of_double ((hsv_c 100 v + hsv_m 100 v) * 255)%float = Some g /\
       hsv_to_rgb h 100 v = Some (r, g, r) /\
       0 <= r <= 255 /\ 0 <= g <= 255).
Proof.
  intros Hh. split; [now apply hsv_sector_merged|].
  split; [apply textbook_sector_split|].
  split; [exact (hsv_to_rgb_merged h 100 v Hh)|]. split.
  - intros r g b. rewrite (hsv_to_rgb_merged h 100 v Hh).
    destruct (C.int_of_double ((hsv_x h 100 v + hsv_m 100 v) * 255)%float) as [r'|];
      simpl; [|discriminate].
    destruct (C.int_of_double ((hsv_c 100 v + hsv_m 100 v) * 255)%float) as [g'|];
      simpl; [|discriminate].
    intros [= <- <- <-]. repeat split.
  - intros Hv.
    destruct (rgb_bytes_inv _ (hsv_to_rgb_bytes h v ltac:(lia) Hv))
      as (r & g & b & Hrgb & Hr & Hg & _).
    revert Hrgb. rewrite (hsv_to_rgb_merged h 100 v Hh).
    destruct (C.int_of_double ((hsv_x h 100 v + hsv_m 100 v) * 255)%float) as [r'|];
      simpl; [|discriminate].
    destruct (C.int_of_double ((hsv_c 100 v + hsv_m 100 v) * 255)%float) as [g'|];
      simpl; [|discriminate].
    intros [= -> -> _]. exists r, g. repeat split; (reflexivity || lia).
Qed.

Lemma merged_sector_red_eq_blue_witness :
  60 <= 90 < 180 /\
  hsv_to_rgb 90 100 100 = Some (127, 255, 127) /\
  (forall r g b, hsv_to_rgb 90 100 100 = Some (r, g, b) -> r = b).
Proof.
  assert (Hh : 60 <= 90 < 180) by lia.
  destruct (merged_sector_red_eq_blue 90 100 Hh) as (_ & _ & Heq & Hrb & _).
  split; [exact Hh|]. split.
  - rewrite Heq. reflexivity.
  - intros r g b H. exact (proj1 (Hrb r g b H)).
Defined.

(** At hue 90 and hue 150, full value: blue (resp. red) is 127 where the
    textbook conversion gives 0. *)
Example hsv_to_rgb_merged_values :
  hsv_to_rgb 90 100 100 = Some (127, 255, 127) /\
  hsv_to_rgb 150 100 100 = Some (127, 255, 127) /\
  hsv_to_rgb 0 100 100 = Some (255, 0, 0).
Proof. repeat split; vm_compute; reflexivity. Qed.

(** * Properties of the kernel launch *)

Section Dispatch.
Variable img_width : Z.
Hypothesis width_pos : 0 < img_width.

(** For a non-negative index, [%] and [/] of C are [mod] and [div], and
    the offset recombines to [3 * i]. *)
Lemma pixel_coords (i : Z) :
  0 <= i -> Z.rem i img_width = i mod img_width /\ Z.quot i img_width = i / img_width.
Proof.
  intros Hi. split.
  - apply Z.rem_mod_nonneg; lia.
  - apply Z.quot_div_nonneg; lia.
Qed.

Lemma pixel_byte_linear (i : Z) : 0 <= i -> pixel_byte img_width i = 3 * i.
Proof.
  intros Hi. unfold pixel_byte.
  pose proof (Z.quot_rem' i img_width) as H. lia.
Qed.

Lemma write_offsets_seq (i : Z) :
  0 <= i -> write_offsets img_width i = seqZ (3 * i) 3.
Proof.
  intros Hi. unfold write_offsets. rewrite (pixel_byte_linear i Hi).
  rewrite (seqZ_cons (3 * i) 3) by lia.
  rewrite (seqZ_cons (Z.succ (3 * i)) (Z.pred 3)) by lia.
  rewrite (seqZ_cons (Z.succ (Z.succ (3 * i))) (Z.pred (Z.pred 3))) by lia.
  rewrite seqZ_nil by lia. repeat (f_equal; try lia).
Qed.

Lemma write_offsets_disjoint (i j o : Z) :
  0 <= i -> 0 <= j -> i <> j ->
  o ∈ write_offsets img_width i -> o ∉ write_offsets img_width j.
Proof.
  intros Hi Hj Hij. rewrite !write_offsets_seq by assumption.
  rewrite !elem_of_seqZ. lia.
Qed.

(** The offsets of the threads [0 .. n-1], in order, are [0 .. 3n-1]. *)
Lemma offsets_of_prefix (n : nat) :
  seqZ 0 (Z.of_nat n) ≫= write_offsets img_width = seqZ 0 (3 * Z.of_nat n).
Proof.
  induction n as [|n IH].
  - reflexivity.
  - rewrite seqZ_S, bind_app, IH, bind_singleton.
    rewrite write_offsets_seq by lia.
    replace (3 * Z.of_nat (S n)) with (3 * Z.of_nat n + 3) by lia.
    rewrite seqZ_app by lia. repeat (f_equal; try lia).
Qed.
End Dispatch.

(** The stores of one thread are those of [write_offsets], in order,
    with the three channels of the colour. *)
Lemma plot_pixel_stores (max_iter w h : Z) (center : comp) (zoom : float)
    (i : Z) (buf : list Z) :
  plot_pixel max_iter w h center zoom i buf
  = (rgb ← colorize max_iter
             (iterate max_iter
                (map_pixel w h (Z.rem i w) (Z.quot i w) zoom center));
     store_rgb w i rgb buf).
Proof.
  unfold plot_pixel, store_rgb, write_offsets.
  destruct (colorize _ _) as [[[r g] b]|]; [|reflexivity].
  cbn [mbind option_bind zip zip_with foldl fst snd].
  destruct (store buf (pixel_byte w i + 0) r) as [buf1|]; [|reflexivity].
  cbn [mbind option_bind].
  destruct (store buf1 (pixel_byte w i + 1) g) as [buf2|]; reflexivity.
Qed.

(** The indices of one block are consecutive. *)
Lemma block_indices (b threads : Z) :
  seqZ 0 threads ≫= (fun t => [thread_index t b threads])
  = seqZ (b * threads) threads.
Proof.
  rewrite <- (Z.add_0_r (b * threads)), <- fmap_add_seqZ.
  unfold thread_index.
  induction (seqZ 0 threads) as [|t l IH]; [reflexivity|].
  rewrite bind_cons, IH. simpl. f_equal. lia.
Qed.

Lemma launch_indices_prefix (n : nat) (threads : Z) :
  0 <= threads ->
  launch_indices (Z.of_nat n) threads = seqZ 0 (Z.of_nat n * threads).
Proof.
  intros Ht. unfold launch_indices. induction n as [|n IH].
  - reflexivity.
  - rewrite seqZ_S, bind_app, IH, bind_singleton, block_indices.
    replace (Z.of_nat (S n) * threads) with (Z.of_nat n * threads + threads) by lia.
    rewrite seqZ_app by lia. repeat (f_equal; try lia).
Qed.

Lemma launch_indices_seq (blocks threads : Z) :
  0 <= blocks -> 0 <= threads ->
  launch_indices blocks threads = seqZ 0 (blocks * threads).
Proof.
  intros Hb Ht. rewrite <- (Z2Nat.id blocks Hb).
  now apply launch_indices_prefix.
Qed.

(** When 256 divides the number of pixels the grid is the pixel range. *)
Lemma block_count_exact (w h : Z) :
  0 <= w * h -> (w * h) mod threads_per_block = 0 ->
  block_count w h * threads_per_block = w * h.
Proof.
  intros Hwh Hdiv. unfold block_count, threads_per_block in *.
  rewrite Z.quot_div_nonneg by lia.
  pose proof (Z.div_mod (w * h) 256 ltac:(lia)). lia.
Qed.

(** The offsets written by one launch: the index [i] splits as
    [(i mod width, i div width)], the offset [3*(py*width + px)] is
    [3*i], the byte ranges of distinct threads are disjoint, and when 256
    divides [width*height] the launched indices are exactly
    [0 .. width*height-1], so the written offsets are
    [0 .. width*height*3 - 1], each once, inside the [int] range. *)
Lemma launch_offsets_exact (w h : Z) :
  0 < w -> 0 < h ->
  (w * h) mod threads_per_block = 0 ->
  w * h * 3 <= C.INT_MAX ->
  (forall i, 0 <= i ->
     Z.rem i w = i mod w /\ Z.quot i w = i / w /\ pixel_byte w i = 3 * i) /\
  (forall i j o, 0 <= i -> 0 <= j -> i <> j ->
     o ∈ write_offsets w i -> o ∉ write_offsets w j) /\
  block_count w h * threads_per_block = w * h /\
  launch_indices (block_count w h) threads_per_block = seqZ 0 (w * h) /\
  launch_offsets w h = seqZ 0 (w * h * 3) /\
  NoDup (launch_offsets w h) /\
  (forall o, o ∈ launch_offsets w h <-> 0 <= o < w * h * 3) /\
  Forall (fun o => C.in_int_range o = true) (launch_offsets w h).
Proof.
  intros Hw Hh Hdiv Hint.
  assert (Hwh : 0 <= w * h) by nia.
  pose proof (block_count_exact w h Hwh Hdiv) as Hbc.
  assert (Hbc0 : 0 <= block_count w h) by (unfold threads_per_block in Hbc; lia).
  assert (Hidx : launch_indices (block_count w h) threads_per_block = seqZ 0 (w * h)).
  { rewrite launch_indices_seq by (unfold threads_per_block; lia). now rewrite Hbc. }
  assert (Hoff : launch_offsets w h = seqZ 0 (w * h * 3)).
  { unfold launch_offsets. rewrite Hidx.
    rewrite <- (Z2Nat.id (w * h) Hwh), offsets_of_prefix.
    f_equal. lia. }
  split.
  { intros i Hi. destruct (pixel_coords w Hw i Hi) as [H1 H2].
    repeat split; [exact H1|exact H2|now apply pixel_byte_linear]. }
  split; [intros i j o; now apply write_offsets_disjoint|].
  split; [exact Hbc|]. split; [exact Hidx|]. split; [exact Hoff|].
  rewrite Hoff. split; [apply NoDup_seqZ|]. split.
  - intros o. rewrite elem_of_seqZ. lia.
  - apply Forall_seqZ. intros o Ho. unfold C.in_int_range, C.INT_MIN.
    unfold C.INT_MAX in *. apply andb_true_intro.
    split; [apply Z.leb_le|apply Z.leb_le]; lia.
Qed.

(** When 256 does not divide the pixel count the last pixels are not
    launched: a 4x4 image starts no block at all. *)
Example launch_small_image : launch_offsets 4 4 = [].
Proof. reflexivity. Qed.

(** * Properties of the colour of a pixel *)

Lemma hue_range (count : Z) : 0 <= count -> 0 <= Z.rem count 360 < 360.
Proof. intros H. apply Z.rem_bound_pos; lia. Qed.

Lemma colorize_unfold (max_iter count v : Z) :
  brightness max_iter count = Some v ->
  colorize max_iter count = hsv_to_rgb (Z.rem count 360) 100 v.
Proof. intros H. unfold colorize. rewrite H. reflexivity. Qed.

(** C6: for every count of [0, max_iter], with [max_iter] a positive
    [int], the colour (hue [count mod 360], saturation 100, value
    [(max_iter - count) / max_iter * 100] given to [hsv_to_rgb]) is
    defined and each of r, g, b lies in [0, 255]. *)
Theorem colorize_bytes (max_iter count : Z) :
  0 < max_iter <= C.INT_MAX -> 0 <= count <= max_iter ->
  exists v r g b,
    brightness max_iter count = Some v /\ 0 <= v <= 100 /\
    hsv_to_rgb (Z.rem count 360) 100 v = Some (r, g, b) /\
    colorize max_iter count = Some (r, g, b) /\
    0 <= r <= 255 /\ 0 <= g <= 255 /\ 0 <= b <= 255.
Proof.
  intros HM Hc.
  destruct (brightness_range max_iter count HM Hc) as (v & Hv & Hvr).
  pose proof (hue_range count ltac:(lia)) as Hh.
  destruct (rgb_bytes_inv _ (hsv_to_rgb_bytes _ v Hh Hvr))
    as (r & g & b & Hrgb & Hr & Hg & Hb).
  exists v, r, g, b. rewrite (colorize_unfold _ _ _ Hv).
  repeat split; try assumption; lia.
Qed.

Lemma colorize_bytes_witness :
  (0 < 2048 <= C.INT_MAX /\ 0 <= 1024 <= 2048) /\
  exists v r g b,
    brightness 2048 1024 = Some v /\ 0 <= v <= 100 /\
    hsv_to_rgb (Z.rem 1024 360) 100 v = Some (r, g, b) /\
    colorize 2048 1024 = Some (r, g, b) /\
    0 <= r <= 255 /\ 0 <= g <= 255 /\ 0 <= b <= 255.
Proof.
  split; [unfold C.INT_MAX; lia|].
  apply (colorize_bytes 2048 1024); unfold C.INT_MAX; lia.
Defined.

Example colorize_values :
  colorize 100 0 = Some (255, 0, 0) /\
  colorize 2048 1024 = Some (127, 0, 119) /\
  colorize 50 50 = Some (0, 0, 0).
Proof. repeat split; vm_compute; reflexivity. Qed.



(** * Totality of the numeric pipeline *)

(** A positive zoom is not zero. *)
Lemma positive_not_zero (x : float) :
  (0 <? x)%float = true -> (x =? 0)%float = false.
Proof.
  rewrite FloatAxioms.ltb_spec, FloatAxioms.eqb_spec.
  change (Prim2SF 0) with (S754_zero false).
  destruct (Prim2SF x) as [s|s| |s m e]; try reflexivity.
  - discriminate.
  - destruct s; reflexivity.
  - destruct s; reflexivity.
Qed.

(** A positive [int] converts to a non-zero [double]. *)
Lemma double_of_int_not_zero (n : Z) :
  0 < n <= C.INT_MAX -> (C.double_of_int n =? 0)%float = false.
Proof.
  intros Hn. rewrite FloatAxioms.eqb_spec.
  destruct (Prim2SF_double_of_int n) as (m & -> & _);
    [unfold C.INT_MAX in Hn; lia|].
  reflexivity.
Qed.

(** C9: the numeric pipeline is total.  [iterate] terminates for every
    [c] and every [max_iter]: each pass of the loop decreases the
    distance [max_iter - i], which stays non-negative, and the loop has
    exactly one final state.  [map_pixel] and [hsv_to_rgb] have no loop;
    under the guard [zoom > 0] (and positive image sizes) no divisor of
    [map_pixel] is zero, and over hue [0,360), saturation 100 and value
    [0,100] the conversions of [hsv_to_rgb] are defined. *)
Theorem pipeline_total :
  (forall max_iter c,
     exists st', loop_exec max_iter c (iter_init c) st' /\
                 (forall st'', loop_exec max_iter c (iter_init c) st'' -> st'' = st') /\
                 it_i st' = iterate max_iter c) /\
  (forall max_iter c st,
     loop_cond max_iter st = true ->
     0 <= max_iter - it_i (loop_body c st) < max_iter - it_i st) /\
  (forall w h px py zoom center,
     0 < w <= C.INT_MAX -> 0 < h <= C.INT_MAX -> (0 <? zoom)%float = true ->
     (zoom =? 0)%float = false /\
     (C.double_of_int w =? 0)%float = false /\
     (C.double_of_int h =? 0)%float = false /\
     exists c, map_pixel w h px py zoom center = c) /\
  (forall h v, 0 <= h < 360 -> 0 <= v <= 100 ->
     exists r g b, hsv_to_rgb h 100 v = Some (r, g, b)).
Proof.
  split; [|split; [|split]].
  - intros max_iter c. eexists. split; [apply iterate_exec|]. split; [|reflexivity].
    intros st'' H. exact (loop_exec_deterministic _ _ _ _ _ H (iterate_exec max_iter c)).
  - intros max_iter c st. apply loop_variant.
  - intros w h px py zoom center Hw Hh Hz.
    split; [now apply positive_not_zero|].
    split; [now apply double_of_int_not_zero|].
    split; [now apply double_of_int_not_zero|].
    eexists. reflexivity.
  - intros h v Hh Hv.
    destruct (rgb_bytes_inv _ (hsv_to_rgb_bytes h v Hh Hv)) as (r & g & b & H & _).
    exists r, g, b. exact H.
Qed.

(** * The frame written by one launch *)

Section Frame.
Variables max_iter img_width img_height : Z.
Variable center : comp.
Variable zoom : float.
Hypothesis max_iter_int : 0 < max_iter <= C.INT_MAX.

(** The colour of the pixel with index [i]. *)
Let pixel_rgb (i : Z) : option (Z * Z * Z) :=
  colorize max_iter
    (iterate max_iter
       (map_pixel img_width img_height (Z.rem i img_width) (Z.quot i img_width)
          zoom center)).

(** The three bytes of pixel [i] in a buffer. *)
Let cell (buf : list Z) (i : Z) : Prop :=
  exists r g b, pixel_rgb i = Some (r, g, b) /\
                buf !! Z.to_nat (3 * i) = Some r /\
                buf !! Z.to_nat (3 * i + 1) = Some g /\
                buf !! Z.to_nat (3 * i + 2) = Some b.

Lemma pixel_rgb_bytes (i : Z) :
  exists r g b, pixel_rgb i = Some (r, g, b) /\
                0 <= r <= 255 /\ 0 <= g <= 255 /\ 0 <= b <= 255.
Proof.
  unfold pixel_rgb.
  set (c := map_pixel _ _ _ _ _ _).
  pose proof (run_loop_counter max_iter c (Z.to_nat max_iter) (iter_init c)) as Hit.
  fold (iterate max_iter c) in Hit. cbn [iter_init it_i] in Hit.
  assert (Hcount : 0 <= iterate max_iter c <= max_iter) by lia.
  destruct (brightness_range max_iter _ max_iter_int Hcount) as (v & Hv & Hvr).
  pose proof (hue_range (iterate max_iter c) ltac:(lia)) as Hh.
  destruct (rgb_bytes_inv _ (hsv_to_rgb_bytes _ v Hh Hvr))
    as (r & g & b & Hrgb & Hr & Hg & Hb).
  exists r, g, b. rewrite (colorize_unfold _ _ _ Hv).
  repeat split; (assumption || lia).
Qed.

Lemma store_in_range (buf : list Z) (off n : Z) :
  0 <= off < Z.of_nat (length buf) -> 0 <= n <= 255 ->
  store buf off n = Some (<[Z.to_nat off := n]> buf).
Proof.
  intros Hoff Hn. unfold store, C.uint8_of_int.
  replace (0 <=? off) with true by (symmetry; apply Z.leb_le; lia).
  replace (off <? Z.of_nat (length buf)) with true by (symmetry; apply Z.ltb_lt; lia).
  rewrite Z.mod_small by lia. reflexivity.
Qed.

(** One thread stores the colour of its pixel at offsets [3i], [3i+1],
    [3i+2] and nothing else. *)
Lemma plot_pixel_spec (i : Z) (buf : list Z) :
  0 <= i -> 3 * i + 2 < Z.of_nat (length buf) ->
  exists r g b,
    pixel_rgb i = Some (r, g, b) /\
    plot_pixel max_iter img_width img_height center zoom i buf
    = Some (<[Z.to_nat (3 * i + 2) := b]>
              (<[Z.to_nat (3 * i + 1) := g]> (<[Z.to_nat (3 * i) := r]> buf))).
Proof.
  intros Hi Hlen.
  destruct (pixel_rgb_bytes i) as (r & g & b & Hrgb & Hr & Hg & Hb).
  exists r, g, b. split; [exact Hrgb|].
  unfold plot_pixel. fold (pixel_rgb i). rewrite Hrgb. cbn [mbind option_bind].
  rewrite (pixel_byte_linear img_width i Hi).
  rewrite store_in_range by lia. cbn [mbind option_bind].
  rewrite store_in_range by (rewrite ?length_insert; lia). cbn [mbind option_bind].
  rewrite store_in_range by (rewrite ?length_insert; lia).
  repeat f_equal; lia.
Qed.

(** Running the threads [0 .. n-1] fills the first [n] pixels. *)
Lemma run_threads_prefix (buf : list Z) (n : nat) :
  3 * Z.of_nat n <= Z.of_nat (length buf) ->
  exists buf',
    run_threads (plot_pixel max_iter img_width img_height center zoom)
      (seqZ 0 (Z.of_nat n)) buf = Some buf' /\
    length buf' = length buf /\
    (forall i, 0 <= i < Z.of_nat n -> cell buf' i) /\
    (forall k, (Z.to_nat (3 * Z.of_nat n) <= k)%nat -> buf' !! k = buf !! k).
Proof.
  induction n as [|n IH]; intros Hlen.
  - exists buf. split; [reflexivity|]. split; [reflexivity|].
    split; [intros i Hi; lia|reflexivity].
  - destruct IH as (bufn & Hrun & Hl & Hcells & Hrest); [lia|].
    destruct (plot_pixel_spec (Z.of_nat n) bufn ltac:(lia) ltac:(lia))
      as (r & g & b & Hrgb & Hplot).
    eexists. unfold run_threads in *.
    rewrite seqZ_S, foldl_app, Hrun. cbn [foldl mbind option_bind].
    rewrite Z.add_0_l, Hplot.
    split; [reflexivity|]. split; [rewrite !length_insert; exact Hl|]. split.
    + intros i Hi. destruct (Z.eq_dec i (Z.of_nat n)) as [->|Hne].
      * exists r, g, b. split; [exact Hrgb|].
        rewrite list_lookup_insert_ne by lia.
        rewrite list_lookup_insert_ne by lia.
        rewrite list_lookup_insert_eq by lia.
        rewrite list_lookup_insert_ne by lia.
        rewrite list_lookup_insert_eq by (rewrite length_insert; lia).
        rewrite list_lookup_insert_eq by (rewrite !length_insert; lia).
        repeat split.
      * destruct (Hcells i ltac:(lia)) as (r' & g' & b' & Hrgb' & H0 & H1 & H2).
        exists r', g', b'. split; [exact Hrgb'|].
        rewrite !list_lookup_insert_ne by lia. repeat split; assumption.
    + intros k Hk. rewrite !list_lookup_insert_ne by lia. apply Hrest. lia.
Qed.
Lemma insert_triple_commute (l : list Z) (k : nat) (x : Z) (a a1 a2 : nat) (r g b : Z) :
  k <> a -> k <> a1 -> k <> a2 ->
  <[k:=x]> (<[a2:=b]> (<[a1:=g]> (<[a:=r]> l)))
  = <[a2:=b]> (<[a1:=g]> (<[a:=r]> (<[k:=x]> l))).
Proof.
  intros H0 H1 H2.
  rewrite (list_insert_insert_ne _ k a2) by exact H2.
  rewrite (list_insert_insert_ne _ k a1) by exact H1.
  rewrite (list_insert_insert_ne _ k a) by exact H0.
  reflexivity.
Qed.

(** Two threads with different indices commute: they store to disjoint
    bytes and read nothing the other writes. *)
Lemma plot_pixel_commute (i j : Z) (buf : list Z) :
  0 <= i -> 0 <= j -> i <> j ->
  3 * i + 2 < Z.of_nat (length buf) -> 3 * j + 2 < Z.of_nat (length buf) ->
  plot_pixel max_iter img_width img_height center zoom i buf
    ≫= plot_pixel max_iter img_width img_height center zoom j
  = plot_pixel max_iter img_width img_height center zoom j buf
    ≫= plot_pixel max_iter img_width img_height center zoom i.
Proof.
  intros Hi Hj Hij Hli Hlj.
  destruct (plot_pixel_spec i buf Hi Hli) as (ri & gi & bi & Ei & Hpi).
  destruct (plot_pixel_spec j buf Hj Hlj) as (rj & gj & bj & Ej & Hpj).
  rewrite Hpi, Hpj. cbn [mbind option_bind].
  set (bufi := <[Z.to_nat (3 * i + 2):=bi]> _).
  set (bufj := <[Z.to_nat (3 * j + 2):=bj]> _).
  assert (Hleni : length bufi = length buf)
    by (unfold bufi; rewrite !length_insert; reflexivity).
  assert (Hlenj : length bufj = length buf)
    by (unfold bufj; rewrite !length_insert; reflexivity).
  assert (Hlj' : 3 * j + 2 < Z.of_nat (length bufi)) by (rewrite Hleni; exact Hlj).
  assert (Hli' : 3 * i + 2 < Z.of_nat (length bufj)) by (rewrite Hlenj; exact Hli).
  destruct (plot_pixel_spec j bufi Hj Hlj') as (rj' & gj' & bj' & Ej' & Hpj').
  destruct (plot_pixel_spec i bufj Hi Hli') as (ri' & gi' & bi' & Ei' & Hpi').
  rewrite Hpj', Hpi'.
  rewrite Ej in Ej'. rewrite Ei in Ei'.
  injection Ej' as <- <- <-. injection Ei' as <- <- <-.
  f_equal. unfold bufi, bufj.
  rewrite !(insert_triple_commute _ _ _ (Z.to_nat (3 * i))) by lia.
  reflexivity.
Qed.

(** The buffer computed by a launch does not depend on the order in which
    its threads run. *)
Lemma run_threads_order (idx idx' : list Z) (len : nat) (acc : option (list Z)) :
  idx ≡ₚ idx' -> NoDup idx ->
  Forall (fun i => 0 <= i /\ 3 * i + 2 < Z.of_nat len) idx ->
  (forall b, acc = Some b -> length b = len) ->
  foldl (fun a i => a ≫= plot_pixel max_iter img_width img_height center zoom i) acc idx
  = foldl (fun a i => a ≫= plot_pixel max_iter img_width img_height center zoom i) acc idx'.
Proof.
  intros Hperm. revert acc.
  induction Hperm as [|x l l' Hp IH|x y l|l l' l'' Hp1 IH1 Hp2 IH2];
    intros acc Hnd Hall Hacc.
  - reflexivity.
  - cbn [foldl]. apply NoDup_cons in Hnd as [_ Hnd].
    apply Forall_cons in Hall as [[Hx0 Hx] Hall].
    apply IH; [assumption..|].
    intros b Hb. destruct acc as [b0|]; [|discriminate].
    cbn [mbind option_bind] in Hb.
    destruct (plot_pixel_spec x b0 Hx0 ltac:(rewrite (Hacc b0 eq_refl); exact Hx))
      as (r & g & bl & _ & Hplot).
    rewrite Hplot in Hb. injection Hb as <-.
    rewrite !length_insert. now apply Hacc.
  - cbn [foldl].
    apply NoDup_cons in Hnd as [Hy Hnd].
    apply Forall_cons in Hall as [[Hy0 Hyl] Hall].
    apply Forall_cons in Hall as [[Hx0 Hxl] _].
    destruct acc as [b0|]; cbn [mbind option_bind]; [|reflexivity].
    pose proof (Hacc b0 eq_refl) as Hl.
    rewrite (plot_pixel_commute y x b0); try assumption;
      try (rewrite Hl; assumption); [reflexivity|].
    intros ->. apply Hy. left.
  - rewrite IH1 by assumption. apply IH2; [| |assumption].
    + now rewrite <- Hp1.
    + now rewrite <- Hp1.
Qed.
End Frame.

(** One launch on a buffer of [width*height*3] bytes, with 256 dividing
    [width*height]: no store leaves the buffer and afterwards the three
    bytes of every pixel are the colour computed for that pixel. *)
Lemma plot_mandelbrot_frame (max_iter w h : Z) (center : comp) (zoom : float)
    (buf : list Z) :
  0 < max_iter <= C.INT_MAX -> 0 < w -> 0 < h ->
  (w * h) mod threads_per_block = 0 ->
  Z.of_nat (length buf) = w * h * 3 ->
  exists buf',
    plot_mandelbrot max_iter w h center zoom buf = Some buf' /\
    length buf' = length buf /\
    forall i, 0 <= i < w * h ->
      exists r g b,
        colorize max_iter
          (iterate max_iter (map_pixel w h (i mod w) (i / w) zoom center))
        = Some (r, g, b) /\
        buf' !! Z.to_nat (3 * i) = Some r /\
        buf' !! Z.to_nat (3 * i + 1) = Some g /\
        buf' !! Z.to_nat (3 * i + 2) = Some b.
Proof.
  intros HM Hw Hh Hdiv Hlen.
  assert (Hwh : 0 <= w * h) by nia.
  unfold plot_mandelbrot.
  rewrite launch_indices_seq
    by (pose proof (block_count_exact w h Hwh Hdiv); unfold threads_per_block in *; lia).
  rewrite (block_count_exact w h Hwh Hdiv).
  destruct (run_threads_prefix max_iter w h center zoom HM buf (Z.to_nat (w * h)))
    as (buf' & Hrun & Hl & Hcells & _); [lia|].
  rewrite Z2Nat.id in Hrun, Hcells by lia.
  exists buf'. split; [exact Hrun|]. split; [exact Hl|].
  intros i Hi. destruct (Hcells i Hi) as (r & g & b & Hrgb & H0 & H1 & H2).
  exists r, g, b.
  destruct (pixel_coords w Hw i ltac:(lia)) as [<- <-].
  repeat split; assumption.
Qed.

(** The threads of a launch may run in any order: the buffer is the one
    of [plot_mandelbrot]. *)
Lemma launch_order_irrelevant (max_iter w h : Z) (center : comp) (zoom : float)
    (buf : list Z) (order : list Z) :
  0 < max_iter <= C.INT_MAX -> 0 < w -> 0 < h ->
  (w * h) mod threads_per_block = 0 ->
  Z.of_nat (length buf) = w * h * 3 ->
  launch_indices (block_count w h) threads_per_block ≡ₚ order ->
  run_threads (plot_pixel max_iter w h center zoom) order buf
  = plot_mandelbrot max_iter w h center zoom buf.
Proof.
  intros HM Hw Hh Hdiv Hlen Hperm.
  assert (Hwh : 0 <= w * h) by nia.
  unfold plot_mandelbrot, run_threads. symmetry.
  apply (run_threads_order max_iter w h center zoom HM _ _ (length buf));
    [exact Hperm| | |intros b [= <-]; reflexivity].
  - rewrite launch_indices_seq
      by (pose proof (block_count_exact w h Hwh Hdiv); unfold threads_per_block in *; lia).
    apply NoDup_seqZ.
  - rewrite launch_indices_seq
      by (pose proof (block_count_exact w h Hwh Hdiv); unfold threads_per_block in *; lia).
    rewrite (block_count_exact w h Hwh Hdiv).
    apply Forall_seqZ. intros i Hi. lia.
Qed.

(** C7: one launch writes every byte of the [width*height*3] buffer
    exactly once.  The index [i] splits as [(i mod width, i div width)],
    the offset [3*(py*width + px)] is [3*i], so the byte ranges of
    distinct threads are disjoint; when 256 divides [width*height] (as
    for 1920x1080) the launched indices are exactly
    [0 .. width*height-1] and the written offsets are
    [0 .. width*height*3 - 1], each once; no store leaves the buffer and
    every pixel receives its colour. *)
Theorem launch_writes_each_byte_once (max_iter w h : Z) (center : comp)
    (zoom : float) (buf : list Z) :
  0 < max_iter <= C.INT_MAX -> 0 < w -> 0 < h ->
  (w * h) mod threads_per_block = 0 ->
  w * h * 3 <= C.INT_MAX ->
  Z.of_nat (length buf) = w * h * 3 ->
  (forall i, 0 <= i ->
     Z.rem i w = i mod w /\ Z.quot i w = i / w /\ pixel_byte w i = 3 * i) /\
  (forall i j o, 0 <= i -> 0 <= j -> i <> j ->
     o ∈ write_offsets w i -> o ∉ write_offsets w j) /\
  block_count w h * threads_per_block = w * h /\
  launch_indices (block_count w h) threads_per_block = seqZ 0 (w * h) /\
  launch_offsets w h = seqZ 0 (w * h * 3) /\
  NoDup (launch_offsets w h) /\
  (forall o, o ∈ launch_offsets w h <-> 0 <= o < Z.of_nat (length buf)) /\
  Forall (fun o => C.in_int_range o = true) (launch_offsets w h) /\
  exists buf',
    plot_mandelbrot max_iter w h center zoom buf = Some buf' /\
    length buf' = length buf /\
    forall i, 0 <= i < w * h ->
      exists r g b,
        colorize max_iter
          (iterate max_iter (map_pixel w h (i mod w) (i / w) zoom center))
        = Some (r, g, b) /\
        buf' !! Z.to_nat (3 * i) = Some r /\
        buf' !! Z.to_nat (3 * i + 1) = Some g /\
        buf' !! Z.to_nat (3 * i + 2) = Some b.
Proof.
  intros HM Hw Hh Hdiv Hint Hlen.
  destruct (launch_offsets_exact w h Hw Hh Hdiv Hint)
    as (H1 & H2 & H3 & H4 & H5 & H6 & H7 & H8).
  split; [exact H1|]. split; [exact H2|]. split; [exact H3|].
  split; [exact H4|]. split; [exact H5|]. split; [exact H6|].
  split; [rewrite Hlen; exact H7|]. split; [exact H8|].
  now apply plot_mandelbrot_frame.
Qed.

Lemma launch_writes_each_byte_once_witness :
  let buf := replicate 768 0 in
  (0 < 50 <= C.INT_MAX /\ 0 < 16 /\ 0 < 16 /\
   (16 * 16) mod threads_per_block = 0 /\
   16 * 16 * 3 <= C.INT_MAX /\
   Z.of_nat (length buf) = 16 * 16 * 3) /\
  launch_offsets 16 16 = seqZ 0 (16 * 16 * 3) /\
  exists buf',
    plot_mandelbrot 50 16 16 {| real := 0; imag := 0 |} 1 buf = Some buf' /\
    length buf' = length buf.
Proof.
  intros buf.
  assert (HM : 0 < 50 <= C.INT_MAX) by (split; [reflexivity|discriminate]).
  assert (Hw : 0 < 16) by reflexivity.
  assert (Hdiv : (16 * 16) mod threads_per_block = 0) by reflexivity.
  assert (Hint : 16 * 16 * 3 <= C.INT_MAX) by discriminate.
  assert (Hlen : Z.of_nat (length buf) = 16 * 16 * 3) by reflexivity.
  split; [exact (conj HM (conj Hw (conj Hw (conj Hdiv (conj Hint Hlen)))))|].
  destruct (launch_writes_each_byte_once 50 16 16 {| real := 0; imag := 0 |} 1 buf
              HM Hw Hw Hdiv Hint Hlen)
    as (_ & _ & _ & _ & Hoff & _ & _ & _ & buf' & Hrun & Hl & _).
  split; [exact Hoff|]. exists buf'. split; assumption.
Defined.

(** The constants of main.cu: 8100 blocks of 256 threads cover the
    2073600 pixels, the 6220800 bytes of the buffer are each written
    once, and the launch succeeds on every buffer of that size. *)
Example reference_launch :
  block_count Reference.img_width Reference.img_height = 8100 /\
  launch_indices (block_count Reference.img_width Reference.img_height)
    threads_per_block = seqZ 0 2073600 /\
  launch_offsets Reference.img_width Reference.img_height = seqZ 0 6220800 /\
  forall (zoom : float) (buf : list Z),
    Z.of_nat (length buf) = 6220800 ->
    exists buf',
      plot_mandelbrot Reference.max_iter Reference.img_width Reference.img_height
        Reference.center zoom buf = Some buf' /\
      length buf' = length buf.
Proof.
  assert (Hw : 0 < Reference.img_width) by reflexivity.
  assert (Hh : 0 < Reference.img_height) by reflexivity.
  assert (Hdiv : (Reference.img_width * Reference.img_height) mod threads_per_block = 0)
    by reflexivity.
  assert (Hint : Reference.img_width * Reference.img_height * 3 <= C.INT_MAX)
    by discriminate.
  assert (HM : 0 < Reference.max_iter <= C.INT_MAX) by (split; [reflexivity|discriminate]).
  destruct (launch_offsets_exact _ _ Hw Hh Hdiv Hint) as (_ & _ & _ & Hidx & Hoff & _).
  split; [reflexivity|]. split; [exact Hidx|]. split; [exact Hoff|].
  intros zoom buf Hlen.
  destruct (plot_mandelbrot_frame Reference.max_iter Reference.img_width
              Reference.img_height Reference.center zoom buf HM Hw Hh Hdiv Hlen)
    as (buf' & Hrun & Hl & _).
  exists buf'. split; assumption.
Qed.

(** * Properties of the zoom loop of [main] *)

(** A completed run of the loop visits exactly the zoom levels given by
    the loop control, with consecutive image numbers: the estimate
    [img_count] only enters the printed percentage. *)
Lemma zoom_loop_sequence (fuel : nat) (n : Z) (ze zf z : float) (id : Z) (fs : list frame) :
  zoom_loop n ze zf fuel z id = Done fs ->
  zoom_sequence ze zf fuel z = Some (frame_zoom <$> fs) /\
  frame_id <$> fs = seqZ id (Z.of_nat (length fs)).
Proof.
  revert z id fs. induction fuel as [|fuel IH]; intros z id fs; simpl.
  - destruct (z <=? ze)%float; [discriminate|].
    intros [= <-]. split; reflexivity.
  - destruct (z <=? ze)%float.
    + destruct (progress id n) as [pct|]; [|discriminate].
      destruct (zoom_loop n ze zf fuel (z * zf) (id + 1)) as [fs'| |] eqn:E;
        try discriminate.
      intros [= <-]. destruct (IH _ _ _ E) as [Hz Hid].
      rewrite Hz. split; [reflexivity|].
      cbn [fmap list_fmap length frame_id]. rewrite Nat2Z.inj_succ.
      rewrite seqZ_cons by lia. f_equal.
      change (list_fmap frame Z frame_id fs') with (frame_id <$> fs').
      rewrite Hid. f_equal; lia.
    + intros [= <-]. split; reflexivity.
Qed.

(** Conversely, with a non-zero estimate the loop completes whenever its
    control does, as long as [img_id * 100] stays an [int]. *)
Lemma zoom_sequence_loop (fuel : nat) (n : Z) (ze zf z : float) (id : Z) (zs : list float) :
  zoom_sequence ze zf fuel z = Some zs ->
  n <> 0 -> 0 <= id -> (id + Z.of_nat (length zs)) * 100 <= C.INT_MAX ->
  exists fs, zoom_loop n ze zf fuel z id = Done fs /\ frame_zoom <$> fs = zs.
Proof.
  intros Hseq Hn. revert z id zs Hseq.
  induction fuel as [|fuel IH]; intros z id zs; simpl.
  - destruct (z <=? ze)%float; [discriminate|].
    intros [= <-] _ _. exists []. split; reflexivity.
  - destruct (z <=? ze)%float.
    + destruct (zoom_sequence ze zf fuel (z * zf)) as [zs'|] eqn:E; [|discriminate].
      intros [= <-] Hid Hmax. cbn [length] in Hmax.
      destruct (IH _ (id + 1) _ E ltac:(lia) ltac:(lia)) as (fs & Hfs & Hz).
      assert (Hp : progress id n = Some (Z.quot (id * 100) n)).
      { unfold progress, C.in_int_range, C.INT_MIN. unfold C.INT_MAX in Hmax.
        replace (n =? 0) with false by (symmetry; apply Z.eqb_neq; exact Hn).
        replace (- 2 ^ 31 <=? id * 100) with true by (symmetry; apply Z.leb_le; lia).
        replace (id * 100 <=? C.INT_MAX) with true
          by (symmetry; apply Z.leb_le; unfold C.INT_MAX; lia).
        reflexivity. }
      rewrite Hp, Hfs. eexists. split; [reflexivity|].
      cbn [fmap list_fmap frame_zoom]. f_equal. exact Hz.
    + intros [= <-] _ _. exists []. split; reflexivity.
Qed.

(** More fuel does not change a completed run. *)
Lemma zoom_loop_fuel (fuel k : nat) (n : Z) (ze zf z : float) (id : Z) (fs : list frame) :
  zoom_loop n ze zf fuel z id = Done fs ->
  zoom_loop n ze zf (fuel + k) z id = Done fs.
Proof.
  revert z id fs. induction fuel as [|fuel IH]; intros z id fs; simpl.
  - destruct (z <=? ze)%float eqn:Ez; [discriminate|].
    intros [= <-]. destruct k; simpl; rewrite Ez; reflexivity.
  - destruct (z <=? ze)%float; [|trivial].
    destruct (progress id n) as [pct|]; [|discriminate].
    destruct (zoom_loop n ze zf fuel (z * zf) (id + 1)) as [fs'| |] eqn:E;
      try discriminate.
    intros [= <-]. rewrite (IH _ _ _ E). reflexivity.
Qed.

(** With a zero estimate the first percentage divides by zero. *)
Lemma zoom_loop_zero_estimate (fuel : nat) (ze zf z : float) (id : Z) :
  (z <=? ze)%float = true ->
  zoom_loop 0 ze zf (S fuel) z id = Undefined.
Proof. intros Hz. simpl. rewrite Hz. reflexivity. Qed.

(** A number between two positive numbers of one binade lies in it. *)
Lemma SFleb_same_binade (lo hi : positive) (e : Z) (x : spec_float) :
  SFleb (S754_finite false lo e) x = true ->
  SFleb x (S754_finite false hi e) = true ->
  exists m : positive, x = S754_finite false m e /\ Zpos lo <= Zpos m <= Zpos hi.
Proof.
  unfold SFleb, SFcompare.
  destruct x as [s|s| |s m e0]; try discriminate.
  - destruct s; discriminate.
  - destruct s; try discriminate.
    destruct (Z.compare_spec e e0) as [<-|Hlt|Hgt]; try discriminate.
    + rewrite Z.compare_refl.
      rewrite !compare_cont_Z.
      destruct (Z.compare_spec (Zpos lo) (Zpos m)); try discriminate;
        destruct (Z.compare_spec (Zpos m) (Zpos hi)); try discriminate;
        intros _ _; exists m; (split; [reflexivity|lia]).
    + intros _. destruct (Z.compare_spec e0 e); try discriminate; lia.
Qed.

(** The truncated quotient of a number of [2.25, 2.375] by a number of
    [0.6875, 0.75] is 3. *)
Lemma estimate_quotient (x y : float) :
  (2.25 <=? x)%float = true -> (x <=? 2.375)%float = true ->
  (0.6875 <=? y)%float = true -> (y <=? 0.75)%float = true ->
  C.int_of_double (x / y)%float = Some 3.
Proof.
  rewrite !FloatAxioms.leb_spec.
  change (Prim2SF 2.25) with (S754_finite false 5066549580791808 (-51)).
  change (Prim2SF 2.375) with (S754_finite false 5348024557502464 (-51)).
  change (Prim2SF 0.6875) with (S754_finite false 6192449487634432 (-53)).
  change (Prim2SF 0.75) with (S754_finite false 6755399441055744 (-53)).
  intros Hx1 Hx2 Hy1 Hy2.
  destruct (SFleb_same_binade _ _ _ _ Hx1 Hx2) as (mx & Ex & Hmx).
  destruct (SFleb_same_binade _ _ _ _ Hy1 Hy2) as (my & Ey & Hmy).
  unfold C.int_of_double. rewrite div_spec, Ex, Ey. unfold SF64div.
  assert (Hdx : Zpos (digits2_pos mx) = 53).
  { change (Zpos (digits2_pos mx)) with (Zdigits2 (Zpos mx)).
    apply Zdigits2_unique; lia. }
  assert (Hdy : Zpos (digits2_pos my) = 53).
  { change (Zpos (digits2_pos my)) with (Zdigits2 (Zpos my)).
    apply Zdigits2_unique; lia. }
  assert (He' : Z.min (fexp prec emax (Zpos (digits2_pos mx) + -51
                                       - (Zpos (digits2_pos my) + -53)))
                  (-51 - -53) = -51).
  { rewrite Hdx, Hdy. reflexivity. }
  pose proof (SFdiv_upper mx my (-51) (-53) 7881299347898368 (-51)
                ltac:(lia) ltac:(reflexivity) ltac:(lia)) as Hup.
  pose proof (SFdiv_lower mx my (-51) (-53) 6755399441055744 (-51)
                ltac:(lia) ltac:(reflexivity)) as Hlo.
  rewrite He' in Hup, Hlo.
  change (-51 - -53 - -51) with 53 in Hup, Hlo.
  change (2 ^ (-51 - -51)) with 1 in Hup, Hlo.
  specialize (Hup ltac:(lia) ltac:(lia)). specialize (Hlo ltac:(lia) ltac:(lia)).
  destruct (SFdiv prec emax (S754_finite false mx (-51)) (S754_finite false my (-53)))
    as [s|s| |s m e]; try contradiction.
  destruct Hup as (-> & He1 & Hm1). destruct Hlo as (_ & He2 & Hm2).
  assert (e = -51) by lia. subst e.
  change (2 ^ (-51 - -51)) with 1 in Hm1, Hm2.
  cbn [C.SFtrunc cond_Zopp mbind option_bind].
  change (Z.shiftl (Zpos m) (-51)) with (Z.shiftr (Zpos m) 51).
  rewrite Z.shiftr_div_pow2 by lia.
  replace (Zpos m / 2 ^ 51) with 3; [reflexivity|].
  apply Z.div_unique with (r := Zpos m - 3 * 2 ^ 51); lia.
Qed.

(** As long as the estimate [img_count] is not zero and [img_id * 100]
    stays an [int], the frames written are those of the loop
    [zoom <= zoom_end] with [zoom *= zoom_fact], and the estimate only
    appears in the printed percentage.  For [zoom_start = 1],
    [zoom_fact = 2], [zoom_end = 10] the loop visits 1, 2, 4, 8 (16 > 10
    stops it): 4 frames, while the estimate computed from the logarithms
    is 3.  The C library's [log] is a parameter, assumed accurate to a
    few percent at 10 and at 2. *)
Lemma frames_follow_loop (log : float -> float) :
  (2.25 <=? log 10)%float = true -> (log 10 <=? 2.375)%float = true ->
  (0.6875 <=? log 2)%float = true -> (log 2 <=? 0.75)%float = true ->
  (forall fuel n ze zf z id fs,
      zoom_loop n ze zf fuel z id = Done fs ->
      zoom_sequence ze zf fuel z = Some (frame_zoom <$> fs) /\
      frame_id <$> fs = seqZ id (Z.of_nat (length fs))) /\
  (forall fuel n ze zf z zs,
      zoom_sequence ze zf fuel z = Some zs ->
      n <> 0 -> Z.of_nat (length zs) * 100 <= C.INT_MAX ->
      exists fs, zoom_loop n ze zf fuel z 0 = Done fs /\ frame_zoom <$> fs = zs) /\
  zoom_sequence 10 2 4 1 = Some [1; 2; 4; 8]%float /\
  (8 * 2 <=? 10)%float = false /\
  img_count log 1 10 2 = Some 3 /\
  (forall fuel, (4 <= fuel)%nat ->
     main log 1 10 2 fuel
     = Done (3, [mkFrame 0 1 0; mkFrame 1 2 33; mkFrame 2 4 66; mkFrame 3 8 100])).
Proof.
  intros H10lo H10hi H2lo H2hi.
  split; [intros fuel n ze zf z id fs H; exact (zoom_loop_sequence fuel n ze zf z id fs H)|].
  split; [intros fuel n ze zf z zs H Hn Hmax;
          exact (zoom_sequence_loop fuel n ze zf z 0 zs H Hn ltac:(lia) ltac:(lia))|].
  split; [reflexivity|]. split; [reflexivity|].
  assert (Hcount : img_count log 1 10 2 = Some 3).
  { unfold img_count. change (10 / 1)%float with 10%float.
    now apply estimate_quotient. }
  split; [exact Hcount|].
  intros fuel Hfuel. unfold main. rewrite Hcount.
  replace fuel with (4 + (fuel - 4))%nat by lia.
  rewrite (zoom_loop_fuel 4 (fuel - 4) 3 10 2 1 0
             [mkFrame 0 1 0; mkFrame 1 2 33; mkFrame 2 4 66; mkFrame 3 8 100]);
    reflexivity.
Qed.

Lemma log_series_accurate :
  (2.25 <=? log_series 10)%float = true /\ (log_series 10 <=? 2.375)%float = true /\
  (0.6875 <=? log_series 2)%float = true /\ (log_series 2 <=? 0.75)%float = true.
Proof. repeat split; vm_compute; reflexivity. Qed.

Lemma frames_follow_loop_witness :
  ((2.25 <=? log_series 10)%float = true /\ (log_series 10 <=? 2.375)%float = true /\
   (0.6875 <=? log_series 2)%float = true /\ (log_series 2 <=? 0.75)%float = true) /\
  img_count log_series 1 10 2 = Some 3 /\
  main log_series 1 10 2 4
  = Done (3, [mkFrame 0 1 0; mkFrame 1 2 33; mkFrame 2 4 66; mkFrame 3 8 100]).
Proof.
  split; [repeat split; vm_compute; reflexivity|].
  destruct (frames_follow_loop log_series) as (_ & _ & _ & _ & Hc & Hm);
    try (vm_compute; reflexivity).
  split; [exact Hc|]. apply Hm. lia.
Defined.

(** Zero divided by a positive number, converted to [int], is 0. *)
Lemma zero_quotient_estimate (y : float) :
  (0 <? y)%float = true -> C.int_of_double (0 / y)%float = Some 0.
Proof.
  intros Hy. unfold C.int_of_double. rewrite div_spec. unfold SF64div.
  rewrite FloatAxioms.ltb_spec in Hy.
  change (Prim2SF 0) with (S754_zero false) in *.
  destruct (Prim2SF y) as [s|s| |s m e]; try discriminate;
    destruct s; try discriminate; reflexivity.
Qed.

(** C8: the estimate is not used for display only.  The percentage
    [img_id * 100 / img_count] is computed inside the loop, so an
    estimate of 0 stops the run at a division by zero before the first
    image is written, although the loop condition admits a frame.  For
    [zoom_start = zoom_end = 1] and [zoom_fact = 2] (a configuration the
    specification allows) the loop control visits the single zoom 1 and,
    with any non-zero estimate, the loop writes exactly image 0; but the
    estimate is [(int)(log(1.0) / log(2.0)) = 0] and the run of [main] is
    undefined.  [log] is a parameter with [log(1.0) = 0] and
    [log(2.0) > 0]. *)
Theorem estimate_zero_stops_run (log : float -> float) :
  log 1%float = 0%float -> (0 <? log 2)%float = true ->
  img_count log 1 1 2 = Some 0 /\
  zoom_sequence 1 2 1 1 = Some [1%float] /\
  (forall (n : Z) (fuel : nat), n <> 0 ->
     zoom_loop n 1 2 (S fuel) 1 0 = Done [mkFrame 0 1 0]) /\
  (forall fuel : nat, zoom_loop 0 1 2 (S fuel) 1 0 = Undefined) /\
  (forall fuel : nat, main log 1 1 2 (S fuel) = Undefined).
Proof.
  intros Hlog1 Hlog2.
  assert (Hcount : img_count log 1 1 2 = Some 0).
  { unfold img_count. change (1 / 1)%float with 1%float. rewrite Hlog1.
    exact (zero_quotient_estimate (log 2%float) Hlog2). }
  split; [exact Hcount|]. split; [reflexivity|]. split; [|split].
  - intros n fuel Hn. cbn [zoom_loop].
    change (1 <=? 1)%float with true. change (1 * 2 <=? 1)%float with false.
    unfold progress. replace (n =? 0) with false by (symmetry; now apply Z.eqb_neq).
    cbn [orb]. change (negb (C.in_int_range (0 * 100))) with false. cbv iota.
    change (0 * 100) with 0. rewrite Z.quot_0_l by exact Hn.
    destruct fuel; reflexivity.
  - intros fuel. apply zoom_loop_zero_estimate. reflexivity.
  - intros fuel. unfold main. rewrite Hcount.
    now rewrite (zoom_loop_zero_estimate fuel 1%float 2%float 1%float 0 eq_refl).
Qed.

Lemma estimate_zero_stops_run_witness :
  (log_series 1%float = 0%float /\ (0 <? log_series 2)%float = true) /\
  img_count log_series 1 1 2 = Some 0 /\
  zoom_loop 1 1 2 1 1 0 = Done [mkFrame 0 1 0] /\
  main log_series 1 1 2 1 = Undefined.
Proof.
  assert (H1 : log_series 1%float = 0%float) by reflexivity.
  assert (H2 : (0 <? log_series 2)%float = true) by reflexivity.
  split; [exact (conj H1 H2)|].
  destruct (estimate_zero_stops_run log_series H1 H2) as (Hc & _ & Hone & _ & Hmain).
  split; [exact Hc|]. split; [apply Hone; discriminate|apply Hmain].
Defined.

(** The constants of main.cu: the loop writes 5485 images, numbered
    0 to 5484, one more than the estimate printed with this [log]. *)
Example reference_frame_count :
  (fun zs => Z.of_nat (length zs)) <$>
    zoom_sequence Reference.zoom_end Reference.zoom_fact (Z.to_nat 5485) Reference.zoom_start
    = Some 5485 /\
  img_count log_series Reference.zoom_start Reference.zoom_end Reference.zoom_fact
    = Some 5484.
Proof. split; vm_compute; reflexivity. Qed.

(** A single-frame configuration ([zoom_end = zoom_start]) has estimate 0
    and the percentage of its first frame is undefined. *)
Example single_frame_estimate :
  img_count log_series 1 1 2 = Some 0 /\
  zoom_sequence 1 2 1 1 = Some [1%float] /\
  main log_series 1 1 2 1 = Undefined.
Proof. repeat split; vm_compute; reflexivity. Qed.

(** * The escape-time count *)

Section EscapeTime.
Variable max_iter : Z.
Variable c : comp.

Lemma orbit_state_counter (k : nat) : it_i (orbit_state c k) = Z.of_nat k.
Proof.
  induction k as [|k IH]; [reflexivity|].
  change (orbit_state c (S k)) with (loop_body c (orbit_state c k)).
  rewrite loop_body_counter, IH. lia.
Qed.

Lemma loop_cond_orbit (k : nat) :
  loop_cond max_iter (orbit_state c k)
  = (Z.of_nat k <? max_iter) && bounded_point (orbit c k).
Proof. unfold loop_cond. rewrite orbit_state_counter. reflexivity. Qed.

(** A bounded run from the [k]-th state stops at a later state of the
    orbit, the guard holding strictly before it and failing there unless
    the fuel ran out. *)
Lemma run_loop_orbit (fuel k : nat) :
  exists j : nat,
    run_loop max_iter c fuel (orbit_state c k) = orbit_state c j /\
    (k <= j <= k + fuel)%nat /\
    (forall i, (k <= i < j)%nat -> loop_cond max_iter (orbit_state c i) = true) /\
    ((j < k + fuel)%nat -> loop_cond max_iter (orbit_state c j) = false).
Proof.
  revert k. induction fuel as [|fuel IH]; intros k.
  - exists k. split; [reflexivity|]. split; [lia|]. split; intros; lia.
  - cbn [run_loop]. destruct (loop_cond max_iter (orbit_state c k)) eqn:Hc.
    + destruct (IH (S k)) as (j & Hrun & Hj & Hbefore & Hat).
      exists j. split; [exact Hrun|]. split; [lia|]. split.
      * intros i Hi. destruct (Nat.eq_dec i k) as [->|Hne]; [exact Hc|].
        apply Hbefore. lia.
      * intros Hlt. apply Hat. lia.
    + exists k. split; [reflexivity|]. split; [lia|]. split; [intros; lia|].
      intros _. exact Hc.
Qed.
End EscapeTime.

(** The count is reached through orbit points that all pass the test
    [|z| < 2.0], and below the cap the point it stops at fails it. *)
Lemma escape_time_spec (max_iter : Z) (c : comp) :
  0 <= iterate max_iter c <= Z.max 0 max_iter /\
  (forall k : nat, Z.of_nat k < iterate max_iter c ->
     bounded_point (orbit c k) = true) /\
  (iterate max_iter c < max_iter ->
     bounded_point (orbit c (Z.to_nat (iterate max_iter c))) = false).
Proof.
  destruct (run_loop_orbit max_iter c (Z.to_nat max_iter) 0)
    as (j & Hrun & Hj & Hbefore & Hat).
  assert (Hit : iterate max_iter c = Z.of_nat j).
  { unfold iterate. change (iter_init c) with (orbit_state c 0).
    rewrite Hrun. apply orbit_state_counter. }
  rewrite Hit. split; [lia|]. split.
  - intros k Hk. specialize (Hbefore k ltac:(lia)).
    rewrite loop_cond_orbit in Hbefore.
    now apply andb_prop in Hbefore as [_ Hb].
  - intros Hlt. rewrite Nat2Z.id.
    specialize (Hat ltac:(lia)). rewrite loop_cond_orbit in Hat.
    replace (Z.of_nat j <? max_iter) with true in Hat
      by (symmetry; apply Z.ltb_lt; lia).
    exact Hat.
Qed.

(** The escape time is the only count with these properties. *)
Lemma escape_time_unique (max_iter : Z) (c : comp) (n : Z) :
  0 <= n <= Z.max 0 max_iter ->
  (forall k : nat, Z.of_nat k < n -> bounded_point (orbit c k) = true) ->
  (n < max_iter -> bounded_point (orbit c (Z.to_nat n)) = false) ->
  iterate max_iter c = n.
Proof.
  intros Hn Hbefore Hat.
  destruct (escape_time_spec max_iter c) as (H0 & Hb & Ha).
  destruct (Z.lt_trichotomy (iterate max_iter c) n) as [Hlt|[Heq|Hgt]];
    [|exact Heq|].
  - specialize (Hbefore (Z.to_nat (iterate max_iter c)) ltac:(lia)).
    rewrite Ha in Hbefore by lia. discriminate.
  - specialize (Hb (Z.to_nat n) ltac:(lia)).
    rewrite Hat in Hb by lia. discriminate.
Qed.

(** X1: [iterate] returns the escape time of [c] and nothing else: [n] is the
    value stored in [*iterations] exactly when the points
    [z_0 = c, z_1 = z_0^2 + c, ...] of index below [n] all pass the test
    [|z| < 2.0] and either [n] is the cap or [z_n] fails the test; with a
    cap that is zero or negative the count is 0. *)
Theorem iterate_escape_time (max_iter : Z) (c : comp) (n : Z) :
  iterate max_iter c = n <->
  0 <= n <= Z.max 0 max_iter /\
  (forall k : nat, Z.of_nat k < n -> bounded_point (orbit c k) = true) /\
  (n < max_iter -> bounded_point (orbit c (Z.to_nat n)) = false).
Proof.
  split.
  - intros <-. apply escape_time_spec.
  - intros (Hn & Hb & Ha). now apply escape_time_unique.
Qed.

(** X2: raising the cap never changes a count below the old cap: the count
    under the smaller cap is the count under the larger one, clipped. *)
Theorem iterate_cap_min (m m' : Z) (c : comp) :
  0 <= m <= m' -> iterate m c = Z.min m (iterate m' c).
Proof.
  intros Hm.
  destruct (escape_time_spec m' c) as (H0 & Hb & Ha).
  apply escape_time_unique.
  - lia.
  - intros k Hk. apply Hb. lia.
  - intros Hlt. rewrite Z.min_r in * by lia. apply Ha. lia.
Qed.

Lemma iterate_cap_min_witness :
  0 <= 10 <= 2048 /\
  iterate 10 {| real := (-0.75)%float; imag := 0.1%float |}
  = Z.min 10 (iterate 2048 {| real := (-0.75)%float; imag := 0.1%float |}).
Proof.
  split; [lia|].
  apply (iterate_cap_min 10 2048 {| real := (-0.75)%float; imag := 0.1%float |}). lia.
Defined.

(** * Coordinates that are not finite numbers *)

(** Rounding a non-negative mantissa gives a number of the requested
    sign, never a NaN. *)
Lemma binary_round_aux_sign (s : bool) (mx ex : Z) (lx : location) :
  0 <= mx ->
  match binary_round_aux prec emax s mx ex lx with
  | S754_zero s' | S754_infinity s' | S754_finite s' _ _ => s' = s
  | S754_nan => False
  end.
Proof.
  intros Hmx. rewrite binary_round_aux_unfold. cbv zeta.
  destruct (shr_fexp_spec mx ex lx Hmx) as (_ & Hq1 & _).
  set (st1 := shr_fexp prec emax mx ex lx) in *.
  destruct (round_nearest_even_bounds (shr_m (fst st1))
              (loc_of_shr_record (fst st1))) as [Hm1 _].
  set (m1 := round_nearest_even _ _) in *.
  assert (Hm1nn : 0 <= m1).
  { rewrite Hq1 in Hm1.
    assert (0 <= mx / 2 ^ Z.max 0 (fexp prec emax (Zdigits2 mx + ex) - ex)).
    { apply Z.div_pos; [lia|]. apply pow2_pos. lia. }
    lia. }
  destruct (shr_fexp_spec m1 (snd st1) loc_Exact Hm1nn) as (_ & Hq2 & _).
  set (st2 := shr_fexp prec emax m1 (snd st1) loc_Exact) in *.
  assert (Hm2 : 0 <= shr_m (fst st2)).
  { rewrite Hq2. apply Z.div_pos; [lia|]. apply pow2_pos. lia. }
  clear Hq2. destruct (shr_m (fst st2)) as [|m|m]; [reflexivity| |lia].
  destruct (snd st2 <=? emax - prec); reflexivity.
Qed.

(** A square is never negative. *)
Lemma SFmul_square (x : spec_float) :
  match SFmul prec emax x x with
  | S754_zero s | S754_infinity s | S754_finite s _ _ => s = false
  | S754_nan => True
  end.
Proof.
  destruct x as [s|s| |s m e]; cbn [SFmul]; try (apply xorb_nilpotent); [exact I|].
  rewrite xorb_nilpotent.
  pose proof (binary_round_aux_sign false (Zpos (m * m)) (e + e) loc_Exact ltac:(lia)) as H.
  destruct (binary_round_aux prec emax false (Zpos (m * m)) (e + e) loc_Exact);
    (exact H || contradiction).
Qed.

Lemma SFmul_square_nonfinite (x : spec_float) :
  (x = S754_nan -> SFmul prec emax x x = S754_nan) /\
  (forall s, x = S754_infinity s -> SFmul prec emax x x = S754_infinity false).
Proof.
  split; [intros ->; reflexivity|].
  intros s ->. cbn [SFmul]. now rewrite xorb_nilpotent.
Qed.

Lemma nonfinite_cases (x : float) :
  is_finite x = false ->
  Prim2SF x = S754_nan \/ exists s, Prim2SF x = S754_infinity s.
Proof.
  unfold is_finite, is_nan, is_infinity.
  rewrite !FloatAxioms.eqb_spec, abs_spec.
  change (Prim2SF infinity) with (S754_infinity false).
  destruct (Prim2SF x) as [s|s| |s m e].
  - discriminate.
  - intros _. right. now exists s.
  - intros _. now left.
  - unfold SFeqb, SFcompare, SFabs.
    rewrite Z.compare_refl, compare_cont_Z, Z.compare_refl.
    destruct s; discriminate.
Qed.

(** The magnitude test fails as soon as one coordinate is a NaN or an
    infinity. *)
Lemma nonfinite_unbounded (z : comp) :
  is_finite (real z) = false \/ is_finite (imag z) = false ->
  bounded_point z = false.
Proof.
  intros H. unfold bounded_point, magnitude.
  rewrite FloatAxioms.ltb_spec, sqrt_spec, add_spec, !mul_spec.
  change (Prim2SF 2) with (S754_finite false 4503599627370496 (-51)).
  unfold SF64sqrt, SF64add, SF64mul.
  pose proof (SFmul_square (Prim2SF (real z))) as Hr.
  pose proof (SFmul_square (Prim2SF (imag z))) as Hi.
  destruct (SFmul_square_nonfinite (Prim2SF (real z))) as [Hrn Hri].
  destruct (SFmul_square_nonfinite (Prim2SF (imag z))) as [Hin Hii].
  destruct H as [H|H]; apply nonfinite_cases in H as [H|[s H]].
  - rewrite (Hrn H). reflexivity.
  - rewrite (Hri s H).
    destruct (SFmul prec emax (Prim2SF (imag z)) (Prim2SF (imag z)));
      try subst; reflexivity.
  - rewrite (Hin H).
    destruct (SFmul prec emax (Prim2SF (real z)) (Prim2SF (real z))); reflexivity.
  - rewrite (Hii s H).
    destruct (SFmul prec emax (Prim2SF (real z)) (Prim2SF (real z)));
      try subst; reflexivity.
Qed.

(** X3: a point with a NaN or infinite coordinate is never iterated: its
    count is 0, like that of a point outside the circle of radius 2. *)
Theorem iterate_nonfinite (max_iter : Z) (c : comp) :
  is_finite (real c) = false \/ is_finite (imag c) = false ->
  iterate max_iter c = 0.
Proof.
  intros H. apply iterate_escaped. exact (nonfinite_unbounded c H).
Qed.

Lemma iterate_nonfinite_witness :
  (is_finite (real {| real := nan; imag := 0 |}) = false \/
   is_finite (imag {| real := nan; imag := 0 |}) = false) /\
  iterate 2048 {| real := nan; imag := 0 |} = 0.
Proof.
  split; [left; reflexivity|].
  apply (iterate_nonfinite 2048 {| real := nan; imag := 0 |}).
  left. reflexivity.
Defined.
(** * The colours of the two extreme counts *)

(** A positive [int] divided by itself is exactly 1. *)
Lemma div_self_int (M : Z) :
  0 < M < 2 ^ 53 -> (C.double_of_int M / C.double_of_int M)%float = 1%float.
Proof.
  intros HM. apply Prim2SF_inj. rewrite div_spec. unfold SF64div.
  change (Prim2SF 1) with (S754_finite false 4503599627370496 (-52)).
  destruct (Prim2SF_double_of_int M HM) as (m & -> & Hm).
  pose proof (Zdigits2_pos M ltac:(lia)) as HdM.
  assert (Hd53 : Zdigits2 M <= 53).
  { destruct (Z_lt_le_dec 53 (Zdigits2 M)) as [Hc|]; [|lia].
    destruct (Zdigits2_bounds M ltac:(lia)) as [Hlo _].
    assert (2 ^ 53 <= 2 ^ (Zdigits2 M - 1)) by (apply Z.pow_le_mono_r; lia). lia. }
  set (d := Zdigits2 M) in *.
  assert (Hd : Zpos (digits2_pos m) = 53).
  { change (Zpos (digits2_pos m)) with (Zdigits2 (Zpos m)).
    rewrite Hm, Zdigits2_mul_pow by lia. fold d. lia. }
  assert (He' : Z.min (fexp prec emax (Zpos (digits2_pos m) + (d - 53)
                                       - (Zpos (digits2_pos m) + (d - 53))))
                  (d - 53 - (d - 53)) = -53).
  { rewrite Hd, fexp_eq. lia. }
  assert (Hm0 : 0 < Zpos m) by lia.
  pose proof (SFdiv_upper m m (d - 53) (d - 53) (2 ^ 52) (-52)) as Hup.
  pose proof (SFdiv_lower m m (d - 53) (d - 53) (2 ^ 52) (-52)) as Hlo.
  rewrite He' in Hup, Hlo.
  replace (d - 53 - (d - 53) - -53) with 53 in Hup, Hlo by lia.
  change (-52 - -53) with 1 in Hup, Hlo.
  change (2 ^ 52 * 2 ^ 1) with (2 ^ 53) in Hup, Hlo.
  specialize (Hup ltac:(lia) ltac:(reflexivity) ltac:(lia) ltac:(lia) ltac:(lia)).
  specialize (Hlo ltac:(lia) ltac:(reflexivity) ltac:(lia) ltac:(lia)).
  destruct (SFdiv prec emax (S754_finite false m (d - 53)) (S754_finite false m (d - 53)))
    as [s|s| |s q e]; try contradiction.
  destruct Hup as (-> & He & Hq). destruct Hlo as (_ & He2 & Hq2).
  assert (e = -52) by lia. subst e.
  change (2 ^ (-52 - -52)) with 1 in *.
  f_equal. lia.
Qed.

(** Zero divided by a positive [int] is zero. *)
Lemma div_zero_int (M : Z) :
  0 < M < 2 ^ 53 -> (C.double_of_int 0 / C.double_of_int M)%float = 0%float.
Proof.
  intros HM. apply Prim2SF_inj. rewrite div_spec. unfold SF64div.
  destruct (Prim2SF_double_of_int M HM) as (m & -> & _). reflexivity.
Qed.

(** At value 0 every hue is black. *)
Lemma hsv_black_checked :
  forallb (fun h => is_black (hsv_to_rgb h 100 0)) (seqZ 0 360) = true.
Proof. vm_cast_no_check (eq_refl true). Qed.

(** X4: a point that reaches the cap (a point taken to be in the set) is
    painted black, whatever the cap and its hue [max_iter % 360]. *)
Theorem colorize_interior_black (max_iter : Z) :
  0 < max_iter <= C.INT_MAX -> colorize max_iter max_iter = Some (0, 0, 0).
Proof.
  intros HM. unfold colorize, brightness. rewrite Z.sub_diag.
  rewrite div_zero_int by (unfold C.INT_MAX in HM; lia).
  change (C.int_of_double (0 * C.double_of_int 100)%float) with (Some 0).
  cbn [mbind option_bind].
  pose proof (forallb_seqZ _ 0 360 (Z.rem max_iter 360) hsv_black_checked
                ltac:(pose proof (hue_range max_iter ltac:(lia)); lia)) as H.
  cbv beta in H. unfold is_black in H.
  destruct (hsv_to_rgb (Z.rem max_iter 360) 100 0) as [[[[|?|?] [|?|?]] [|?|?]]|];
    try discriminate. reflexivity.
Qed.

Lemma colorize_interior_black_witness :
  0 < 2048 <= C.INT_MAX /\ colorize 2048 2048 = Some (0, 0, 0).
Proof.
  split; [unfold C.INT_MAX; lia|].
  apply (colorize_interior_black 2048). unfold C.INT_MAX. lia.
Defined.

(** X5: a point that fails the magnitude test at once (count 0) is painted
    pure red, whatever the cap: its value is exactly 100 and its hue 0. *)
Theorem colorize_escaped_red (max_iter : Z) :
  0 < max_iter <= C.INT_MAX ->
  brightness max_iter 0 = Some 100 /\ colorize max_iter 0 = Some (255, 0, 0).
Proof.
  intros HM.
  assert (Hb : brightness max_iter 0 = Some 100).
  { unfold brightness. rewrite Z.sub_0_r.
    rewrite div_self_int by (unfold C.INT_MAX in HM; lia). reflexivity. }
  split; [exact Hb|]. unfold colorize. rewrite Hb. reflexivity.
Qed.

Lemma colorize_escaped_red_witness :
  0 < 2048 <= C.INT_MAX /\
  brightness 2048 0 = Some 100 /\ colorize 2048 0 = Some (255, 0, 0).
Proof.
  split; [unfold C.INT_MAX; lia|].
  apply (colorize_escaped_red 2048). unfold C.INT_MAX. lia.
Defined.

(** * Fully saturated colours *)

Lemma hsv_extremes_checked :
  forallb (fun h => forallb (hsv_extremes_ok h) (seqZ 0 101)) (seqZ 0 360) = true.
Proof. vm_cast_no_check (eq_refl true). Qed.

(** X6: at saturation 100 (the only one [plot_pixel] uses) the offset [m] is
    zero: the largest of the three bytes is the byte of the value,
    [(int)(v / 100.0 * 255.0)], and the smallest is 0, except in the
    branch of hues [60,180), which sets red and blue alike. *)
Theorem hsv_full_saturation (h v : Z) :
  0 <= h < 360 -> 0 <= v <= 100 ->
  exists r g b top,
    hsv_to_rgb h 100 v = Some (r, g, b) /\
    value_byte v = Some top /\
    Z.max r (Z.max g b) = top /\
    (h < 60 \/ 180 <= h -> Z.min r (Z.min g b) = 0).
Proof.
  intros Hh Hv.
  pose proof (forallb_seqZ _ 0 360 h hsv_extremes_checked ltac:(lia)) as Hrow.
  cbv beta in Hrow.
  pose proof (forallb_seqZ _ 0 101 v Hrow ltac:(lia)) as H.
  unfold hsv_extremes_ok in H.
  destruct (hsv_to_rgb h 100 v) as [[[r g] b]|]; [|discriminate].
  destruct (value_byte v) as [top|]; [|discriminate].
  apply andb_prop in H as [Hmax Hmin]. apply Z.eqb_eq in Hmax.
  exists r, g, b, top. repeat split; try assumption.
  intros Hout. apply orb_prop in Hmin as [Hin|Hz]; [|now apply Z.eqb_eq in Hz].
  apply andb_prop in Hin as [H1 H2]. apply Z.leb_le in H1. apply Z.ltb_lt in H2. lia.
Qed.

Lemma hsv_full_saturation_witness :
  (0 <= 200 < 360 /\ 0 <= 50 <= 100) /\
  exists r g b top,
    hsv_to_rgb 200 100 50 = Some (r, g, b) /\
    value_byte 50 = Some top /\
    Z.max r (Z.max g b) = top /\
    (200 < 60 \/ 180 <= 200 -> Z.min r (Z.min g b) = 0).
Proof.
  split; [lia|]. apply (hsv_full_saturation 200 50); lia.
Defined.
(** * The launch on buffers and images of any size *)

Section Launch.
Variables max_iter img_width img_height : Z.
Variable center : comp.
Variable zoom : float.
Hypothesis max_iter_int : 0 < max_iter <= C.INT_MAX.

Let kernel := plot_pixel max_iter img_width img_height center zoom.

(** Once a store has left the buffer the launch stays undefined. *)
Lemma run_threads_undefined (idx : list Z) :
  foldl (fun acc i => acc ≫= kernel i) None idx = None.
Proof. induction idx as [|i idx IH]; [reflexivity|exact IH]. Qed.

Lemma store_length (buf buf' : list Z) (off n : Z) :
  store buf off n = Some buf' -> length buf' = length buf.
Proof.
  unfold store. destruct (_ && _); [|discriminate].
  intros [= <-]. apply length_insert.
Qed.

Lemma store_out_of_range (buf : list Z) (off n : Z) :
  Z.of_nat (length buf) <= off -> store buf off n = None.
Proof.
  intros H. unfold store.
  replace (off <? Z.of_nat (length buf)) with false by (symmetry; apply Z.ltb_ge; lia).
  now rewrite andb_false_r.
Qed.

(** A thread whose three bytes do not all lie in the buffer stores
    outside it. *)
Lemma plot_pixel_out_of_range (i : Z) (buf : list Z) :
  0 <= i -> Z.of_nat (length buf) <= 3 * i + 2 -> kernel i buf = None.
Proof.
  intros Hi Hlen. unfold kernel, plot_pixel.
  destruct (pixel_rgb_bytes max_iter img_width img_height center zoom max_iter_int i)
    as (r & g & b & -> & _).
  cbn [mbind option_bind]. rewrite (pixel_byte_linear img_width i Hi).
  destruct (store buf (3 * i + 0) r) as [b1|] eqn:E1; [|reflexivity].
  cbn [mbind option_bind]. pose proof (store_length _ _ _ _ E1) as L1.
  destruct (store b1 (3 * i + 1) g) as [b2|] eqn:E2; [|reflexivity].
  cbn [mbind option_bind]. pose proof (store_length _ _ _ _ E2) as L2.
  apply store_out_of_range. lia.
Qed.
End Launch.

(** X7: for an image whose [width*height*3] bytes are counted by an [int]
    (so that the products and offsets of the source, computed in [int],
    do not overflow), [plot_mandelbrot] launches
    [256 * (width*height / 256)] threads, all of whose offsets are
    [int]s.  It is defined exactly when the buffer holds the three bytes
    of each of them; then these pixels receive their colour, the buffer
    keeps its length and every byte after them keeps its old content:
    when 256 does not divide [width*height] the last
    [width*height mod 256] pixels are not drawn. *)
Theorem plot_mandelbrot_partial (max_iter w h : Z) (center : comp) (zoom : float)
    (buf : list Z) :
  0 < max_iter <= C.INT_MAX -> 0 < w -> 0 < h ->
  w * h * 3 <= C.INT_MAX ->
  let n := block_count w h * threads_per_block in
  n = w * h - (w * h) mod 256 /\
  C.in_int_range (w * h) = true /\
  (forall i, 0 <= i < n ->
     pixel_byte w i = 3 * i /\ C.in_int_range (pixel_byte w i + 2) = true) /\
  (Z.of_nat (length buf) < 3 * n ->
     plot_mandelbrot max_iter w h center zoom buf = None) /\
  (3 * n <= Z.of_nat (length buf) ->
     exists buf',
       plot_mandelbrot max_iter w h center zoom buf = Some buf' /\
       length buf' = length buf /\
       (forall i, 0 <= i < n ->
          exists r g b,
            colorize max_iter
              (iterate max_iter (map_pixel w h (i mod w) (i / w) zoom center))
            = Some (r, g, b) /\
            buf' !! Z.to_nat (3 * i) = Some r /\
            buf' !! Z.to_nat (3 * i + 1) = Some g /\
            buf' !! Z.to_nat (3 * i + 2) = Some b) /\
       (forall k : nat, 3 * n <= Z.of_nat k -> buf' !! k = buf !! k)).
Proof.
  intros HM Hw Hh Hint n.
  assert (Hwh : 0 < w * h) by nia.
  assert (Hq : block_count w h = w * h / 256).
  { unfold block_count, threads_per_block. apply Z.quot_div_nonneg; lia. }
  assert (Hbc : 0 <= block_count w h).
  { rewrite Hq. apply Z.div_pos; lia. }
  assert (Hn : n = w * h - (w * h) mod 256).
  { unfold n, threads_per_block. rewrite Hq.
    pose proof (Z.div_mod (w * h) 256 ltac:(lia)). lia. }
  assert (Hn0 : 0 <= n) by (unfold n, threads_per_block; lia).
  assert (Hidx : launch_indices (block_count w h) threads_per_block = seqZ 0 n).
  { apply launch_indices_seq; [exact Hbc|unfold threads_per_block; lia]. }
  assert (Hrange : forall k, 0 <= k <= w * h * 3 -> C.in_int_range k = true).
  { intros k Hk. unfold C.in_int_range, C.INT_MIN. unfold C.INT_MAX in *.
    apply andb_true_intro. split; apply Z.leb_le; lia. }
  pose proof (Z.mod_pos_bound (w * h) 256 ltac:(lia)) as Hmod.
  split; [exact Hn|]. split; [apply Hrange; lia|]. split.
  { intros i Hi. rewrite (pixel_byte_linear w i ltac:(lia)).
    split; [reflexivity|]. apply Hrange. lia. }
  split.
  - intros Hshort. unfold plot_mandelbrot. rewrite Hidx.
    set (j := Z.of_nat (length buf) / 3).
    assert (Hj : 0 <= j < n).
    { unfold j. split; [apply Z.div_pos; lia|].
      apply Z.div_lt_upper_bound; lia. }
    assert (Hj3 : 3 * j <= Z.of_nat (length buf) < 3 * j + 3).
    { unfold j. pose proof (Z.div_mod (Z.of_nat (length buf)) 3 ltac:(lia)).
      pose proof (Z.mod_pos_bound (Z.of_nat (length buf)) 3 ltac:(lia)). lia. }
    replace n with (j + (n - j)) by lia.
    rewrite seqZ_app by lia. unfold run_threads. rewrite foldl_app.
    destruct (run_threads_prefix max_iter w h center zoom HM buf (Z.to_nat j))
      as (bufj & Hrun & Hl & _); [lia|].
    rewrite Z2Nat.id in Hrun by lia. unfold run_threads in Hrun. rewrite Hrun.
    rewrite Z.add_0_l, (seqZ_cons j (n - j)) by lia. cbn [foldl mbind option_bind].
    rewrite (plot_pixel_out_of_range max_iter w h center zoom HM j bufj)
      by (rewrite ?Hl; lia).
    apply run_threads_undefined.
  - intros Hlen. unfold plot_mandelbrot. rewrite Hidx.
    destruct (run_threads_prefix max_iter w h center zoom HM buf (Z.to_nat n))
      as (buf' & Hrun & Hl & Hcells & Hrest); [lia|].
    rewrite Z2Nat.id in Hrun, Hcells, Hrest by lia.
    exists buf'. split; [exact Hrun|]. split; [exact Hl|]. split.
    + intros i Hi. destruct (Hcells i Hi) as (r & g & b & Hrgb & H0 & H1 & H2).
      exists r, g, b.
      destruct (pixel_coords w Hw i ltac:(lia)) as [<- <-].
      repeat split; assumption.
    + intros k Hk. apply Hrest. lia.
Qed.

Lemma plot_mandelbrot_partial_witness :
  (0 < 50 <= C.INT_MAX /\ 0 < 20 /\ 0 < 20 /\ 20 * 20 * 3 <= C.INT_MAX) /\
  block_count 20 20 * threads_per_block = 20 * 20 - (20 * 20) mod 256 /\
  plot_mandelbrot 50 20 20 {| real := 0; imag := 0 |} 1 (replicate 767 0) = None.
Proof.
  assert (HM : 0 < 50 <= C.INT_MAX) by (split; [reflexivity|discriminate]).
  assert (Hw : 0 < 20) by reflexivity.
  assert (Hint : 20 * 20 * 3 <= C.INT_MAX) by discriminate.
  split; [exact (conj HM (conj Hw (conj Hw Hint)))|].
  destruct (plot_mandelbrot_partial 50 20 20 {| real := 0; imag := 0 |} 1
              (replicate 767 0) HM Hw Hw Hint) as (Hn & _ & _ & Hnone & _).
  split; [exact Hn|]. apply Hnone. reflexivity.
Defined.

(** X8: the threads of a launch may be scheduled in any order, whether or
    not 256 divides the number of pixels, for every image whose
    [width*height*3] bytes are counted by an [int] (so that the offsets
    of the source do not overflow): every order of the launched indices
    computes the buffer of [plot_mandelbrot]. *)
Theorem launch_schedule_independent (max_iter w h : Z) (center : comp) (zoom : float)
    (buf : list Z) (order : list Z) :
  0 < max_iter <= C.INT_MAX -> 0 < w -> 0 < h ->
  w * h * 3 <= C.INT_MAX ->
  3 * (block_count w h * threads_per_block) <= Z.of_nat (length buf) ->
  launch_indices (block_count w h) threads_per_block ≡ₚ order ->
  run_threads (plot_pixel max_iter w h center zoom) order buf
  = plot_mandelbrot max_iter w h center zoom buf.
Proof.
  intros HM Hw Hh _ Hlen Hperm.
  assert (Hwh : 0 < w * h) by nia.
  assert (Hbc : 0 <= block_count w h).
  { unfold block_count, threads_per_block.
    rewrite Z.quot_div_nonneg by lia. apply Z.div_pos; lia. }
  assert (Hidx : launch_indices (block_count w h) threads_per_block
                 = seqZ 0 (block_count w h * threads_per_block)).
  { apply launch_indices_seq; [exact Hbc|unfold threads_per_block; lia]. }
  unfold plot_mandelbrot, run_threads. symmetry.
  apply (run_threads_order max_iter w h center zoom HM _ _ (length buf));
    [exact Hperm| | |intros b [= <-]; reflexivity].
  - rewrite Hidx. apply NoDup_seqZ.
  - rewrite Hidx. apply Forall_seqZ. intros i Hi. lia.
Qed.

Lemma launch_schedule_independent_witness :
  let buf := replicate 768 0 in
  let order := reverse (launch_indices (block_count 16 16) threads_per_block) in
  (0 < 50 <= C.INT_MAX /\ 0 < 16 /\ 0 < 16 /\ 16 * 16 * 3 <= C.INT_MAX /\
   3 * (block_count 16 16 * threads_per_block) <= Z.of_nat (length buf) /\
   launch_indices (block_count 16 16) threads_per_block ≡ₚ order) /\
  run_threads (plot_pixel 50 16 16 {| real := 0; imag := 0 |} 1) order buf
  = plot_mandelbrot 50 16 16 {| real := 0; imag := 0 |} 1 buf.
Proof.
  intros buf order.
  assert (HM : 0 < 50 <= C.INT_MAX) by (split; [reflexivity|discriminate]).
  assert (Hw : 0 < 16) by reflexivity.
  assert (Hlen : 3 * (block_count 16 16 * threads_per_block) <= Z.of_nat (length buf))
    by discriminate.
  assert (Hperm : launch_indices (block_count 16 16) threads_per_block ≡ₚ order)
    by (symmetry; apply reverse_Permutation).
  assert (Hint : 16 * 16 * 3 <= C.INT_MAX) by discriminate.
  split; [exact (conj HM (conj Hw (conj Hw (conj Hint (conj Hlen Hperm)))))|].
  exact (launch_schedule_independent 50 16 16 {| real := 0; imag := 0 |} 1 buf order
           HM Hw Hw Hint Hlen Hperm).
Defined.

(** * The image handed to the JPEG writer *)

(** Pixel coordinates and thread index determine each other: the thread
    [py * width + px] decodes to [(px, py)] and stores at the row-major
    offset [3 * (py * width + px)]. *)
Lemma pixel_index_round_trip (w px py : Z) :
  0 <= px < w -> 0 <= py ->
  Z.rem (py * w + px) w = px /\ Z.quot (py * w + px) w = py /\
  pixel_byte w (py * w + px) = 3 * (py * w + px).
Proof.
  intros Hpx Hpy.
  assert (Hi : 0 <= py * w + px) by nia.
  destruct (pixel_coords w ltac:(lia) _ Hi) as [-> ->].
  rewrite (pixel_byte_linear w _ Hi).
  rewrite Z.add_comm, Z.mod_add, Z.div_add by lia.
  rewrite Z.mod_small, Z.div_small by lia. repeat split; lia.
Qed.

(** X9: after one launch the buffer is the image in row-major RGB order, as
    [stbi_write_jpg] reads it with 3 components: the bytes
    [3 * (py * width + px) + 0, 1, 2] are the red, green and blue of the
    colour computed for the point of pixel [(px, py)].  The image is one
    whose [width*height*3] bytes are counted by an [int], so that the
    offsets of the source, computed in [int], do not overflow. *)
Theorem plot_mandelbrot_row_major (max_iter w h : Z) (center : comp) (zoom : float)
    (buf : list Z) :
  0 < max_iter <= C.INT_MAX -> 0 < w -> 0 < h ->
  (w * h) mod threads_per_block = 0 ->
  w * h * 3 <= C.INT_MAX ->
  Z.of_nat (length buf) = w * h * 3 ->
  exists img,
    plot_mandelbrot max_iter w h center zoom buf = Some img /\
    Z.of_nat (length img) = w * h * 3 /\
    forall px py, 0 <= px < w -> 0 <= py < h ->
      exists r g b,
        colorize max_iter (iterate max_iter (map_pixel w h px py zoom center))
        = Some (r, g, b) /\
        C.in_int_range (3 * (py * w + px) + 2) = true /\
        img !! Z.to_nat (3 * (py * w + px) + 0) = Some r /\
        img !! Z.to_nat (3 * (py * w + px) + 1) = Some g /\
        img !! Z.to_nat (3 * (py * w + px) + 2) = Some b.
Proof.
  intros HM Hw Hh Hdiv Hint Hlen.
  destruct (plot_mandelbrot_frame max_iter w h center zoom buf HM Hw Hh Hdiv Hlen)
    as (img & Hrun & Hl & Hcells).
  exists img. split; [exact Hrun|]. split; [rewrite Hl; exact Hlen|].
  intros px py Hpx Hpy.
  assert (Hi : 0 <= py * w + px < w * h) by nia.
  destruct (Hcells _ Hi) as (r & g & b & Hrgb & H0 & H1 & H2).
  destruct (pixel_index_round_trip w px py Hpx ltac:(lia)) as (Hrem & Hquot & _).
  destruct (pixel_coords w Hw (py * w + px) ltac:(lia)) as [Em Ed].
  rewrite <- Em, <- Ed, Hrem, Hquot in Hrgb.
  exists r, g, b. rewrite Z.add_0_r.
  split; [exact Hrgb|]. split; [|repeat split; assumption].
  unfold C.in_int_range, C.INT_MIN. unfold C.INT_MAX in Hint.
  apply andb_true_intro. split; apply Z.leb_le; unfold C.INT_MAX; lia.
Qed.

Lemma plot_mandelbrot_row_major_witness :
  let buf := replicate 768 0 in
  (0 < 50 <= C.INT_MAX /\ 0 < 16 /\ 0 < 16 /\
   (16 * 16) mod threads_per_block = 0 /\
   16 * 16 * 3 <= C.INT_MAX /\
   Z.of_nat (length buf) = 16 * 16 * 3) /\
  exists img,
    plot_mandelbrot 50 16 16 {| real := 0; imag := 0 |} 1 buf = Some img /\
    Z.of_nat (length img) = 16 * 16 * 3.
Proof.
  intros buf.
  assert (HM : 0 < 50 <= C.INT_MAX) by (split; [reflexivity|discriminate]).
  assert (Hw : 0 < 16) by reflexivity.
  assert (Hdiv : (16 * 16) mod threads_per_block = 0) by reflexivity.
  assert (Hlen : Z.of_nat (length buf) = 16 * 16 * 3) by reflexivity.
  assert (Hint : 16 * 16 * 3 <= C.INT_MAX) by discriminate.
  split; [exact (conj HM (conj Hw (conj Hw (conj Hdiv (conj Hint Hlen)))))|].
  destruct (plot_mandelbrot_row_major 50 16 16 {| real := 0; imag := 0 |} 1 buf
              HM Hw Hw Hdiv Hint Hlen) as (img & Hrun & Hl & _).
  exists img. split; assumption.
Defined.

(** X10: [main] draws every frame into the same buffer, which it never
    initialises.  When 256 divides [width*height] a launch overwrites the
    whole buffer: the image does not depend on what the buffer held
    before, so neither stale bytes of the previous frame nor
    uninitialised memory reach the JPEG writer.  The buffer size
    [width*height*3] is an [int], as the allocation and the offsets of
    the source compute it. *)
Theorem plot_mandelbrot_overwrites (max_iter w h : Z) (center : comp) (zoom : float)
    (buf1 buf2 : list Z) :
  0 < max_iter <= C.INT_MAX -> 0 < w -> 0 < h ->
  (w * h) mod threads_per_block = 0 ->
  w * h * 3 <= C.INT_MAX ->
  Z.of_nat (length buf1) = w * h * 3 ->
  Z.of_nat (length buf2) = w * h * 3 ->
  plot_mandelbrot max_iter w h center zoom buf1
  = plot_mandelbrot max_iter w h center zoom buf2.
Proof.
  intros HM Hw Hh Hdiv _ Hlen1 Hlen2.
  destruct (plot_mandelbrot_frame max_iter w h center zoom buf1 HM Hw Hh Hdiv Hlen1)
    as (img1 & -> & Hl1 & Hc1).
  destruct (plot_mandelbrot_frame max_iter w h center zoom buf2 HM Hw Hh Hdiv Hlen2)
    as (img2 & -> & Hl2 & Hc2).
  f_equal. apply list_eq. intros k.
  destruct (Z_lt_le_dec (Z.of_nat k) (w * h * 3)) as [Hk|Hk].
  - pose proof (Z.div_mod (Z.of_nat k) 3 ltac:(lia)) as Hdm.
    pose proof (Z.mod_pos_bound (Z.of_nat k) 3 ltac:(lia)) as Hm.
    set (i := Z.of_nat k / 3) in *.
    assert (Hi : 0 <= i < w * h).
    { unfold i. split; [apply Z.div_pos; lia|apply Z.div_lt_upper_bound; lia]. }
    destruct (Hc1 i Hi) as (r & g & b & Hrgb & A0 & A1 & A2).
    destruct (Hc2 i Hi) as (r' & g' & b' & Hrgb' & B0 & B1 & B2).
    rewrite Hrgb in Hrgb'. injection Hrgb' as <- <- <-.
    assert (Hcase : Z.of_nat k mod 3 = 0 \/ Z.of_nat k mod 3 = 1 \/ Z.of_nat k mod 3 = 2)
      by lia.
    destruct Hcase as [E|[E|E]].
    + replace k with (Z.to_nat (3 * i)) by lia. now rewrite A0, B0.
    + replace k with (Z.to_nat (3 * i + 1)) by lia. now rewrite A1, B1.
    + replace k with (Z.to_nat (3 * i + 2)) by lia. now rewrite A2, B2.
  - rewrite !lookup_ge_None_2; [reflexivity|lia|lia].
Qed.

Lemma plot_mandelbrot_overwrites_witness :
  (0 < 50 <= C.INT_MAX /\ 0 < 16 /\ 0 < 16 /\
   (16 * 16) mod threads_per_block = 0 /\
   16 * 16 * 3 <= C.INT_MAX /\
   Z.of_nat (length (replicate 768 0)) = 16 * 16 * 3 /\
   Z.of_nat (length (replicate 768 255)) = 16 * 16 * 3) /\
  plot_mandelbrot 50 16 16 {| real := 0; imag := 0 |} 1 (replicate 768 0)
  = plot_mandelbrot 50 16 16 {| real := 0; imag := 0 |} 1 (replicate 768 255).
Proof.
  assert (HM : 0 < 50 <= C.INT_MAX) by (split; [reflexivity|discriminate]).
  assert (Hw : 0 < 16) by reflexivity.
  assert (Hdiv : (16 * 16) mod threads_per_block = 0) by reflexivity.
  assert (Hl1 : Z.of_nat (length (replicate 768 0)) = 16 * 16 * 3) by reflexivity.
  assert (Hl2 : Z.of_nat (length (replicate 768 255)) = 16 * 16 * 3) by reflexivity.
  assert (Hint : 16 * 16 * 3 <= C.INT_MAX) by discriminate.
  split; [exact (conj HM (conj Hw (conj Hw (conj Hdiv (conj Hint (conj Hl1 Hl2))))))|].
  exact (plot_mandelbrot_overwrites 50 16 16 {| real := 0; imag := 0 |} 1
           (replicate 768 0) (replicate 768 255) HM Hw Hw Hdiv Hint Hl1 Hl2).
Defined.
(** * The frames of [main] *)

Lemma zoom_at_shift (z zf : float) (k : nat) :
  zoom_at (z * zf) zf k = zoom_at z zf (S k).
Proof.
  unfold zoom_at. set (f := fun z0 : float => (z0 * zf)%float).
  induction k as [|k IH]; [reflexivity|].
  change (f (Nat.iter k f (z * zf)%float) = f (Nat.iter (S k) f z)).
  now rewrite IH.
Qed.

Lemma progress_defined (id n pct : Z) :
  0 <= id ->
  progress id n = Some pct <->
  n <> 0 /\ id * 100 <= C.INT_MAX /\ pct = Z.quot (id * 100) n.
Proof.
  intros Hid. unfold progress, C.in_int_range, C.INT_MIN.
  destruct (Z.eqb_spec n 0) as [->|Hn]; cbn [orb].
  - split; [discriminate|]. intros [H _]. now contradiction H.
  - replace (- 2 ^ 31 <=? id * 100) with true by (symmetry; apply Z.leb_le; lia).
    cbn [andb]. destruct (Z.leb_spec (id * 100) C.INT_MAX) as [Hle|Hgt]; cbn [negb].
    + split; [intros [= <-]; auto|]. intros (_ & _ & ->). reflexivity.
    + split; [discriminate|]. intros (_ & H & _). lia.
Qed.

Lemma frames_from_cons (n : Z) (z zf : float) (id : Z) (count : nat) :
  frames_from n z zf id (S count)
  = mkFrame id z (Z.quot (id * 100) n) :: frames_from n (z * zf) zf (id + 1) count.
Proof.
  unfold frames_from. cbn [seq fmap list_fmap].
  change (zoom_at z zf 0) with z. rewrite Z.add_0_r. f_equal.
  rewrite <- fmap_S_seq, <- list_fmap_compose.
  apply list_fmap_ext. intros i k _. cbn [compose].
  rewrite zoom_at_shift. rewrite Nat2Z.inj_succ.
  replace (id + 1 + Z.of_nat k) with (id + Z.succ (Z.of_nat k)) by lia. reflexivity.
Qed.

Lemma frames_from_length (n : Z) (z zf : float) (id : Z) (count : nat) :
  length (frames_from n z zf id count) = count.
Proof. unfold frames_from. now rewrite length_fmap, length_seq. Qed.

(** The loop entered with [zoom = z] and [img_id = id]. *)
Lemma zoom_loop_frames_from (fuel : nat) (n : Z) (ze zf z : float) (id : Z)
    (fs : list frame) :
  0 <= id ->
  zoom_loop n ze zf fuel z id = Done fs <->
  (length fs <= fuel)%nat /\
  fs = frames_from n z zf id (length fs) /\
  (forall k : nat, (k < length fs)%nat ->
     (zoom_at z zf k <=? ze)%float = true /\ n <> 0 /\
     (id + Z.of_nat k) * 100 <= C.INT_MAX) /\
  (zoom_at z zf (length fs) <=? ze)%float = false.
Proof.
  revert z id fs. induction fuel as [|fuel IH]; intros z id fs Hid; cbn [zoom_loop].
  - destruct (z <=? ze)%float eqn:Ez.
    + split; [discriminate|]. intros (Hlen & _ & _ & Hstop).
      destruct fs; [|cbn in Hlen; lia]. cbn in Hstop. congruence.
    + split.
      * intros [= <-]. cbn.
        repeat split; try lia; try assumption; try (intros k Hk; lia).
      * intros (Hlen & _). destruct fs; [reflexivity|cbn in Hlen; lia].
  - destruct (z <=? ze)%float eqn:Ez.
    + split.
      * destruct (progress id n) as [pct|] eqn:Ep; [|discriminate].
        destruct (zoom_loop n ze zf fuel (z * zf) (id + 1)) as [fs'| |] eqn:E;
          try discriminate.
        intros [= <-].
        apply (progress_defined _ _ _ Hid) in Ep as (Hn & Hmax & ->).
        apply (IH (z * zf)%float (id + 1) fs' ltac:(lia)) in E as (Hlen & Hfs & Hk & Hstop).
        cbn [length]. rewrite frames_from_cons, <- Hfs.
        split; [lia|]. split; [reflexivity|]. split.
        -- intros [|k] Hlt.
           ++ rewrite Z.add_0_r. now repeat split.
           ++ destruct (Hk k ltac:(lia)) as (Hz & _ & Hm).
              rewrite zoom_at_shift in Hz. repeat split; try assumption. lia.
        -- rewrite <- zoom_at_shift. exact Hstop.
      * intros (Hlen & Hfs & Hk & Hstop).
        destruct fs as [|f fs']; [cbn in Hstop; congruence|].
        cbn [length] in *. rewrite frames_from_cons in Hfs.
        injection Hfs as Hf Hfs'.
        destruct (Hk 0%nat ltac:(lia)) as (_ & Hn & Hmax). rewrite Z.add_0_r in Hmax.
        rewrite (proj2 (progress_defined id n _ Hid) (conj Hn (conj Hmax eq_refl))).
        rewrite (proj2 (IH (z * zf)%float (id + 1) fs' ltac:(lia))).
        -- now rewrite Hf.
        -- split; [lia|]. split; [exact Hfs'|]. split.
           ++ intros k Hlt. destruct (Hk (S k) ltac:(lia)) as (Hz & _ & Hm).
              rewrite zoom_at_shift. repeat split; try assumption. lia.
           ++ rewrite zoom_at_shift. exact Hstop.
    + split.
      * intros [= <-]. cbn.
        repeat split; try lia; try assumption; try (intros k Hk; lia).
      * intros (_ & _ & Hk & _). destruct fs as [|f fs']; [reflexivity|].
        destruct (Hk 0%nat ltac:(cbn; lia)) as (Hz & _). cbn in Hz. congruence.
Qed.

(** X11: the loop of [main] ends with the frames [fs] exactly when, with
    [count] their number: frame [k] is image [k], drawn at the zoom
    obtained from [zoom_start] by [k] rounded multiplications by
    [zoom_fact] and announced with the percentage [k * 100 / img_count];
    each of these zooms passes the test [zoom <= zoom_end] and the zoom
    after the last frame is the first that fails it; [img_count] is not
    zero and [k * 100] stays an [int]; and [count] passes are allowed. *)
Theorem zoom_loop_frames (fuel : nat) (n : Z) (ze zf zs : float) (fs : list frame) :
  zoom_loop n ze zf fuel zs 0 = Done fs <->
  (length fs <= fuel)%nat /\
  fs = frames_from n zs zf 0 (length fs) /\
  (forall k : nat, (k < length fs)%nat ->
     (zoom_at zs zf k <=? ze)%float = true /\ n <> 0 /\
     Z.of_nat k * 100 <= C.INT_MAX) /\
  (zoom_at zs zf (length fs) <=? ze)%float = false.
Proof.
  rewrite (zoom_loop_frames_from fuel n ze zf zs 0 fs ltac:(lia)).
  split; intros (Hlen & Hfs & Hk & Hstop);
    (split; [exact Hlen|]; split; [exact Hfs|]; split; [|exact Hstop]);
    intros k Hlt; destruct (Hk k Hlt) as (Hz & Hn & Hm);
    (split; [exact Hz|]; split; [exact Hn|]; lia).
Qed.

Lemma zoom_loop_frames_witness :
  zoom_loop 3 10 2 4 1 0
  = Done [mkFrame 0 1 0; mkFrame 1 2 33; mkFrame 2 4 66; mkFrame 3 8 100] /\
  (zoom_at 1 2 4 <=? 10)%float = false.
Proof.
  assert (H : zoom_loop 3 10 2 4 1 0
              = Done [mkFrame 0 1 0; mkFrame 1 2 33; mkFrame 2 4 66; mkFrame 3 8 100])
    by reflexivity.
  split; [exact H|].
  exact (proj2 (proj2 (proj2 (proj1 (zoom_loop_frames 4 3 10 2 1 _) H)))).
Defined.

(** * Runs of [main] that do not end normally *)

Lemma zoom_loop_stalled (fuel : nat) (n : Z) (ze zf z : float) (id : Z) (fs : list frame) :
  (z <=? ze)%float = true -> (z * zf)%float = z ->
  zoom_loop n ze zf fuel z id <> Done fs.
Proof.
  intros Hz Hfix. revert id fs.
  induction fuel as [|fuel IH]; intros id fs; simpl; rewrite Hz; [discriminate|].
  destruct (progress id n); [|discriminate].
  rewrite Hfix.
  destruct (zoom_loop n ze zf fuel z (id + 1)) as [fs'| |] eqn:E; try discriminate.
  now contradiction (IH (id + 1) fs').
Qed.

(** X12: a zoom that the multiplication by [zoom_fact] leaves unchanged (a
    factor of 1.0, a start of 0.0, an infinite start and end) and that
    passes the test [zoom <= zoom_end] keeps the loop going: no run of
    [main] ends normally, however many passes are allowed; it only stops
    at an undefined operation, such as the overflow of [img_id * 100]. *)
Theorem main_stalled_zoom (log : float -> float) (zs ze zf : float) :
  (zs <=? ze)%float = true -> (zs * zf)%float = zs ->
  forall (fuel : nat) (r : Z * list frame), main log zs ze zf fuel <> Done r.
Proof.
  intros Hz Hfix fuel r. unfold main.
  destruct (img_count log zs ze zf) as [n|]; [|discriminate].
  destruct (zoom_loop n ze zf fuel zs 0) as [fs| |] eqn:E; try discriminate.
  now contradiction (zoom_loop_stalled fuel n ze zf zs 0 fs).
Qed.

Lemma main_stalled_zoom_witness :
  ((1 <=? 10)%float = true /\ (1 * 1)%float = 1%float) /\
  forall (fuel : nat) (r : Z * list frame), main log_series 1 10 1 fuel <> Done r.
Proof.
  split; [split; reflexivity|].
  apply (main_stalled_zoom log_series 1 10 1); reflexivity.
Defined.

(** X13: when the estimate [img_count] is 0 (the zoom range is shorter than
    one step) and the first test [zoom_start <= zoom_end] passes, the
    percentage of the first frame divides by zero: the run is undefined
    before any image is written. *)
Theorem main_zero_estimate (log : float -> float) (zs ze zf : float) (fuel : nat) :
  img_count log zs ze zf = Some 0 -> (zs <=? ze)%float = true ->
  main log zs ze zf (S fuel) = Undefined.
Proof.
  intros Hn Hz. unfold main. rewrite Hn.
  now rewrite (zoom_loop_zero_estimate fuel ze zf zs 0 Hz).
Qed.

Lemma main_zero_estimate_witness :
  (img_count log_series 1 1.5 2 = Some 0 /\ (1 <=? 1.5)%float = true) /\
  main log_series 1 1.5 2 1 = Undefined.
Proof.
  assert (Hn : img_count log_series 1 1.5 2 = Some 0) by reflexivity.
  assert (Hz : (1 <=? 1.5)%float = true) by reflexivity.
  split; [exact (conj Hn Hz)|].
  exact (main_zero_estimate log_series 1 1.5 2 0 Hn Hz).
Defined.
(** * The file names of the frames *)

Section FileNames.
Import FileName.

Lemma decimal_from_length (fuel : nat) (n : Z) (acc : list Ascii.ascii) :
  (length acc + 1 <= length (decimal_from (S fuel) n acc) <= length acc + S fuel)%nat.
Proof.
  revert n acc. induction fuel as [|fuel IH]; intros n acc.
  - cbn [decimal_from]. destruct (n <? 10); cbn [length]; lia.
  - change (decimal_from (S (S fuel)) n acc)
      with (if n <? 10 then digit (n mod 10) :: acc
            else decimal_from (S fuel) (n / 10) (digit (n mod 10) :: acc)).
    destruct (n <? 10); [cbn [length]; lia|].
    specialize (IH (n / 10) (digit (n mod 10) :: acc)). cbn [length] in IH. lia.
Qed.

(** A number below [10^(k+1)] has at most [k+1] digits. *)
Lemma decimal_from_small (k fuel : nat) (n : Z) (acc : list Ascii.ascii) :
  0 <= n < 10 ^ Z.of_nat (S k) -> (k <= fuel)%nat ->
  (length (decimal_from (S fuel) n acc) <= length acc + S k)%nat.
Proof.
  revert fuel n acc. induction k as [|k IH]; intros fuel n acc Hn Hk.
  - cbn [decimal_from]. replace (n <? 10) with true
      by (symmetry; apply Z.ltb_lt; change (10 ^ Z.of_nat 1) with 10 in Hn; lia).
    cbn [length]. lia.
  - destruct fuel as [|fuel]; [lia|].
    change (decimal_from (S (S fuel)) n acc)
      with (if n <? 10 then digit (n mod 10) :: acc
            else decimal_from (S fuel) (n / 10) (digit (n mod 10) :: acc)).
    destruct (n <? 10); [cbn [length]; lia|].
    assert (Hq : 0 <= n / 10 < 10 ^ Z.of_nat (S k)).
    { split; [apply Z.div_pos; lia|].
      apply Z.div_lt_upper_bound; [lia|].
      rewrite (Nat2Z.inj_succ (S k)), Z.pow_succ_r in Hn by lia. lia. }
    specialize (IH fuel (n / 10) (digit (n mod 10) :: acc) Hq ltac:(lia)).
    cbn [length] in IH. lia.
Qed.

Lemma zero_pad_length (width : nat) (s : list Ascii.ascii) :
  length (zero_pad width s) = Nat.max width (length s).
Proof. unfold zero_pad. rewrite length_app, length_replicate. lia. Qed.

Lemma decimal_value_from (s : list Ascii.ascii) (a : Z) :
  foldl (fun a c => 10 * a + digit_value c) a s
  = a * 10 ^ Z.of_nat (length s) + decimal_value s.
Proof.
  unfold decimal_value. revert a. induction s as [|c s IH]; intros a.
  - cbn. lia.
  - cbn [foldl length]. rewrite IH, (IH (10 * 0 + digit_value c)).
    rewrite Nat2Z.inj_succ, Z.pow_succ_r by lia. lia.
Qed.

Lemma decimal_value_cons (c : Ascii.ascii) (s : list Ascii.ascii) :
  decimal_value (c :: s) = digit_value c * 10 ^ Z.of_nat (length s) + decimal_value s.
Proof.
  unfold decimal_value at 1. cbn [foldl]. rewrite decimal_value_from. lia.
Qed.

Lemma digit_value_digit (d : Z) : 0 <= d <= 9 -> digit_value (digit d) = d.
Proof.
  intros Hd. unfold digit_value, digit.
  rewrite Ascii.nat_ascii_embedding by lia. lia.
Qed.

(** Reading the digits written gives the number back. *)
Lemma decimal_from_value (fuel : nat) (n : Z) (acc : list Ascii.ascii) :
  0 <= n < 10 ^ Z.of_nat fuel ->
  decimal_value (decimal_from fuel n acc)
  = n * 10 ^ Z.of_nat (length acc) + decimal_value acc.
Proof.
  revert n acc. induction fuel as [|fuel IH]; intros n acc Hn.
  - change (10 ^ Z.of_nat 0) with 1 in Hn. cbn [decimal_from].
    replace n with 0 by lia. lia.
  - cbn [decimal_from].
    pose proof (Z.mod_pos_bound n 10 ltac:(lia)) as Hm.
    pose proof (Z.div_mod n 10 ltac:(lia)) as Hdm.
    destruct (n <? 10) eqn:E.
    + apply Z.ltb_lt in E. rewrite decimal_value_cons, digit_value_digit by lia.
      rewrite Z.mod_small by lia. reflexivity.
    + apply Z.ltb_ge in E.
      assert (Hq : 0 <= n / 10 < 10 ^ Z.of_nat fuel).
      { split; [apply Z.div_pos; lia|].
        apply Z.div_lt_upper_bound; [lia|].
        rewrite Nat2Z.inj_succ, Z.pow_succ_r in Hn by lia. lia. }
      rewrite (IH _ _ Hq), decimal_value_cons, digit_value_digit by lia.
      cbn [length]. rewrite Nat2Z.inj_succ, Z.pow_succ_r by lia.
      set (P := 10 ^ Z.of_nat (length acc)). nia.
Qed.

Lemma zero_pad_value (width : nat) (s : list Ascii.ascii) :
  decimal_value (zero_pad width s) = decimal_value s.
Proof.
  unfold zero_pad. induction (width - length s)%nat as [|k IH]; [reflexivity|].
  cbn [replicate app]. rewrite decimal_value_cons, IH. reflexivity.
Qed.

Lemma format_06d_value (n : Z) :
  0 <= n <= C.INT_MAX -> decimal_value (format_06d n) = n.
Proof.
  intros Hn. unfold format_06d, decimal, C.INT_MAX in *.
  replace (n <? 0) with false by (symmetry; apply Z.ltb_ge; lia).
  rewrite zero_pad_value, decimal_from_value.
  - cbn [length]. change (10 ^ Z.of_nat 0) with 1. change (decimal_value []) with 0. lia.
  - change (10 ^ Z.of_nat 10) with 10000000000. lia.
Qed.

Lemma format_06d_length (n : Z) :
  (6 <= length (format_06d n) <= 11)%nat /\
  (0 <= n < 10 ^ 6 -> length (format_06d n) = 6%nat).
Proof.
  unfold format_06d, decimal.
  destruct (n <? 0) eqn:E.
  - apply Z.ltb_lt in E. split; [|lia].
    cbn [length]. rewrite zero_pad_length.
    pose proof (decimal_from_length 9 (- n) []) as H. cbn [length] in H. lia.
  - apply Z.ltb_ge in E. rewrite zero_pad_length.
    pose proof (decimal_from_length 9 n []) as H. cbn [length] in H.
    split; [lia|]. intros Hn.
    pose proof (decimal_from_small 5 9 n [] ltac:(change (10 ^ Z.of_nat 6) with (10 ^ 6); lia)
                  ltac:(lia)) as Hs.
    cbn [length] in Hs. lia.
Qed.
End FileNames.

(** X14: the name built by [sprintf] never overruns [char file_name[32]]: for
    every [int] it has between 18 and 23 characters, so at most 24 bytes
    are written with the terminating null; and the names of the frames
    0 to 999999 all have exactly 18 characters. *)
Theorem file_name_fits (img_id : Z) :
  C.in_int_range img_id = true ->
  (18 <= Z.of_nat (length (FileName.file_name img_id)) <= 23) /\
  FileName.sprintf_file_name img_id = Some (FileName.file_name img_id) /\
  (0 <= img_id < 10 ^ 6 -> Z.of_nat (length (FileName.file_name img_id)) = 18).
Proof.
  intros _.
  destruct (format_06d_length img_id) as [Hlen Hsix].
  assert (Hl : length (FileName.file_name img_id)
               = (7 + length (FileName.format_06d img_id) + 5)%nat).
  { unfold FileName.file_name. rewrite !length_app. cbn [length]. lia. }
  split; [lia|]. split.
  - unfold FileName.sprintf_file_name, FileName.file_name_size. cbv zeta.
    replace (_ <=? 32) with true by (symmetry; apply Z.leb_le; lia). reflexivity.
  - intros Hn. rewrite Hl, (Hsix Hn). reflexivity.
Qed.

Lemma file_name_fits_witness :
  C.in_int_range 5484 = true /\
  FileName.sprintf_file_name 5484 = Some (FileName.file_name 5484) /\
  Z.of_nat (length (FileName.file_name 5484)) = 18.
Proof.
  assert (Hr : C.in_int_range 5484 = true) by reflexivity.
  split; [exact Hr|].
  destruct (file_name_fits 5484 Hr) as (_ & Hs & Hl).
  split; [exact Hs|]. apply Hl. split; [discriminate|reflexivity].
Defined.

(** X15: two different frame numbers never get the same file name: no frame
    overwrites the image of another. *)
Theorem file_name_distinct (a b : Z) :
  0 <= a <= C.INT_MAX -> 0 <= b <= C.INT_MAX -> a <> b ->
  FileName.file_name a <> FileName.file_name b.
Proof.
  intros Ha Hb Hab Heq. apply Hab. unfold FileName.file_name in Heq.
  apply app_inv_head in Heq. apply app_inv_tail in Heq.
  rewrite <- (format_06d_value a Ha), <- (format_06d_value b Hb).
  now rewrite Heq.
Qed.

Lemma file_name_distinct_witness :
  (0 <= 5483 <= C.INT_MAX /\ 0 <= 5484 <= C.INT_MAX /\ 5483 <> 5484) /\
  FileName.file_name 5483 <> FileName.file_name 5484.
Proof.
  assert (Ha : 0 <= 5483 <= C.INT_MAX) by (split; discriminate).
  assert (Hb : 0 <= 5484 <= C.INT_MAX) by (split; discriminate).
  assert (Hab : 5483 <> 5484) by discriminate.
  split; [exact (conj Ha (conj Hb Hab))|].
  exact (file_name_distinct 5483 5484 Ha Hb Hab).
Defined.

Module FileNameExamples.
Import Ascii.

(** The first and the last image of the reference run, and a negative
    number. *)
Example file_name_values :
  FileName.file_name 0
  = ["i"; "m"; "a"; "g"; "e"; "s"; "/"; "0"; "0"; "0"; "0"; "0"; "0";
     "."; "j"; "p"; "e"; "g"]%char /\
  FileName.file_name 5484
  = ["i"; "m"; "a"; "g"; "e"; "s"; "/"; "0"; "0"; "5"; "4"; "8"; "4";
     "."; "j"; "p"; "e"; "g"]%char /\
  FileName.format_06d (-42) = ["-"; "0"; "0"; "0"; "4"; "2"]%char /\
  FileName.format_06d 1234567 = ["1"; "2"; "3"; "4"; "5"; "6"; "7"]%char.
Proof. repeat split. Qed.
End FileNameExamples.
(** * Deep zooms: every pixel maps to the centre *)

(** ** Rounding to nearest *)

Lemma shr_1_full (m : Z) (r s : bool) :
  0 <= m ->
  shr_1 {| shr_m := m; shr_r := r; shr_s := s |}
  = {| shr_m := Z.div2 m; shr_r := Z.odd m; shr_s := r || s |}.
Proof. destruct m as [|[p|p|]|p]; try lia; intros _; reflexivity. Qed.

Lemma iter_pos_nat {A : Type} (f : A -> A) (p : positive) (x : A) :
  SpecFloat.iter_pos f p x = Nat.iter (Pos.to_nat p) f x.
Proof.
  revert x. induction p as [p IH|p IH|]; intros x; cbn [SpecFloat.iter_pos].
  - rewrite !IH, Pos2Nat.inj_xI.
    replace (S (2 * Pos.to_nat p)) with (Pos.to_nat p + Pos.to_nat p + 1)%nat by lia.
    rewrite !Nat.iter_add. reflexivity.
  - rewrite !IH, Pos2Nat.inj_xO.
    replace (2 * Pos.to_nat p)%nat with (Pos.to_nat p + Pos.to_nat p)%nat by lia.
    rewrite Nat.iter_add. reflexivity.
  - reflexivity.
Qed.

(** The bit shifted out last and whether anything was shifted out
    before it. *)
Lemma shr_steps (M : Z) (k : nat) :
  0 <= M ->
  Nat.iter (S k) shr_1 {| shr_m := M; shr_r := false; shr_s := false |}
  = {| shr_m := M / 2 ^ Z.of_nat (S k);
       shr_r := Z.odd (M / 2 ^ Z.of_nat k);
       shr_s := negb (M mod 2 ^ Z.of_nat k =? 0) |}.
Proof.
  intros HM. induction k as [|k IH].
  - change (Nat.iter 1 shr_1 ?x) with (shr_1 x). rewrite shr_1_full by exact HM.
    change (2 ^ Z.of_nat 1) with 2. change (2 ^ Z.of_nat 0) with 1.
    rewrite Z.div2_div, Z.div_1_r, Z.mod_1_r. reflexivity.
  - rewrite Nat.iter_succ, IH.
    assert (HP : 0 < 2 ^ Z.of_nat k) by (apply pow2_pos; lia).
    assert (HS : 2 ^ Z.of_nat (S k) = 2 ^ Z.of_nat k * 2)
      by (rewrite Nat2Z.inj_succ, Z.pow_succ_r by lia; ring).
    rewrite shr_1_full by (apply Z.div_pos; lia).
    f_equal.
    + rewrite Z.div2_div, Z.div_div by lia.
      rewrite (Nat2Z.inj_succ (S k)), Z.pow_succ_r by lia.
      f_equal. ring.
    + rewrite HS, Z.rem_mul_r by lia.
      pose proof (Z.mod_pos_bound M (2 ^ Z.of_nat k) HP) as Hm.
      rewrite Zmod_odd.
      destruct (Z.odd (M / 2 ^ Z.of_nat k)); cbn [orb].
      * symmetry. apply negb_true_iff, Z.eqb_neq. lia.
      * rewrite Z.mul_0_r, Z.add_0_r. reflexivity.
Qed.

(** Shifting an exact mantissa right by [n > 0] places. *)
Lemma shr_fexp_exact (mx ex : Z) :
  0 <= mx ->
  let n := fexp prec emax (Zdigits2 mx + ex) - ex in
  0 < n ->
  fst (shr_fexp prec emax mx ex loc_Exact)
  = {| shr_m := mx / 2 ^ n;
       shr_r := Z.odd (mx / 2 ^ (n - 1));
       shr_s := negb (mx mod 2 ^ (n - 1) =? 0) |}.
Proof.
  intros Hmx n Hn. unfold shr_fexp, shr. fold n.
  destruct n as [|p|p] eqn:En; try lia. cbn [fst shr_record_of_loc].
  rewrite iter_pos_nat.
  destruct (Pos.to_nat p) as [|k] eqn:Ek; [lia|].
  rewrite shr_steps by exact Hmx.
  replace (Z.of_nat (S k)) with (Zpos p) by lia.
  replace (Z.of_nat k) with (Zpos p - 1) by lia. reflexivity.
Qed.

(** Rounding to nearest: a mantissa [q * 2^n + t] with [|t|] below half
    a unit of [q] rounds to [q]. *)
Lemma binary_round_aux_nearest (s : bool) (q : positive) (n t ex : Z) :
  2 ^ 52 <= Zpos q < 2 ^ 53 ->
  0 < n -> - 2 ^ (n - 1) < t < 2 ^ (n - 1) ->
  2 ^ (52 + n) <= Zpos q * 2 ^ n + t ->
  -1074 <= ex + n <= 971 ->
  binary_round_aux prec emax s (Zpos q * 2 ^ n + t) ex loc_Exact
  = S754_finite s q (ex + n).
Proof.
  intros Hq Hn Ht Hlow He.
  set (M := Zpos q * 2 ^ n + t) in *.
  assert (HPn : 0 < 2 ^ n) by (apply pow2_pos; lia).
  assert (HPn1 : 0 < 2 ^ (n - 1)) by (apply pow2_pos; lia).
  assert (H2n : 2 ^ n = 2 * 2 ^ (n - 1)).
  { replace n with (Z.succ (n - 1)) at 1 by lia. rewrite Z.pow_succ_r by lia. ring. }
  assert (H52 : 2 ^ (52 + n) = 2 ^ 52 * 2 ^ n) by (rewrite Z.pow_add_r by lia; ring).
  assert (H53 : 2 ^ (53 + n) = 2 ^ 53 * 2 ^ n) by (rewrite Z.pow_add_r by lia; ring).
  assert (HM : 0 < M) by (pose proof (pow2_pos (52 + n) ltac:(lia)); lia).
  assert (Hdig : Zdigits2 M = 53 + n).
  { apply Zdigits2_unique; [exact HM| |lia].
    replace (53 + n - 1) with (52 + n) by lia. split; [exact Hlow|].
    rewrite H53. unfold M. nia. }
  assert (Hshift : fexp prec emax (Zdigits2 M + ex) - ex = n).
  { rewrite Hdig, fexp_eq. lia. }
  rewrite binary_round_aux_unfold. cbv zeta.
  destruct (shr_fexp_spec M ex loc_Exact ltac:(lia)) as (He1 & Hq1 & Hl1).
  rewrite Hshift, Z.max_r in He1, Hq1, Hl1 by lia.
  pose proof (shr_fexp_exact M ex ltac:(lia)) as Hrec. cbv zeta in Hrec.
  rewrite Hshift in Hrec. specialize (Hrec Hn).
  set (st1 := shr_fexp prec emax M ex loc_Exact) in *.
  assert (Hround : round_nearest_even (shr_m (fst st1)) (loc_of_shr_record (fst st1))
                   = Zpos q).
  { rewrite Hrec. cbn [shr_m].
    destruct (Z.lt_trichotomy t 0) as [Hneg|[Hzero|Hpos]].
    - (* below: the quotient is q - 1 and more than half is left *)
      assert (Hdiv : M / 2 ^ n = Zpos q - 1).
      { symmetry. apply (Z.div_unique M (2 ^ n) (Zpos q - 1) (2 ^ n + t)); [lia|].
        unfold M. ring. }
      assert (Hdiv1 : M / 2 ^ (n - 1) = 1 + 2 * (Zpos q - 1)).
      { symmetry.
        apply (Z.div_unique M (2 ^ (n - 1)) (1 + 2 * (Zpos q - 1)) (2 ^ (n - 1) + t));
          [lia|]. unfold M. rewrite H2n. ring. }
      assert (Hmod1 : M mod 2 ^ (n - 1) = 2 ^ (n - 1) + t).
      { symmetry.
        apply (Z.mod_unique M (2 ^ (n - 1)) (2 * (Zpos q - 1) + 1) (2 ^ (n - 1) + t));
          [lia|]. unfold M. rewrite H2n. ring. }
      rewrite Hdiv, Hdiv1, Hmod1.
      rewrite Z.odd_add_mul_2. cbn [Z.odd].
      replace (2 ^ (n - 1) + t =? 0) with false by (symmetry; apply Z.eqb_neq; lia).
      cbn. lia.
    - assert (Hdiv : M / 2 ^ n = Zpos q).
      { unfold M. rewrite Hzero, Z.add_0_r. apply Z.div_mul. lia. }
      assert (Hdiv1 : M / 2 ^ (n - 1) = 2 * Zpos q).
      { unfold M. rewrite Hzero, Z.add_0_r, H2n.
        replace (Zpos q * (2 * 2 ^ (n - 1))) with (2 * Zpos q * 2 ^ (n - 1)) by ring.
        apply Z.div_mul. lia. }
      assert (Hmod1 : M mod 2 ^ (n - 1) = 0).
      { unfold M. rewrite Hzero, Z.add_0_r, H2n.
        replace (Zpos q * (2 * 2 ^ (n - 1))) with (2 * Zpos q * 2 ^ (n - 1)) by ring.
        apply Z.mod_mul. lia. }
      rewrite Hdiv, Hdiv1, Hmod1.
      replace (2 * Zpos q) with (0 + 2 * Zpos q) by lia.
      rewrite Z.odd_add_mul_2. reflexivity.
    - assert (Hdiv : M / 2 ^ n = Zpos q).
      { symmetry. apply (Z.div_unique M (2 ^ n) (Zpos q) t); [lia|].
        unfold M. ring. }
      assert (Hdiv1 : M / 2 ^ (n - 1) = 2 * Zpos q).
      { symmetry. apply (Z.div_unique M (2 ^ (n - 1)) (2 * Zpos q) t); [lia|].
        unfold M. rewrite H2n. ring. }
      assert (Hmod1 : M mod 2 ^ (n - 1) = t).
      { symmetry. apply (Z.mod_unique M (2 ^ (n - 1)) (2 * Zpos q) t); [lia|].
        unfold M. rewrite H2n. ring. }
      rewrite Hdiv, Hdiv1, Hmod1.
      replace (2 * Zpos q) with (0 + 2 * Zpos q) by lia.
      rewrite Z.odd_add_mul_2. cbn [Z.odd].
      replace (t =? 0) with false by (symmetry; apply Z.eqb_neq; lia).
      reflexivity. }
  rewrite Hround, He1.
  destruct (shr_fexp_spec (Zpos q) (ex + n) loc_Exact ltac:(lia)) as (He2 & Hq2 & _).
  assert (Hdq : Zdigits2 (Zpos q) = 53).
  { apply Zdigits2_unique; [lia| |lia]. change (53 - 1) with 52. lia. }
  rewrite Hdq, fexp_eq in He2, Hq2.
  replace (Z.max 0 (Z.max (53 + (ex + n) - 53) (-1074) - (ex + n))) with 0
    in He2, Hq2 by lia.
  rewrite Z.pow_0_r, Z.div_1_r in Hq2. rewrite Z.add_0_r in He2.
  rewrite Hq2, He2.
  replace (ex + n <=? emax - prec) with true; [reflexivity|].
  symmetry. apply Z.leb_le. change (emax - prec) with 971. lia.
Qed.

(** ** Bounds by powers of two *)

Lemma pow2_canonical (j : Z) :
  -1022 <= j -> fexp prec emax (Zdigits2 (2 ^ 52) + (j - 52)) = j - 52.
Proof. intros Hj. change (Zdigits2 (2 ^ 52)) with 53. rewrite fexp_eq. lia. Qed.

Lemma pow2_merge (a b : Z) : 0 <= a -> 0 <= b -> 2 ^ a * 2 ^ b = 2 ^ (a + b).
Proof. intros. now rewrite Z.pow_add_r. Qed.

Lemma pow2_double (a : Z) : 0 <= a -> 2 ^ (a + 1) = 2 * 2 ^ a.
Proof. intros. rewrite Z.pow_add_r by lia. change (2 ^ 1) with 2. ring. Qed.

(** The exponent of a power of two that a number reaches or stays below. *)
Lemma pow2_lt_exponent (a b x : Z) : 0 <= a -> 2 ^ a <= x -> x < 2 ^ b -> a < b.
Proof.
  intros Ha Hlo Hhi. destruct (Z_lt_le_dec a b) as [|Hge]; [assumption|].
  destruct (Z_lt_le_dec b 0) as [Hneg|Hnn].
  - rewrite (Z.pow_neg_r 2 b Hneg) in Hhi. pose proof (pow2_pos a Ha). lia.
  - pose proof (Z.pow_le_mono_r 2 b a ltac:(lia) Hge). lia.
Qed.

(** The sign of the result of a rounding is the one requested. *)
Lemma binary_round_aux_any_sign (s : bool) (mx ex : Z) (lx : location) :
  binary_round_aux prec emax s mx ex lx
  = match binary_round_aux prec emax false mx ex lx with
    | S754_zero _ => S754_zero s
    | S754_infinity _ => S754_infinity s
    | S754_nan => S754_nan
    | S754_finite _ m e => S754_finite s m e
    end.
Proof.
  rewrite !binary_round_aux_unfold. cbv zeta.
  destruct (shr_m _); [reflexivity| |reflexivity].
  destruct (_ <=? _); reflexivity.
Qed.

Lemma binary_round_aux_mag (s : bool) (mx ex : Z) (mb eb : Z) :
  0 <= mx ->
  ex <= fexp prec emax (Zdigits2 mx + ex) ->
  0 < mb -> fexp prec emax (Zdigits2 mb + eb) = eb -> eb <= 971 ->
  ex <= eb ->
  mx <= mb * 2 ^ (eb - ex) ->
  mag_le (binary_round_aux prec emax s mx ex loc_Exact) mb eb.
Proof.
  intros Hmx Hprec Hmb Hcan Hmax Hex Hle.
  pose proof (binary_round_aux_upper mx ex loc_Exact mb eb Hmx Hprec Hmb Hcan Hmax Hex
                ltac:(rewrite Z.add_0_r; exact Hle)) as H.
  rewrite binary_round_aux_any_sign.
  destruct (binary_round_aux prec emax false mx ex loc_Exact) as [?|?| |? m e];
    try contradiction; [exact I|].
  destruct H as (_ & He & Hm). split; assumption.
Qed.

(** Normalising an integer mantissa does not exceed a representable
    bound of its magnitude. *)
Lemma binary_normalize_mag (m ez : Z) (mb eb : Z) :
  0 < mb -> fexp prec emax (Zdigits2 mb + eb) = eb -> eb <= 971 ->
  ez <= eb -> Z.abs m <= mb * 2 ^ (eb - ez) ->
  mag_le (binary_normalize prec emax m ez false) mb eb.
Proof.
  intros Hmb Hcan Hmax Hez Hle.
  assert (Hround : forall (s : bool) (p : positive),
             Zpos p <= mb * 2 ^ (eb - ez) ->
             mag_le (binary_round prec emax s p ez) mb eb).
  { intros s p Hp. unfold binary_round.
    set (e' := fexp prec emax (Zpos (digits2_pos p) + ez)).
    destruct (Z_le_gt_dec e' ez) as [Hshift|Hkeep].
    - destruct (shl_align_spec p ez e' Hshift) as [He Hm].
      destruct (shl_align p ez e') as [mz ez2]. cbn [fst snd] in He, Hm. subst ez2.
      pose proof (pow2_pos (ez - e') ltac:(lia)) as HP.
      assert (Hdig : Zdigits2 (Zpos mz) + e' = Zpos (digits2_pos p) + ez).
      { rewrite Hm, Zdigits2_mul_pow by lia. cbn [Zdigits2]. lia. }
      apply binary_round_aux_mag; try assumption; try lia.
      + rewrite Hdig. fold e'. lia.
      + rewrite Hm. rewrite (pow2_split e' ez eb) by lia. nia.
    - unfold shl_align. destruct (e' - ez) as [|d|d] eqn:Ed; try lia.
      apply binary_round_aux_mag; try assumption; try lia.
      cbn [Zdigits2]. fold e'. lia. }
  destruct m as [|p|p]; cbn [binary_normalize]; [exact I| |]; apply Hround; lia.
Qed.

(** The difference of two numbers of [0, 2^j] has magnitude at most
    [2^j]. *)
Lemma SFsub_pow2 (x y : spec_float) (j : Z) :
  -1022 <= j <= 1023 ->
  le_pow2 x j -> le_pow2 y j -> mag_pow2 (SFsub prec emax x y) j.
Proof.
  intros Hj Hx Hy. unfold le_pow2, mag_pow2, nonneg_le in *.
  destruct x as [sx|sx| |sx mx ex], y as [sy|sy| |sy my ey]; try contradiction.
  - subst. exact I.
  - destruct Hy as (-> & He & Hm). cbn. split; assumption.
  - destruct Hx as (-> & He & Hm). cbn. split; assumption.
  - destruct Hx as (-> & Hex & Hmx). destruct Hy as (-> & Hey & Hmy).
    cbn [SFsub cond_Zopp].
    set (ez := Z.min ex ey).
    destruct (shl_align_spec mx ex ez ltac:(unfold ez; lia)) as [_ ->].
    destruct (shl_align_spec my ey ez ltac:(unfold ez; lia)) as [_ ->].
    apply binary_normalize_mag;
      [lia|apply pow2_canonical; lia|lia|unfold ez; lia|].
    pose proof (pow2_pos (ex - ez) ltac:(unfold ez; lia)) as HPx.
    pose proof (pow2_pos (ey - ez) ltac:(unfold ez; lia)) as HPy.
    assert (Hx' : Zpos mx * 2 ^ (ex - ez) <= 2 ^ 52 * 2 ^ (j - 52 - ez)).
    { rewrite (pow2_split ez ex (j - 52)) by (unfold ez; lia). nia. }
    assert (Hy' : Zpos my * 2 ^ (ey - ez) <= 2 ^ 52 * 2 ^ (j - 52 - ez)).
    { rewrite (pow2_split ez ey (j - 52)) by (unfold ez; lia). nia. }
    lia.
Qed.

(** A quotient of a number of [0, 2^jx] by a number not below [2^jy]
    lies in [0, 2^(jx - jy)]. *)
Lemma SFdiv_pow2 (x : spec_float) (m2 : positive) (e2 jx jy : Z) :
  le_pow2 x jx ->
  e2 <= jy -> 2 ^ (jy - e2) <= Zpos m2 ->
  -1022 <= jx - jy <= 1023 ->
  le_pow2 (SFdiv prec emax x (S754_finite false m2 e2)) (jx - jy).
Proof.
  intros Hx He2 Hm2 Hj. unfold le_pow2, nonneg_le in *.
  destruct x as [sx|sx| |sx m1 e1]; try contradiction.
  - subst sx. reflexivity.
  - destruct Hx as (-> & He1 & Hm1).
    rewrite pow2_merge in Hm1 by lia. replace (52 + (jx - 52 - e1)) with (jx - e1) in Hm1 by lia.
    destruct (digits2_pos_bounds m1) as [Hlo1 Hhi1].
    destruct (digits2_pos_bounds m2) as [Hlo2 Hhi2].
    set (d1 := Zpos (digits2_pos m1)) in *. set (d2 := Zpos (digits2_pos m2)) in *.
    assert (Hd1 : d1 + e1 <= jx + 1).
    { pose proof (pow2_lt_exponent (d1 - 1) (jx - e1 + 1) (Zpos m1) ltac:(unfold d1; lia) Hlo1
                    ltac:(rewrite pow2_double by lia; lia)). lia. }
    assert (Hd2 : jy + 1 <= d2 + e2).
    { pose proof (pow2_lt_exponent (jy - e2) d2 (Zpos m2) ltac:(lia) Hm2 Hhi2). lia. }
    pose proof (SFdiv_upper m1 m2 e1 e2 (2 ^ 52) (jx - jy - 52)) as H. cbv zeta in H.
    fold d1 d2 in H.
    set (e' := Z.min (fexp prec emax (d1 + e1 - (d2 + e2))) (e1 - e2)) in *.
    assert (He' : e' <= jx - jy - 52).
    { unfold e'. rewrite fexp_eq. lia. }
    assert (He'' : e' <= e1 - e2) by (unfold e'; lia).
    apply H; [lia|apply pow2_canonical; lia|lia|exact He'|].
    pose proof (pow2_pos (e1 - e2 - e') ltac:(lia)) as HA.
    pose proof (pow2_pos (jx - jy - 52 - e') ltac:(lia)) as HB.
    assert (Hl : Zpos m1 * 2 ^ (e1 - e2 - e') <= 2 ^ (jx - e2 - e')).
    { replace (jx - e2 - e') with ((jx - e1) + (e1 - e2 - e')) by lia.
      rewrite <- pow2_merge by lia. nia. }
    assert (Hr : 2 ^ (jx - e2 - e') <= 2 ^ 52 * 2 ^ (jx - jy - 52 - e') * Zpos m2).
    { replace (jx - e2 - e') with (52 + (jx - jy - 52 - e') + (jy - e2)) by lia.
      rewrite <- !pow2_merge by lia.
      pose proof (pow2_pos 52 ltac:(lia)). nia. }
    lia.
Qed.

(** A product of a number of [0, 2^jx] by a normal number of
    [0, 2^jy] lies in [0, 2^(jx + jy)]. *)
Lemma SFmul_pow2 (x : spec_float) (m2 : positive) (e2 jx jy : Z) :
  le_pow2 x jx ->
  2 ^ 52 <= Zpos m2 -> e2 <= jy -> Zpos m2 <= 2 ^ (jy - e2) ->
  -1022 <= jx + jy <= 1023 ->
  le_pow2 (SFmul prec emax x (S754_finite false m2 e2)) (jx + jy).
Proof.
  intros Hx Hn He2 Hm2 Hj. unfold le_pow2, nonneg_le in *.
  destruct x as [sx|sx| |sx m1 e1]; try contradiction.
  - subst sx. reflexivity.
  - destruct Hx as (-> & He1 & Hm1).
    rewrite pow2_merge in Hm1 by lia. replace (52 + (jx - 52 - e1)) with (jx - e1) in Hm1 by lia.
    assert (H52 : 52 <= jy - e2).
    { pose proof (pow2_lt_exponent 52 (jy - e2 + 1) (Zpos m2) ltac:(lia) Hn
                    ltac:(rewrite pow2_double by lia; lia)). lia. }
    apply SFmul_upper; [exact Hn|lia|apply pow2_canonical; lia|lia|lia|].
    rewrite pow2_merge by lia.
    replace (52 + (jx + jy - 52 - (e1 + e2))) with ((jx - e1) + (jy - e2)) by lia.
    rewrite <- pow2_merge by lia.
    pose proof (pow2_pos (jx - e1) ltac:(lia)). pose proof (pow2_pos (jy - e2) ltac:(lia)).
    nia.
Qed.

(** ** Absorption *)

(** A number of magnitude at most [2^j], with [2^j] a quarter of the unit
    in the last place of [x], leaves [x] unchanged when added to it. *)
Lemma SFadd_absorb (d : spec_float) (sx : bool) (mx : positive) (ex j : Z) :
  2 ^ 52 < Zpos mx < 2 ^ 53 -> -1074 <= ex <= 971 ->
  j <= ex - 2 -> mag_pow2 d j ->
  SFadd prec emax d (S754_finite sx mx ex) = S754_finite sx mx ex.
Proof.
  intros Hmx Hex Hj Hd. unfold mag_pow2, mag_le in Hd.
  destruct d as [sd|sd| |sd md ed]; try contradiction; [reflexivity|].
  destruct Hd as [Hed Hmd].
  rewrite pow2_merge in Hmd by lia. replace (52 + (j - 52 - ed)) with (j - ed) in Hmd by lia.
  cbn [SFadd]. rewrite Z.min_l by lia.
  destruct (shl_align_spec md ed ed ltac:(lia)) as [_ ->].
  destruct (shl_align_spec mx ex ed ltac:(lia)) as [_ ->].
  rewrite Z.sub_diag, Z.pow_0_r, Z.mul_1_r.
  set (n := ex - ed).
  assert (Hn : 54 <= n) by (unfold n; lia).
  assert (Hsmall : Zpos md <= 2 ^ (n - 2)).
  { apply (Z.le_trans _ _ _ Hmd). apply Z.pow_le_mono_r; unfold n; lia. }
  assert (H2 : 2 ^ (n - 1) = 2 * 2 ^ (n - 2)).
  { replace (n - 1) with (Z.succ (n - 2)) by lia. rewrite Z.pow_succ_r by lia. ring. }
  assert (H4 : 2 ^ n = 4 * 2 ^ (n - 2)).
  { replace n with (Z.succ (Z.succ (n - 2))) at 1 by lia.
    rewrite !Z.pow_succ_r by lia. ring. }
  pose proof (pow2_pos (n - 2) ltac:(lia)) as HP.
  assert (H52 : 2 ^ (52 + n) = 2 ^ 52 * 2 ^ n) by (rewrite Z.pow_add_r by lia; ring).
  set (t := cond_Zopp (xorb sd sx) (Zpos md)).
  assert (Ht : - 2 ^ (n - 1) < t < 2 ^ (n - 1)).
  { unfold t. destruct (xorb sd sx); cbn [cond_Zopp]; lia. }
  assert (Hsum : cond_Zopp sd (Zpos md) + cond_Zopp sx (Zpos mx * 2 ^ n)
                 = cond_Zopp sx (Zpos mx * 2 ^ n + t)).
  { unfold t. destruct sd, sx; cbn [cond_Zopp xorb]; lia. }
  rewrite Hsum.
  assert (Hlow : 2 ^ (52 + n) <= Zpos mx * 2 ^ n + t) by (rewrite H52; nia).
  assert (Hhigh : Zpos mx * 2 ^ n + t < 2 ^ (53 + n)).
  { replace (53 + n) with (Z.succ (52 + n)) by lia.
    rewrite Z.pow_succ_r, H52 by lia. nia. }
  pose proof (binary_round_aux_nearest sx mx n t ed ltac:(lia) ltac:(lia) Ht Hlow
                ltac:(unfold n; lia)) as Hround.
  replace (ed + n) with ex in Hround by (unfold n; lia).
  destruct (Zpos mx * 2 ^ n + t) as [|p|p] eqn:Ep;
    [pose proof (pow2_pos (52 + n) ltac:(lia)); lia| |
     pose proof (pow2_pos (52 + n) ltac:(lia)); lia].
  assert (Hdig : Zpos (digits2_pos p) = 53 + n).
  { change (Zpos (digits2_pos p)) with (Zdigits2 (Zpos p)).
    apply Zdigits2_unique; [lia| |lia].
    replace (53 + n - 1) with (52 + n) by lia. lia. }
  assert (Hround' : binary_round prec emax sx p ed = S754_finite sx mx ex).
  { unfold binary_round. rewrite Hdig, fexp_eq.
    replace (Z.max (53 + n + ed - 53) (-1074)) with ex by (unfold n; lia).
    unfold shl_align. destruct (ex - ed) as [|q|q] eqn:Eq; try (unfold n in Hn; lia).
    exact Hround. }
  destruct sx; cbn [cond_Zopp Z.opp binary_normalize]; exact Hround'.
Qed.

Lemma le_pow2_weaken (x : spec_float) (j j' : Z) :
  le_pow2 x j -> j <= j' -> le_pow2 x j'.
Proof.
  unfold le_pow2, nonneg_le. intros Hx Hj.
  destruct x as [s|s| |s m e]; try assumption.
  destruct Hx as (Hs & He & Hm). split; [exact Hs|]. split; [lia|].
  apply (Z.le_trans _ _ _ Hm).
  apply Z.mul_le_mono_nonneg_l; [apply Z.pow_nonneg; lia|].
  apply Z.pow_le_mono_r; lia.
Qed.

(** [(double) n] for [0 <= n < 2^11]: zero, or a normal number of
    [0, 2^11]. *)
Lemma double_of_small_int (n : Z) :
  0 <= n < 2 ^ 11 ->
  Prim2SF (C.double_of_int n) = S754_zero false \/
  exists (m : positive) (e : Z),
    Prim2SF (C.double_of_int n) = S754_finite false m e /\
    2 ^ 52 <= Zpos m /\ e <= 11 /\ Zpos m <= 2 ^ (11 - e) /\
    (2 ^ 10 <= n -> e <= 10 /\ 2 ^ (10 - e) <= Zpos m).
Proof.
  intros Hn. destruct (Z.eq_dec n 0) as [->|Hnz]; [left; reflexivity|right].
  destruct (Prim2SF_double_of_int n ltac:(lia)) as (m & Hm & Hv).
  destruct (Zdigits2_bounds n ltac:(lia)) as [Hlo Hhi].
  pose proof (Zdigits2_pos n ltac:(lia)) as Hd.
  set (d := Zdigits2 n) in *.
  assert (Hd11 : d <= 11).
  { pose proof (pow2_lt_exponent (d - 1) 11 n ltac:(lia) Hlo ltac:(lia)). lia. }
  exists m, (d - 53). split; [exact Hm|].
  pose proof (pow2_pos (53 - d) ltac:(lia)) as HP.
  assert (H52 : 2 ^ 52 = 2 ^ (d - 1) * 2 ^ (53 - d))
    by (rewrite pow2_merge by lia; f_equal; lia).
  assert (H64 : 2 ^ (11 - (d - 53)) = 2 ^ 11 * 2 ^ (53 - d))
    by (rewrite pow2_merge by lia; f_equal; lia).
  split; [rewrite Hv, H52; nia|]. split; [lia|]. split; [rewrite Hv, H64; nia|].
  intros Hbig.
  assert (Hd11' : 11 <= d).
  { pose proof (pow2_lt_exponent 10 d n ltac:(lia) Hbig Hhi). lia. }
  split; [lia|]. replace d with 11 in * by lia.
  rewrite Hv. change (10 - (11 - 53)) with 52. change (53 - 11) with 42.
  change (2 ^ 52) with (2 ^ 10 * 2 ^ 42). nia.
Qed.

(** One coordinate of [map_pixel]: when the span is at most [2^k] and
    [2^(k+1)] is at most a quarter of the unit in the last place of the
    centre, the offset from the centre is absorbed by the last
    addition. *)
Lemma affine_coord_absorbed (span : float) (extent p : Z) (centre : float)
    (k : Z) (sx : bool) (mx : positive) (ex : Z) :
  le_pow2 (Prim2SF span) k -> -1000 <= k <= 1000 ->
  2 ^ 10 <= extent < 2 ^ 11 -> 0 <= p < 2 ^ 11 ->
  Prim2SF centre = S754_finite sx mx ex ->
  2 ^ 52 < Zpos mx < 2 ^ 53 -> -1074 <= ex <= 971 -> k + 1 <= ex - 2 ->
  affine_coord span extent p centre = centre.
Proof.
  intros Hspan Hk Hext Hp Hc Hmx Hex Hke.
  apply Prim2SF_inj. unfold affine_coord.
  rewrite add_spec, sub_spec, mul_spec, !div_spec, Hc.
  unfold SF64add, SF64sub, SF64mul, SF64div.
  apply (SFadd_absorb _ sx mx ex (k + 1) Hmx Hex Hke).
  apply SFsub_pow2; [lia| |].
  - (* span / extent * p *)
    destruct (double_of_small_int extent ltac:(lia)) as [Hz|(me & ee & -> & _ & _ & _ & Hbig)].
    { exfalso. destruct (Prim2SF_double_of_int extent ltac:(lia)) as (m & Hm & _).
      rewrite Hm in Hz. discriminate. }
    destruct (Hbig ltac:(lia)) as [Hee Hme].
    pose proof (SFdiv_pow2 (Prim2SF span) me ee k 10 Hspan Hee Hme ltac:(lia)) as Ha.
    destruct (double_of_small_int p Hp) as [->|(mp & ep & -> & Hn & Hep & Hmp & _)].
    + unfold le_pow2, nonneg_le in Ha |- *.
      destruct (SFdiv prec emax (Prim2SF span) (S754_finite false me ee)) as [s|s| |s m e];
        try contradiction.
      * subst s. reflexivity.
      * destruct Ha as (-> & _). reflexivity.
    + replace (k + 1) with (k - 10 + 11) by lia.
      apply SFmul_pow2; try assumption. lia.
  - (* span / 2 *)
    change (Prim2SF 2) with (S754_finite false 4503599627370496 (-51)).
    apply (le_pow2_weaken _ (k - 1)); [|lia].
    apply SFdiv_pow2; [exact Hspan|lia| |lia].
    change (2 ^ (1 - -51)) with 4503599627370496. lia.
Qed.

(** ** The window at zooms of [2^60] and more *)

(** A number not below [2^60] is [+infinity] or a normal number. *)
Lemma deep_zoom_cases (zoom : float) :
  (deep_zoom <=? zoom)%float = true ->
  Prim2SF zoom = S754_infinity false \/
  exists (m : positive) (e : Z),
    Prim2SF zoom = S754_finite false m e /\ 8 <= e <= 971 /\ 2 ^ 52 <= Zpos m.
Proof.
  rewrite FloatAxioms.leb_spec.
  change (Prim2SF deep_zoom) with (S754_finite false 4503599627370496 8).
  pose proof (Prim2SF_valid zoom) as Hv.
  destruct (Prim2SF zoom) as [s|s| |s m e]; try discriminate.
  - destruct s; [discriminate|]. intros _. now left.
  - unfold SFleb, SFcompare. destruct s; [discriminate|].
    intros H. right. exists m, e. split; [reflexivity|].
    cbn [SpecFloat.valid_binary] in Hv. unfold bounded, canonical_mantissa in Hv.
    apply andb_prop in Hv as [Hcan Hmax].
    apply Z.eqb_eq in Hcan. apply Z.leb_le in Hmax.
    change (emax - prec) with 971 in Hmax. rewrite fexp_eq in Hcan.
    destruct (digits2_pos_bounds m) as [Hlo _].
    assert (He : 8 <= e).
    { destruct (Z.compare_spec 8 e) as [Heq|Hlt|Hgt]; [lia|lia|discriminate H]. }
    split; [lia|].
    replace (Zpos (digits2_pos m) - 1) with 52 in Hlo by lia. exact Hlo.
Qed.

(** Dividing [2^(jn)] by such a zoom gives a span of [0, 2^(jn - 60)]. *)
Lemma deep_zoom_span (num zoom : float) (jn : Z) :
  Prim2SF num = S754_finite false 4503599627370496 (jn - 52) ->
  1 <= jn <= 2 ->
  (deep_zoom <=? zoom)%float = true ->
  le_pow2 (Prim2SF (num / zoom)%float) (jn - 60).
Proof.
  intros Hnum Hjn Hz. rewrite div_spec, Hnum. unfold SF64div.
  destruct (deep_zoom_cases zoom Hz) as [->|(m & e & -> & He & Hm)].
  - reflexivity.
  - apply (le_pow2_weaken _ (jn - (e + 52))); [|lia].
    apply SFdiv_pow2; [| lia | | lia].
    + unfold le_pow2, nonneg_le. split; [reflexivity|]. split; [lia|].
      rewrite Z.sub_diag, Z.pow_0_r. lia.
    + replace (e + 52 - e) with 52 by lia. exact Hm.
Qed.

Lemma map_pixel_deep (zoom : float) (px py : Z) :
  (deep_zoom <=? zoom)%float = true ->
  0 <= px < Reference.img_width -> 0 <= py < Reference.img_height ->
  map_pixel Reference.img_width Reference.img_height px py zoom Reference.center
  = Reference.center.
Proof.
  intros Hz Hpx Hpy.
  change (map_pixel Reference.img_width Reference.img_height px py zoom Reference.center)
    with {| real := affine_coord (4 / zoom) Reference.img_width px (real Reference.center);
            imag := affine_coord (2 / zoom) Reference.img_height py (imag Reference.center) |}.
  unfold Reference.img_width, Reference.img_height in *.
  rewrite (affine_coord_absorbed (4 / zoom) 1920 px (real Reference.center)
             (-58) true 6986738275058683 (-53));
    [|exact (deep_zoom_span 4 zoom 2 eq_refl ltac:(lia) Hz)
     |lia|lia|lia|reflexivity|lia|lia|lia].
  rewrite (affine_coord_absorbed (2 / zoom) 1080 py (imag Reference.center)
             (-59) false 4916755173441853 (-55));
    [|exact (deep_zoom_span 2 zoom 1 eq_refl ltac:(lia) Hz)
     |lia|lia|lia|reflexivity|lia|lia|lia].
  reflexivity.
Qed.

Lemma centre_colour_value :
  iterate Reference.max_iter Reference.center = 446 /\
  centre_colour = Some (112, 198, 112).
Proof. split; vm_compute; reflexivity. Qed.

(** X16: from a zoom of [2^60] on (about 1.15e18; the run of [main] goes to
    1e227), [map_pixel] sends every pixel of the 1920x1080 image to the
    centre itself: the offset of the pixel is below the resolution of
    [double] at -0.77568377 and at 0.13646737 and is lost in the last
    addition.  Every pixel then has the count of the centre, 446. *)
Theorem map_pixel_deep_zoom (zoom : float) (px py : Z) :
  (deep_zoom <=? zoom)%float = true ->
  0 <= px < Reference.img_width -> 0 <= py < Reference.img_height ->
  map_pixel Reference.img_width Reference.img_height px py zoom Reference.center
  = Reference.center /\
  iterate Reference.max_iter
    (map_pixel Reference.img_width Reference.img_height px py zoom Reference.center)
  = 446.
Proof.
  intros Hz Hpx Hpy. rewrite (map_pixel_deep zoom px py Hz Hpx Hpy).
  split; [reflexivity|]. exact (proj1 centre_colour_value).
Qed.

Lemma map_pixel_deep_zoom_witness :
  ((deep_zoom <=? 1e20)%float = true /\
   0 <= 1919 < Reference.img_width /\ 0 <= 0 < Reference.img_height) /\
  map_pixel Reference.img_width Reference.img_height 1919 0 1e20 Reference.center
  = Reference.center.
Proof.
  assert (Hz : (deep_zoom <=? 1e20)%float = true) by reflexivity.
  assert (Hx : 0 <= 1919 < Reference.img_width) by (split; [discriminate|reflexivity]).
  assert (Hy : 0 <= 0 < Reference.img_height) by (split; [discriminate|reflexivity]).
  split; [exact (conj Hz (conj Hx Hy))|].
  exact (proj1 (map_pixel_deep_zoom 1e20 1919 0 Hz Hx Hy)).
Defined.

(** X17: from a zoom of [2^60] on, every thread of the launch stores the same
    three bytes, the colour (112, 198, 112) of the centre: the frame is a
    single flat colour. *)
Theorem plot_pixel_deep_zoom (zoom : float) (i : Z) (buf : list Z) :
  (deep_zoom <=? zoom)%float = true ->
  0 <= i < Reference.img_width * Reference.img_height ->
  3 * i + 2 < Z.of_nat (length buf) ->
  plot_pixel Reference.max_iter Reference.img_width Reference.img_height
    Reference.center zoom i buf
  = Some (<[Z.to_nat (3 * i + 2) := 112]>
            (<[Z.to_nat (3 * i + 1) := 198]> (<[Z.to_nat (3 * i) := 112]> buf))).
Proof.
  intros Hz Hi Hlen.
  assert (HM : 0 < Reference.max_iter <= C.INT_MAX) by (split; [reflexivity|discriminate]).
  destruct (plot_pixel_spec Reference.max_iter Reference.img_width Reference.img_height
              Reference.center zoom HM i buf ltac:(lia) Hlen)
    as (r & g & b & Hrgb & ->).
  destruct (pixel_coords Reference.img_width ltac:(reflexivity) i ltac:(lia)) as [Em Ed].
  rewrite map_pixel_deep in Hrgb.
  - fold centre_colour in Hrgb. rewrite (proj2 centre_colour_value) in Hrgb.
    injection Hrgb as <- <- <-. reflexivity.
  - exact Hz.
  - rewrite Em. apply Z.mod_pos_bound. reflexivity.
  - rewrite Ed. split; [apply Z.div_pos; [lia|reflexivity]|].
    apply Z.div_lt_upper_bound; [reflexivity|lia].
Qed.

Lemma plot_pixel_deep_zoom_witness :
  ((deep_zoom <=? 1e20)%float = true /\
   0 <= 1 < Reference.img_width * Reference.img_height /\
   3 * 1 + 2 < Z.of_nat (length [0; 0; 0; 0; 0; 0])) /\
  plot_pixel Reference.max_iter Reference.img_width Reference.img_height
    Reference.center 1e20 1 [0; 0; 0; 0; 0; 0]
  = Some [0; 0; 0; 112; 198; 112].
Proof.
  assert (Hz : (deep_zoom <=? 1e20)%float = true) by reflexivity.
  assert (Hi : 0 <= 1 < Reference.img_width * Reference.img_height)
    by (split; [discriminate|reflexivity]).
  assert (Hl : 3 * 1 + 2 < Z.of_nat (length [0; 0; 0; 0; 0; 0])) by reflexivity.
  split; [exact (conj Hz (conj Hi Hl))|].
  exact (plot_pixel_deep_zoom 1e20 1 [0; 0; 0; 0; 0; 0] Hz Hi Hl).
Defined.

(** ** The reference run *)

Lemma reference_zooms_checked : reference_zooms_ok = true.
Proof. vm_cast_no_check (eq_refl true). Qed.

(** X18: with the constants of main.cu the loop of [main] writes 5485 images,
    whatever non-zero estimate is printed, and from image 437 on the
    zoom is at least [2^60], so that these 5048 images are the same flat
    colour. *)
Theorem reference_run_deep_frames (n : Z) :
  n <> 0 ->
  exists fs : list frame,
    zoom_loop n Reference.zoom_end Reference.zoom_fact (Z.to_nat 5485)
      Reference.zoom_start 0 = Done fs /\
    Z.of_nat (length fs) = 5485 /\
    forall (k : nat) (f : frame),
      (437 <= k)%nat -> fs !! k = Some f ->
      frame_id f = Z.of_nat k /\ (deep_zoom <=? frame_zoom f)%float = true.
Proof.
  intros Hn. pose proof reference_zooms_checked as Hok. unfold reference_zooms_ok in Hok.
  destruct (zoom_sequence Reference.zoom_end Reference.zoom_fact (Z.to_nat 5485)
              Reference.zoom_start) as [zs|] eqn:Eseq; [|discriminate].
  apply andb_prop in Hok as [Hlen Hdeep]. apply Z.eqb_eq in Hlen.
  destruct (zoom_sequence_loop (Z.to_nat 5485) n _ _ _ 0 zs Eseq Hn ltac:(lia)
              ltac:(rewrite Hlen; unfold C.INT_MAX; lia)) as (fs & Hloop & Hzs).
  exists fs. split; [exact Hloop|].
  assert (Hlfs : Z.of_nat (length fs) = 5485)
    by (rewrite <- Hlen, <- Hzs, length_fmap; reflexivity).
  split; [exact Hlfs|].
  intros k f Hk Hf.
  destruct (zoom_loop_sequence _ _ _ _ _ _ _ Hloop) as [_ Hids].
  split.
  - assert (Hid : (frame_id <$> fs) !! k = Some (frame_id f))
      by (rewrite list_lookup_fmap, Hf; reflexivity).
    rewrite Hids in Hid. apply lookup_seqZ in Hid. lia.
  - rewrite forallb_forall in Hdeep. apply Hdeep.
    apply list_elem_of_In. apply (list_elem_of_lookup_2 _ (k - 437)%nat).
    rewrite lookup_drop, <- Hzs, list_lookup_fmap.
    replace (437 + (k - 437))%nat with k by lia. rewrite Hf. reflexivity.
Qed.

Lemma reference_run_deep_frames_witness :
  3 <> 0 /\
  exists fs : list frame,
    zoom_loop 3 Reference.zoom_end Reference.zoom_fact (Z.to_nat 5485)
      Reference.zoom_start 0 = Done fs /\
    Z.of_nat (length fs) = 5485.
Proof.
  assert (Hn : 3 <> 0) by discriminate.
  split; [exact Hn|].
  destruct (reference_run_deep_frames 3 Hn) as (fs & Hloop & Hlen & _).
  exists fs. split; assumption.
Defined.
